(** * datasaver: the backup lifecycle core, embedded in Rocq

    A shallow embedding of the retention rotator (package [rotation]), the
    integrity validator and the retry wrapper (package [backup]) and the
    metadata helpers (package [postgres]) of localrivet/datasaver, with the
    properties of the specification proved or refuted on it.  The last part
    covers the code around them: the retention date, the restore check, the
    catalogue of backups and its clean-up, the configured database type and
    the record that a run persists.

    Go values are modelled as follows.
    - [int], [int64] and [time.Duration] are [Z]; where the source can
      overflow the 64-bit wrap-around is written out ([wrap64]).
    - Go strings are byte strings: [string] (one [ascii] per byte).
    - [time.Time] is an instant in nanoseconds since the Unix epoch together
      with the offset (seconds east of UTC) that its location has at that
      instant.
    - [error] is an inductive type with the two context sentinels, plain
      errors and [%w]-wrapped errors.
    - [map[string]bool] is a [gmap string bool].
    - [float64] is abstract: the one floating-point expression of the
      source is a parameter of the retry wrapper.  Where a property speaks
      of the value of the multiplier, that value is a rational number.
    - Calls of the storage backend are recorded in a trace; the clock and
      the context are inputs ([now], the outcomes of the selects). *)

From Stdlib Require Import ZArith Lia Bool Ascii.
From Stdlib Require Import QArith Qminmax Qpower Lqa.
From Stdlib Require Import Strings.Byte.
From stdpp Require Import gmap strings list sorting.

Local Open Scope Z_scope.

(* ===================================================================== *)
(** * Go machine integers *)
(* ===================================================================== *)

Module GoInt.

Definition minInt64 : Z := - 2 ^ 63.
Definition maxInt64 : Z := 2 ^ 63 - 1.

(** Two's-complement wrap-around of a mathematical integer to [int64]. *)
Definition wrap64 (x : Z) : Z := (x + 2 ^ 63) mod 2 ^ 64 - 2 ^ 63.

(** Saturation to the [int64] range, as [time.Time.Sub] does. *)
Definition sat64 (x : Z) : Z :=
  if x <? minInt64 then minInt64
  else if maxInt64 <? x then maxInt64
  else x.

Definition inInt64 (x : Z) : Prop := minInt64 <= x <= maxInt64.

End GoInt.

(* ===================================================================== *)
(** * Decimal printing ([strconv], [fmt] with the verb d, [time.appendInt]) *)
(* ===================================================================== *)

Module Decimal.

Definition digitChar (d : Z) : ascii := ascii_of_nat (48 + Z.to_nat d).

(** The decimal digits of [u >= 0], most significant first, prepended to
    [acc]; [fuel] bounds the number of digits. *)
Fixpoint digitsAcc (fuel : nat) (u : Z) (acc : string) : string :=
  match fuel with
  | O => acc
  | S fuel' =>
      let acc' := String (digitChar (u mod 10)) acc in
      if u / 10 =? 0 then acc' else digitsAcc fuel' (u / 10) acc'
  end.

Definition digits (u : Z) : string :=
  digitsAcc (S (Z.to_nat (Z.log2 u))) u EmptyString.

Fixpoint zeros (n : nat) : string :=
  match n with
  | O => EmptyString
  | S n' => String "0"%char (zeros n')
  end.

(** [time.appendInt(b, x, width)]: an optional minus sign, then the digits
    of |x| padded with zeros on the left up to [width] digits. *)
Definition appendInt (x : Z) (width : nat) : string :=
  let u := Z.abs x in
  let ds := digits u in
  let body := zeros (width - String.length ds) +:+ ds in
  if x <? 0 then String "-"%char body else body.

(** The verb d of [fmt.Sprintf] on an integer. *)
Definition itoa (x : Z) : string := appendInt x 0.

(** The [width] low decimal digits of [x], most significant first: what a
    field of fixed width shows. *)
Fixpoint fixedDigits (width : nat) (x : Z) : string :=
  match width with
  | O => EmptyString
  | S w => fixedDigits w (x / 10) +:+ String (digitChar (x mod 10)) EmptyString
  end.

(** [P] holds of the [n] integers from [z] on. *)
Fixpoint allFrom (n : nat) (z : Z) (P : Z -> bool) : bool :=
  match n with
  | O => true
  | S n' => P z && allFrom n' (z + 1) P
  end.

End Decimal.

(* ===================================================================== *)
(** * package time *)
(* ===================================================================== *)

Module GoTime.
Import GoInt Decimal.

(** A [time.Time]: the instant, and the offset of its location at that
    instant (0 for UTC). *)
Record Time : Type := mkTime {
  unixNano : Z;
  zoneOffset : Z
}.

(** [time.Duration] constants, in nanoseconds. *)
Definition Nanosecond : Z := 1.
Definition Second : Z := 1000000000.
Definition Minute : Z := 60 * Second.
Definition Hour : Z := 60 * Minute.

(** [t.After(u)]: the instant of [t] is later than the instant of [u]. *)
Definition After (t u : Time) : bool := unixNano u <? unixNano t.

(** [t.Sub(u)]: the duration t-u, saturated to the [int64] range. *)
Definition Sub (t u : Time) : Z := sat64 (unixNano t - unixNano u).

(** [t.UTC()]: the same instant with the location set to UTC. *)
Definition UTC (t : Time) : Time := {| unixNano := unixNano t; zoneOffset := 0 |}.

(** Seconds on the wall clock of [t]'s location since 1970-01-01 00:00:00. *)
Definition wallSeconds (t : Time) : Z := unixNano t / Second + zoneOffset t.

Definition wallDays (t : Time) : Z := wallSeconds t / 86400.
Definition secondOfDay (t : Time) : Z := wallSeconds t mod 86400.

(** [time.Weekday]: Sunday = 0, ..., Saturday = 6.  1970-01-01 was a
    Thursday. *)
Definition Sunday : Z := 0.
Definition Weekday (t : Time) : Z := (wallDays t + 4) mod 7.

(** The proleptic Gregorian date of a day number counted from 1970-01-01:
    (year, month, day). *)
Definition civil (days : Z) : Z * Z * Z :=
  let z := days + 719468 in
  let era := z / 146097 in
  let doe := z - era * 146097 in
  let yoe := (doe - doe / 1460 + doe / 36524 - doe / 146096) / 365 in
  let doy := doe - (365 * yoe + yoe / 4 - yoe / 100) in
  let mp := (5 * doy + 2) / 153 in
  let d := doy - (153 * mp + 2) / 5 + 1 in
  let m := if mp <? 10 then mp + 3 else mp - 9 in
  let y := yoe + era * 400 + (if m <=? 2 then 1 else 0) in
  (y, m, d).

Definition Year (t : Time) : Z := fst (fst (civil (wallDays t))).
Definition Month (t : Time) : Z := snd (fst (civil (wallDays t))).
Definition Day (t : Time) : Z := snd (civil (wallDays t)).
Definition HourOf (t : Time) : Z := secondOfDay t / 3600.
Definition MinuteOf (t : Time) : Z := (secondOfDay t mod 3600) / 60.
Definition SecondOf (t : Time) : Z := secondOfDay t mod 60.

(** [t.Format("20060102_150405")]: year (at least four digits), month, day,
    an underscore, then hour, minute and second of the 24-hour clock, each
    of two digits, all read off [t]'s own location. *)
Definition Format_20060102_150405 (t : Time) : string :=
  appendInt (Year t) 4 +:+ appendInt (Month t) 2 +:+ appendInt (Day t) 2
  +:+ "_" +:+ appendInt (HourOf t) 2 +:+ appendInt (MinuteOf t) 2
  +:+ appendInt (SecondOf t) 2.

(** [time.Date(y, m, d, h, mi, s, 0, loc)] for a location of fixed offset:
    used to write test inputs. *)
Definition daysFromCivil (y m d : Z) : Z :=
  let y' := if m <=? 2 then y - 1 else y in
  let era := y' / 400 in
  let yoe := y' - era * 400 in
  let mp := if m <=? 2 then m + 9 else m - 3 in
  let doy := (153 * mp + 2) / 5 + d - 1 in
  let doe := yoe * 365 + yoe / 4 - yoe / 100 + doy in
  era * 146097 + doe - 719468.

Definition Date (y m d h mi s : Z) (offset : Z) : Time :=
  {| unixNano := (daysFromCivil y m d * 86400 + h * 3600 + mi * 60 + s - offset) * Second;
     zoneOffset := offset |}.

(** The instant whose UTC wall clock shows what the clock of [t]'s own
    location shows at [t]. *)
Definition wallClockInUTC (t : Time) : Time :=
  {| unixNano := unixNano t + zoneOffset t * Second; zoneOffset := 0 |}.

(** Month and day of the day number [doe] of a 400-year era are in range. *)
Definition monthDayInRange (doe : Z) : bool :=
  let '(_, m, d) := civil (doe - 719468) in
  (1 <=? m) && (m <=? 12) && (1 <=? d) && (d <=? 31).

End GoTime.

(* ===================================================================== *)
(** * package postgres: the persisted backup record *)
(* ===================================================================== *)

Module Postgres.
Import GoTime.

Record DatabaseMetadata : Type := {
  Name : string;
  Host : string;
  Version : string
}.

(** [DurationSeconds] (a float64 that no modelled function reads) is left
    out. *)
Record BackupInfo : Type := {
  Method : string;
  Format : string;
  Compression : string;
  SizeBytes : Z;
  CompressedSize : Z;
  Checksum : string
}.

Record RetentionInfo : Type := {
  KeepUntil : Time;
  RetentionPolicy : string
}.

Record BackupMetadata : Type := {
  ID : string;
  Timestamp : Time;
  Type_ : string;
  Database : DatabaseMetadata;
  Backup : BackupInfo;
  Files : list string;
  Retention : RetentionInfo
}.

(** [GenerateBackupID]: [fmt.Sprintf("backup_%s", timestamp.Format("20060102_150405"))]. *)
Definition GenerateBackupID (timestamp : Time) : string :=
  "backup_" +:+ Format_20060102_150405 timestamp.

End Postgres.

(* ===================================================================== *)
(** * package rotation: the GFS retention policy *)
(* ===================================================================== *)

Module Rotation.
Import GoInt GoTime Postgres.

Record Policy : Type := {
  KeepDaily : Z;
  KeepWeekly : Z;
  KeepMonthly : Z;
  MaxAgeDays : Z
}.

Definition NewPolicy (daily weekly monthly maxAgeDays : Z) : Policy :=
  {| KeepDaily := daily; KeepWeekly := weekly; KeepMonthly := monthly;
     MaxAgeDays := maxAgeDays |}.

(** [BackupType] is a string type in the source with exactly these three
    constants ("daily", "weekly", "monthly"). *)
Inductive BackupType : Type :=
  | BackupTypeDaily
  | BackupTypeWeekly
  | BackupTypeMonthly.

Definition ClassifyBackup (t : Time) : list BackupType :=
  let types := [BackupTypeDaily] in
  let types := if Weekday t =? Sunday then types ++ [BackupTypeWeekly] else types in
  let types := if Day t =? 1 then types ++ [BackupTypeMonthly] else types in
  types.

Definition GetPrimaryType (t : Time) : BackupType :=
  if Day t =? 1 then BackupTypeMonthly
  else if Weekday t =? Sunday then BackupTypeWeekly
  else BackupTypeDaily.

Record BackupEntry : Type := {
  Metadata : BackupMetadata;
  Types : list BackupType
}.

(** [sort.Slice(backups, less)] with [less i j = backups[i].Timestamp.After
    (backups[j].Timestamp)], modelled by the insertion sort that Go runs on
    short slices: element [x] is swapped leftwards past every neighbour it
    is less than.  [revPrefix] is the already sorted prefix, last element
    first.  [sort.Slice] does not promise an order among records of equal
    instant; on pairwise-distinct instants every sorting algorithm gives the
    same list. *)
Fixpoint insertBack (x : BackupMetadata) (revPrefix : list BackupMetadata)
  : list BackupMetadata :=
  match revPrefix with
  | [] => [x]
  | y :: r =>
      if After (Timestamp x) (Timestamp y) then y :: insertBack x r
      else x :: y :: r
  end.

Definition sortSlice (backups : list BackupMetadata) : list BackupMetadata :=
  rev (fold_left (fun acc x => insertBack x acc) backups []).

(** The three counters of the quota walk. *)
Record Counters : Type := {
  dailyCount : Z;
  weeklyCount : Z;
  monthlyCount : Z
}.

Definition zeroCounters : Counters :=
  {| dailyCount := 0; weeklyCount := 0; monthlyCount := 0 |}.

(** One iteration of the inner loop over [entry.Types]: the state is the
    counters and the flag [shouldKeep]. *)
Definition typeStep (p : Policy) (st : Counters * bool) (t : BackupType)
  : Counters * bool :=
  let '(c, shouldKeep) := st in
  match t with
  | BackupTypeMonthly =>
      if monthlyCount c <? KeepMonthly p
      then ({| dailyCount := dailyCount c; weeklyCount := weeklyCount c;
               monthlyCount := monthlyCount c + 1 |}, true)
      else (c, shouldKeep)
  | BackupTypeWeekly =>
      if weeklyCount c <? KeepWeekly p
      then ({| dailyCount := dailyCount c; weeklyCount := weeklyCount c + 1;
               monthlyCount := monthlyCount c |}, true)
      else (c, shouldKeep)
  | BackupTypeDaily =>
      if dailyCount c <? KeepDaily p
      then ({| dailyCount := dailyCount c + 1; weeklyCount := weeklyCount c;
               monthlyCount := monthlyCount c |}, true)
      else (c, shouldKeep)
  end.

(** One iteration of the first loop over [entries]: the state is the
    counters and the map [keep]. *)
Definition entryStep (p : Policy) (st : Counters * gmap string bool)
  (entry : BackupEntry) : Counters * gmap string bool :=
  let '(c, keep) := st in
  let '(c', shouldKeep) := fold_left (typeStep p) (Types entry) (c, false) in
  (c', if shouldKeep then <[ID (Metadata entry) := true]> keep else keep).

Definition quotaWalk (p : Policy) (entries : list BackupEntry)
  (st : Counters * gmap string bool) : Counters * gmap string bool :=
  fold_left (entryStep p) entries st.

(** [keep[id]] on a Go map: the zero value [false] for a missing key. *)
Definition lookupKeep (keep : gmap string bool) (id : string) : bool :=
  default false (keep !! id).

(** [time.Duration(g.policy.MaxAgeDays) * 24 * time.Hour], in int64. *)
Definition maxAgeOf (p : Policy) : Z :=
  wrap64 (wrap64 (MaxAgeDays p * 24) * Hour).

(** One iteration of the second loop: append to [toDelete] or not. *)
Definition deleteStep (p : Policy) (now : Time) (keep : gmap string bool)
  (toDelete : list BackupMetadata) (entry : BackupEntry) : list BackupMetadata :=
  if negb (lookupKeep keep (ID (Metadata entry)))
  then toDelete ++ [Metadata entry]
  else if (0 <? MaxAgeDays p)
          && (maxAgeOf p <? Sub now (Timestamp (Metadata entry)))
       then toDelete ++ [Metadata entry]
       else toDelete.

Definition mkEntry (b : BackupMetadata) : BackupEntry :=
  {| Metadata := b; Types := ClassifyBackup (Timestamp b) |}.

(** [GFSRotator.DetermineBackupsToDelete]; [now] is the reading of
    [time.Now()] taken between the two loops.  A nil result is []. *)
Definition DetermineBackupsToDelete (p : Policy) (now : Time)
  (backups : list BackupMetadata) : list BackupMetadata :=
  if (length backups =? 0)%nat then []
  else
    let sorted := sortSlice backups in
    let entries := map mkEntry sorted in
    let keep := snd (quotaWalk p entries (zeroCounters, ∅)) in
    fold_left (deleteStep p now keep) entries [].

(** ** Vocabulary of the properties *)

(** The instant of a record. *)
Definition instant (b : BackupMetadata) : Z := unixNano (Timestamp b).

Definition olderEq (a b : BackupMetadata) : Prop := instant a <= instant b.
Definition newerEq (a b : BackupMetadata) : Prop := instant b <= instant a.

(** The map [keep] that the first loop leaves: the ids marked as kept. *)
Definition keptIDs (p : Policy) (backups : list BackupMetadata) : gmap string bool :=
  snd (quotaWalk p (map mkEntry (sortSlice backups)) (zeroCounters, ∅)).

(** The test of the second loop on one record. *)
Definition wouldDelete (p : Policy) (now : Time) (keep : gmap string bool)
  (b : BackupMetadata) : bool :=
  negb (lookupKeep keep (ID b))
  || ((0 <? MaxAgeDays p) && (maxAgeOf p <? Sub now (Timestamp b))).

(** One day, in nanoseconds. *)
Definition dayNanos : Z := 24 * Hour.

End Rotation.

(* ===================================================================== *)
(** * package backup: the id of a run *)
(* ===================================================================== *)

Module Engine.
Import GoTime Postgres.

(** The first two statements of [Engine.Run]:
    [startTime := time.Now(); backupID := postgres.GenerateBackupID(startTime)].
    [startTime] carries the local location of the process; no conversion to
    UTC is made. *)
Definition RunBackupID (startTime : Time) : string := GenerateBackupID startTime.

End Engine.

(* ===================================================================== *)
(** * crypto/sha256 and encoding/hex *)
(* ===================================================================== *)

Module Sha256.
Import Decimal.

Definition byteToZ (b : Byte.byte) : Z := Z.of_N (Byte.to_N b).
Definition byteOfZ (z : Z) : Byte.byte :=
  byte_of_ascii (ascii_of_N (Z.to_N (z mod 256))).

Definition add32 (x y : Z) : Z := (x + y) mod 2 ^ 32.
Definition rotr (n x : Z) : Z :=
  Z.lor (Z.shiftr x n) (Z.shiftl x (32 - n) mod 2 ^ 32).
Definition shr (n x : Z) : Z := Z.shiftr x n.
Definition not32 (x : Z) : Z := Z.lxor x (2 ^ 32 - 1).

Definition Ch (x y z : Z) : Z := Z.lxor (Z.land x y) (Z.land (not32 x) z).
Definition Maj (x y z : Z) : Z :=
  Z.lxor (Z.lxor (Z.land x y) (Z.land x z)) (Z.land y z).
Definition bigSigma0 (x : Z) : Z := Z.lxor (Z.lxor (rotr 2 x) (rotr 13 x)) (rotr 22 x).
Definition bigSigma1 (x : Z) : Z := Z.lxor (Z.lxor (rotr 6 x) (rotr 11 x)) (rotr 25 x).
Definition smallSigma0 (x : Z) : Z := Z.lxor (Z.lxor (rotr 7 x) (rotr 18 x)) (shr 3 x).
Definition smallSigma1 (x : Z) : Z := Z.lxor (Z.lxor (rotr 17 x) (rotr 19 x)) (shr 10 x).

(** The constants of FIPS 180-4 are derived as the standard defines them:
    the first 32 bits of the fractional parts of the cube roots (round
    constants) and of the square roots (initial hash value) of the first
    primes. *)
Definition isPrime (p : Z) : bool :=
  (2 <=? p) && allFrom (Z.to_nat (p - 2)) 2 (fun d => negb (p mod d =? 0)).

(** The first [n] primes that are at least [p]. *)
Fixpoint primesFrom (fuel n : nat) (p : Z) : list Z :=
  match fuel, n with
  | O, _ | _, O => []
  | S fuel', S n' =>
      if isPrime p then p :: primesFrom fuel' n' (p + 1)
      else primesFrom fuel' n (p + 1)
  end.

(** The integer part of the cube root of [x], for [lo^3 <= x < hi^3]. *)
Fixpoint cubeRootBetween (fuel : nat) (lo hi x : Z) : Z :=
  match fuel with
  | O => lo
  | S fuel' =>
      if hi - lo <=? 1 then lo
      else
        let mid := (lo + hi) / 2 in
        if mid * mid * mid <=? x then cubeRootBetween fuel' mid hi x
        else cubeRootBetween fuel' lo mid x
  end.

Definition fracCubeRoot32 (p : Z) : Z :=
  cubeRootBetween 64 0 (2 ^ 40) (p * 2 ^ 96) mod 2 ^ 32.
Definition fracSquareRoot32 (p : Z) : Z := Z.sqrt (p * 2 ^ 64) mod 2 ^ 32.

Definition K : list Z := Eval vm_compute in map fracCubeRoot32 (primesFrom 400 64 2).
Definition H0 : list Z := Eval vm_compute in map fracSquareRoot32 (primesFrom 400 8 2).

(** Big-endian bytes of a word of [n] bytes. *)
Fixpoint bigEndian (n : nat) (x : Z) : list Z :=
  match n with
  | O => []
  | S n' => (Z.shiftr x (8 * Z.of_nat n')) mod 256 :: bigEndian n' x
  end.

Definition wordOfBytes (bs : list Z) : Z :=
  fold_left (fun acc b => acc * 256 + b) bs 0.

(** Padding: a 1 bit, zeros up to 56 modulo 64, then the bit length on
    eight bytes. *)
Definition pad (msg : list Z) : list Z :=
  let len := Z.of_nat (length msg) in
  msg ++ [0x80] ++ repeat 0 (Z.to_nat ((55 - len) mod 64))
      ++ bigEndian 8 ((8 * len) mod 2 ^ 64).

Fixpoint chunks {A} (n : nat) (size : nat) (l : list A) : list (list A) :=
  match n with
  | O => []
  | S n' => take size l :: chunks n' size (drop size l)
  end.

(** The message schedule: the 64 words of a block, newest first while it is
    being extended. *)
Fixpoint extend (n : nat) (wrev : list Z) : list Z :=
  match n with
  | O => wrev
  | S n' =>
      let w := add32 (add32 (smallSigma1 (nth 1 wrev 0)) (nth 6 wrev 0))
                     (add32 (smallSigma0 (nth 14 wrev 0)) (nth 15 wrev 0)) in
      extend n' (w :: wrev)
  end.

Definition schedule (block : list Z) : list Z :=
  rev (extend 48 (rev (map wordOfBytes (chunks 16 4 block)))).

Definition round (st : list Z) (kw : Z * Z) : list Z :=
  match st with
  | [a; b; c; d; e; f; g; h] =>
      let t1 := add32 (add32 (add32 h (bigSigma1 e)) (add32 (Ch e f g) (fst kw))) (snd kw) in
      let t2 := add32 (bigSigma0 a) (Maj a b c) in
      [add32 t1 t2; a; b; c; add32 d t1; e; f; g]
  | _ => st
  end.

Definition compress (h : list Z) (block : list Z) : list Z :=
  let st := fold_left round (combine K (schedule block)) h in
  map (fun p => add32 (fst p) (snd p)) (combine h st).

(** [sha256.Sum256]: the 32 bytes of the digest. *)
Definition sum256 (data : list Byte.byte) : list Byte.byte :=
  let padded := pad (map byteToZ data) in
  let blocks := chunks (length padded / 64) 64 padded in
  let h := fold_left compress blocks H0 in
  map byteOfZ (concat (map (bigEndian 4) h)).

(** [hex.EncodeToString]: two lower-case hexadecimal digits per byte. *)
Definition hexDigit (d : Z) : ascii :=
  if d <? 10 then ascii_of_nat (48 + Z.to_nat d)
  else ascii_of_nat (87 + Z.to_nat d).

Fixpoint EncodeToString (bs : list Byte.byte) : string :=
  match bs with
  | [] => EmptyString
  | b :: bs' =>
      String (hexDigit (byteToZ b / 16))
        (String (hexDigit (byteToZ b mod 16)) (EncodeToString bs'))
  end.

(** A lower-case hexadecimal digit, and its value. *)
Definition isLowerHex (c : ascii) : bool :=
  let n := nat_of_ascii c in
  ((48 <=? n) && (n <=? 57))%nat || ((97 <=? n) && (n <=? 102))%nat.

Definition unhex (c : ascii) : Z :=
  let n := Z.of_nat (nat_of_ascii c) in
  if n <? 58 then n - 48 else n - 87.

Fixpoint allChars (P : ascii -> bool) (s : string) : bool :=
  match s with
  | EmptyString => true
  | String c s' => P c && allChars P s'
  end.

End Sha256.

(* ===================================================================== *)
(** * Go errors, and the part of package context that the code observes *)
(* ===================================================================== *)

Module GoError.

(** An [error] value: the two sentinels of package context, an error that
    is only a message ([errors.New]), or an error that wraps another one and
    prints as a prefix followed by the inner message ([fmt.Errorf] with the
    verb w, [storage.StorageError]). *)
Inductive error : Type :=
  | Canceled
  | DeadlineExceeded
  | New (msg : string)
  | Wrap (prefix : string) (inner : error).

(** [err.Error()]. *)
Fixpoint Error (e : error) : string :=
  match e with
  | Canceled => "context canceled"
  | DeadlineExceeded => "context deadline exceeded"
  | New msg => msg
  | Wrap prefix inner => prefix +:+ Error inner
  end.

(** [errors.Is(err, context.Canceled)]: follows the chain of wrapped errors. *)
Fixpoint IsCanceled (e : error) : bool :=
  match e with
  | Canceled => true
  | Wrap _ inner => IsCanceled inner
  | _ => false
  end.

(** [errors.Is(err, context.DeadlineExceeded)]. *)
Fixpoint IsDeadlineExceeded (e : error) : bool :=
  match e with
  | DeadlineExceeded => true
  | Wrap _ inner => IsDeadlineExceeded inner
  | _ => false
  end.

(** A Go result pair [(v, err)] of which the caller reads [v] only when
    [err == nil]. *)
Inductive result (A : Type) : Type :=
  | Ok (a : A)
  | Fail (e : error).
Arguments Ok {A} a.
Arguments Fail {A} e.

(** A [context.Context] as the code observes it: every [select] on
    [ctx.Done()] is one observation, numbered from 0 in program order;
    [doneAt k] tells whether the k-th observation finds the context done
    (for a timed wait: done before the timer fires), and [ctxErr] is what
    [ctx.Err()] then returns. *)
Record Context : Type := {
  ctxErr : error;
  doneAt : nat -> bool
}.

(** [context.Background()]: never done. *)
Definition Background : Context :=
  {| ctxErr := Canceled; doneAt := fun _ => false |}.

End GoError.

(* ===================================================================== *)
(** * package storage *)
(* ===================================================================== *)

Module Storage.
Import GoError.

(** The three methods of [storage.Backend] that the validator calls. *)
Record Backend : Type := {
  Exists : string -> result bool;
  Size : string -> result Z;
  Read : string -> result (list Byte.byte)
}.

(** [storage.ErrNotFound]: a StorageError with Op "not found", an
    empty path and [io.EOF] inside. *)
Definition ErrNotFound : error := Wrap "not found : " (New "EOF").

(** A backend that holds [files] and never fails: the behaviour of
    [LocalStorage] on a healthy directory. *)
Definition memBackend (files : gmap string (list Byte.byte)) : Backend :=
  {| Exists := fun path => Ok (bool_decide (is_Some (files !! path)));
     Size := fun path =>
       match files !! path with
       | Some data => Ok (Z.of_nat (length data))
       | None => Fail ErrNotFound
       end;
     Read := fun path =>
       match files !! path with
       | Some data => Ok data
       | None => Fail ErrNotFound
       end |}.

(** [Write] on that backend. *)
Definition memWrite (files : gmap string (list Byte.byte)) (path : string)
  (data : list Byte.byte) : gmap string (list Byte.byte) :=
  <[path := data]> files.

End Storage.

(* ===================================================================== *)
(** * package postgres: checksums *)
(* ===================================================================== *)

Module Checksum.
Import GoError Sha256.

(** What opening and reading a local file gives. *)
Inductive LocalFile : Type :=
  | Readable (content : list Byte.byte)
  | OpenError (e : error)
  | ReadError (e : error).

(** [postgres.CalculateChecksum(filepath)], on the file found at that path. *)
Definition CalculateChecksum (f : LocalFile) : result string :=
  match f with
  | OpenError e => Fail (Wrap "failed to open file for checksum: " e)
  | ReadError e => Fail (Wrap "failed to calculate checksum: " e)
  | Readable content => Ok ("sha256:" +:+ EncodeToString (sum256 content))
  end.

End Checksum.

(* ===================================================================== *)
(** * package backup: the integrity validator *)
(* ===================================================================== *)

Module Validator.
Import GoError Storage Checksum Postgres Decimal.

Inductive StorageCall : Type :=
  | CallExists (path : string)
  | CallSize (path : string)
  | CallRead (path : string).

(** A computation that calls the storage backend: the calls made, in order,
    and either a value or the error that ended the computation. *)
Definition IO (A : Type) : Type := list StorageCall * result A.

Definition ret {A} (a : A) : IO A := ([], Ok a).
Definition bind {A B} (m : IO A) (k : A -> IO B) : IO B :=
  match m with
  | (calls, Ok a) => let '(calls', r) := k a in (calls ++ calls', r)
  | (calls, Fail e) => (calls, Fail e)
  end.
Notation "'let*' x ':=' m 'in' k" := (bind m (fun x => k))
  (at level 10, x name, m at level 100, k at level 200).

(** [v, err := call; if err != nil { return nil, fmt.Errorf(prefix+"%w", err) }]. *)
Definition orWrap {A} (prefix : string) (call : StorageCall) (r : result A) : IO A :=
  match r with
  | Ok a => ([call], Ok a)
  | Fail e => ([call], Fail (Wrap prefix e))
  end.

(** What can go wrong with the temporary file of one validation. *)
Inductive TempFault : Type :=
  | NoFault
  | CreateFails (e : error)
  | OpenFails (e : error)
  | ReadFails (e : error).

(** The validator's collaborators: the storage backend and the local disk
    that holds the temporary file. *)
Record World : Type := {
  storage : Backend;
  tempFault : TempFault
}.

(** [createTempFile(reader)]: copies the reader to a fresh temporary file. *)
Definition createTempFile (w : World) (content : list Byte.byte) : result LocalFile :=
  match tempFault w with
  | CreateFails e => Fail e
  | OpenFails e => Ok (OpenError e)
  | ReadFails e => Ok (ReadError e)
  | NoFault => Ok (Readable content)
  end.

Record ValidationResult : Type := {
  BackupID : string;
  Valid : bool;
  FileExists : bool;
  SizeMatch : bool;
  ChecksumOK : bool;
  Errors : list string
}.

(** Field updates on the result. *)
Definition invalidate (msg : string) (r : ValidationResult) : ValidationResult :=
  {| BackupID := BackupID r; Valid := false; FileExists := FileExists r;
     SizeMatch := SizeMatch r; ChecksumOK := ChecksumOK r;
     Errors := Errors r ++ [msg] |}.
Definition setFileExists (b : bool) (r : ValidationResult) : ValidationResult :=
  {| BackupID := BackupID r; Valid := Valid r; FileExists := b;
     SizeMatch := SizeMatch r; ChecksumOK := ChecksumOK r; Errors := Errors r |}.
Definition setSizeMatch (b : bool) (r : ValidationResult) : ValidationResult :=
  {| BackupID := BackupID r; Valid := Valid r; FileExists := FileExists r;
     SizeMatch := b; ChecksumOK := ChecksumOK r; Errors := Errors r |}.
Definition setChecksumOK (b : bool) (r : ValidationResult) : ValidationResult :=
  {| BackupID := BackupID r; Valid := Valid r; FileExists := FileExists r;
     SizeMatch := SizeMatch r; ChecksumOK := b; Errors := Errors r |}.

(** The loop that looks for the data file: the first entry of [files] that
    is not the metadata key, or the empty string when there is none. *)
Fixpoint findDataFile (metaKey : string) (files : list string) : string :=
  match files with
  | [] => EmptyString
  | f :: rest => if String.eqb f metaKey then findDataFile metaKey rest else f
  end.

Definition sizeMismatchMsg (expected got : Z) : string :=
  "size mismatch: expected " +:+ itoa expected +:+ ", got " +:+ itoa got.

(** [Validator.Validate].  A failed checksum computation is only logged. *)
Definition Validate (w : World) (metadata : BackupMetadata) : IO ValidationResult :=
  let result :=
    {| BackupID := ID metadata; Valid := true; FileExists := false;
       SizeMatch := false; ChecksumOK := false; Errors := [] |} in
  if (length (Files metadata) =? 0)%nat
  then ret (invalidate "no files listed in metadata" result)
  else
    let backupFile := findDataFile (ID metadata +:+ ".meta.json") (Files metadata) in
    if String.eqb backupFile EmptyString
    then ret (invalidate "backup file not found in metadata" result)
    else
      let* exists_ := orWrap "failed to check file existence: " (CallExists backupFile)
                        (Exists (storage w) backupFile) in
      let result := setFileExists exists_ result in
      if negb exists_
      then ret (invalidate "backup file does not exist" result)
      else
        let* size := orWrap "failed to get file size: " (CallSize backupFile)
                       (Size (storage w) backupFile) in
        let result := setSizeMatch (size =? CompressedSize (Backup metadata)) result in
        let result :=
          if negb (SizeMatch result)
          then invalidate (sizeMismatchMsg (CompressedSize (Backup metadata)) size) result
          else result in
        if negb (String.eqb (Checksum (Backup metadata)) EmptyString)
        then
          let* reader := orWrap "failed to read backup file: " (CallRead backupFile)
                           (Read (storage w) backupFile) in
          match createTempFile w reader with
          | Fail e => ([], Fail (Wrap "failed to create temp file: " e))
          | Ok tmpFile =>
              match CalculateChecksum tmpFile with
              | Fail _ => ret result
              | Ok checksum =>
                  let result :=
                    setChecksumOK (String.eqb checksum (Checksum (Backup metadata))) result in
                  if negb (ChecksumOK result)
                  then ret (invalidate "checksum mismatch" result)
                  else ret result
              end
          end
        else ret (setChecksumOK true result).

(** ** Vocabulary of the properties *)

Definition metaKey (md : BackupMetadata) : string := ID md +:+ ".meta.json".

(** The canonical data file of a record, or the empty string. *)
Definition dataFile (md : BackupMetadata) : string :=
  findDataFile (metaKey md) (Files md).

(** The checksum check as the specification words it: not performed when no
    checksum is recorded or when the checksum of the temporary file cannot
    be computed; otherwise its verdict. *)
Definition checksumVerdict (w : World) (md : BackupMetadata)
  (content : list Byte.byte) : option bool :=
  if String.eqb (Checksum (Backup md)) EmptyString then None
  else match tempFault w with
       | NoFault =>
           Some (String.eqb ("sha256:" +:+ Sha256.EncodeToString (Sha256.sum256 content))
                            (Checksum (Backup md)))
       | _ => None
       end.

(** A healthy storage that holds [files], and a healthy local disk. *)
Definition healthyStore (files : gmap string (list Byte.byte)) : World :=
  {| storage := memBackend files; tempFault := NoFault |}.

End Validator.

(* ===================================================================== *)
(** * package backup: the retry wrapper *)
(* ===================================================================== *)

Module Retry.
Import GoError.

(** ** [isRetryable] and its string helpers *)

Definition lowerByte (c : ascii) : ascii :=
  let n := nat_of_ascii c in
  if (65 <=? n)%nat && (n <=? 90)%nat then ascii_of_nat (n + 32) else c.

(** The loop of [equalFoldSlice] over two strings of the same length. *)
Fixpoint equalFoldLoop (a b : string) : bool :=
  match a, b with
  | String ca a', String cb b' =>
      if Ascii.eqb (lowerByte ca) (lowerByte cb) then equalFoldLoop a' b' else false
  | _, _ => true
  end.

Definition equalFoldSlice (a b : string) : bool :=
  if negb (String.length a =? String.length b)%nat then false
  else equalFoldLoop a b.

(** The loop of [containsLower]: [n] start positions are left and [s] is
    the text from the current position on. *)
Fixpoint containsLowerLoop (n : nat) (s substr : string) : bool :=
  match n with
  | O => false
  | S n' =>
      if equalFoldSlice (String.substring 0 (String.length substr) s) substr then true
      else match s with
           | EmptyString => false
           | String _ s' => containsLowerLoop n' s' substr
           end
  end.

(** [for i := 0; i <= len(s)-len(substr); i++]: no iteration when [substr]
    is longer than [s]. *)
Definition containsLower (s substr : string) : bool :=
  if (String.length s <? String.length substr)%nat then false
  else containsLowerLoop (S (String.length s - String.length substr)) s substr.

Definition contains (s substr : string) : bool :=
  (String.length substr <=? String.length s)%nat
  && (String.eqb s substr
      || ((0 <? String.length s)%nat && containsLower s substr)).

Definition nonRetryableErrors : list string :=
  [ "permission denied"; "access denied"; "authentication failed";
    "invalid password"; "database does not exist"; "role does not exist" ].

(** [isRetryable(err)]; [None] is the nil error. *)
Definition isRetryable (err : option error) : bool :=
  match err with
  | None => false
  | Some e =>
      if IsCanceled e || IsDeadlineExceeded e then false
      else negb (existsb (contains (Error e)) nonRetryableErrors)
  end.

(** ** [WithRetry] *)

(** What a run of [WithRetry] does, in order: a call of the operation, or a
    timed wait that ran to its end. *)
Inductive Event : Type :=
  | EvCall
  | EvSleep (wait : Z).

Section WithRetry.

(** [T] is the result type of the operation, [S] the state that the
    operation (a closure) reads and writes.  [float64] and the one
    floating-point expression of the source,
    [time.Duration(float64(wait) * cfg.Multiplier)], are kept abstract. *)
Context {T S float64 : Type}.
Variable scaleDuration : Z -> float64 -> Z.
Variable zero : T.

Record RetryConfig : Type := {
  MaxAttempts : Z;
  InitialWait : Z;
  MaxWait : Z;
  Multiplier : float64
}.

(** The state of a run: the operation's state, the number of observations
    of [ctx.Done()] made so far, and the events so far. *)
Record Run : Type := {
  opState : S;
  selects : nat;
  events : list Event
}.

Definition observe (r : Run) : Run :=
  {| opState := opState r; selects := Datatypes.S (selects r); events := events r |}.
Definition record (ev : Event) (s : S) (r : Run) : Run :=
  {| opState := s; selects := selects r; events := events r ++ [ev] |}.

Variable ctx : Context.
Variable cfg : RetryConfig.
Variable fn : S -> (T * option error) * S.

(** The [for] loop.  [remaining] is the number of values that [attempt]
    still has to take, [MaxAttempts - attempt + 1] or 0 when that is
    negative: the loop condition [attempt <= cfg.MaxAttempts] holds exactly
    when [remaining] is not 0. *)
Fixpoint retryLoop (remaining : nat) (attempt wait : Z) (lastErr : option error)
  (r : Run) : (T * option error) * Run :=
  match remaining with
  | O => ((zero, lastErr), r)
  | Datatypes.S remaining' =>
      if doneAt ctx (selects r) then ((zero, Some (ctxErr ctx)), observe r)
      else
        let r := observe r in
        let '((result, err), s') := fn (opState r) in
        let r := record EvCall s' r in
        match err with
        | None => ((result, None), r)
        | Some e =>
            if negb (isRetryable (Some e)) then ((zero, Some e), r)
            else if attempt <? MaxAttempts cfg then
              if doneAt ctx (selects r) then ((zero, Some (ctxErr ctx)), observe r)
              else
                let r := record (EvSleep wait) (opState r) (observe r) in
                let wait := scaleDuration wait (Multiplier cfg) in
                let wait := if MaxWait cfg <? wait then MaxWait cfg else wait in
                retryLoop remaining' (attempt + 1) wait (Some e) r
            else retryLoop remaining' (attempt + 1) wait (Some e) r
        end
  end.

Definition WithRetry (s0 : S) : (T * option error) * Run :=
  retryLoop (Z.to_nat (MaxAttempts cfg)) 1 (InitialWait cfg) None
    {| opState := s0; selects := 0; events := [] |}.

End WithRetry.

Section RetryVocabulary.

Context {T S float64 : Type}.
Variable scaleDuration : Z -> float64 -> Z.
Variable cfg : RetryConfig (float64 := float64).
Variable fn : S -> (T * option error) * S.

(** The wait that follows a wait of [w]: scaled, then capped. *)
Definition nextWait (w : Z) : Z :=
  let w' := scaleDuration w (Multiplier cfg) in
  if MaxWait cfg <? w' then MaxWait cfg else w'.

(** The state of the operation after [n] calls; the result and the error
    that a call in state [s] returns. *)
Definition opStateAfter (n : nat) (s : S) : S :=
  Nat.iter n (fun s => snd (fn s)) s.
Definition errorOf (s : S) : option error := snd (fst (fn s)).
Definition resultOf (s : S) : T := fst (fst (fn s)).

(** A call in state [s] fails with an error that is worth a retry. *)
Definition failsRetryably (s : S) : Prop :=
  exists e, errorOf s = Some e /\ isRetryable (Some e) = true.

(** [k] failed attempts, each followed by its wait. *)
Fixpoint failedRounds (k : nat) (wait : Z) : list Event :=
  match k with
  | O => []
  | Datatypes.S k' => EvCall :: EvSleep wait :: failedRounds k' (nextWait wait)
  end.

Definition lastErrAfter (k : nat) (s : S) (lastErr : option error) : option error :=
  match k with
  | O => lastErr
  | Datatypes.S k' => errorOf (opStateAfter k' s)
  end.

End RetryVocabulary.

(** Case folding of a whole string, and: [sub] occurs in [s] when letter
    case is ignored. *)
Fixpoint lowerString (s : string) : string :=
  match s with
  | EmptyString => EmptyString
  | String c s' => String (lowerByte c) (lowerString s')
  end.

Definition containsFold (s sub : string) : Prop :=
  exists pre mid post, s = pre +:+ mid +:+ post /\ lowerString mid = lowerString sub.

(** The number of calls of the operation and the completed waits of a run. *)
Definition isCall (ev : Event) : bool :=
  match ev with EvCall => true | EvSleep _ => false end.
Definition calls (evs : list Event) : nat := length (List.filter isCall evs).
Fixpoint waits (evs : list Event) : list Z :=
  match evs with
  | [] => []
  | EvCall :: evs' => waits evs'
  | EvSleep d :: evs' => d :: waits evs'
  end.

(** ** The classes of errors, in the words of the specification *)

(** [e] is the error [target] or wraps it, at any depth. *)
Inductive wraps (target : error) : error -> Prop :=
  | wraps_self : wraps target target
  | wraps_inner prefix inner : wraps target inner -> wraps target (Wrap prefix inner).

(** A cancellation signal and a deadline signal. *)
Definition cancellationError (e : error) : Prop := wraps Canceled e.
Definition deadlineError (e : error) : Prop := wraps DeadlineExceeded e.

(** The phrases that indicate a credential, a permission and a
    "does not exist" condition. *)
Definition credentialIndications : list string :=
  ["authentication failed"; "invalid password"].
Definition permissionIndications : list string :=
  ["permission denied"; "access denied"].
Definition missingIndications : list string :=
  ["database does not exist"; "role does not exist"].

(** Two bytes that differ at most in letter case: the same byte, or an
    ASCII capital letter (65 to 90) and its small letter (97 to 122). *)
Definition sameLetter (c d : ascii) : Prop :=
  c = d
  \/ exists k, (k < 26)%nat
       /\ ((nat_of_ascii c = 65 + k /\ nat_of_ascii d = 97 + k)%nat
           \/ (nat_of_ascii c = 97 + k /\ nat_of_ascii d = 65 + k)%nat).

(** Two texts of the same length that differ at most in letter case. *)
Inductive sameText : string -> string -> Prop :=
  | sameText_empty : sameText EmptyString EmptyString
  | sameText_byte c d s t :
      sameLetter c d -> sameText s t -> sameText (String c s) (String d t).

(** [s] contains [sub], letter case ignored. *)
Definition containsIgnoringCase (s sub : string) : Prop :=
  exists pre mid post, s = pre +:+ mid +:+ post /\ sameText mid sub.

(** The message of [e] contains one of [phrases], letter case ignored. *)
Definition indicates (phrases : list string) (e : error) : Prop :=
  exists phrase, In phrase phrases /\ containsIgnoringCase (Error e) phrase.

Definition nonRetryableError (e : error) : Prop :=
  cancellationError e \/ deadlineError e
  \/ indicates credentialIndications e \/ indicates permissionIndications e
  \/ indicates missingIndications e.

Definition retryableError (e : error) : Prop := ~ nonRetryableError e.

(** A call in state [s] fails with an error of the given class. *)
Definition failsWith {T S : Type} (fn : S -> (T * option error) * S)
  (class : error -> Prop) (s : S) : Prop :=
  exists e, errorOf fn s = Some e /\ class e.

(** ** The wait formula of the specification *)

Section WaitFormula.

Context {float64 : Type}.
Variable scaleDuration : Z -> float64 -> Z.
Variable cfg : RetryConfig (float64 := float64).

(** [initialWait * multiplier^(n-1)] capped at [maxWait], for a multiplier
    of value [q]: the wait between attempt [n] and attempt [n+1]. *)
Definition formulaWait (q : Q) (n : nat) : Q :=
  Qmin (inject_Z (InitialWait cfg) * q ^ (Z.of_nat n - 1)) (inject_Z (MaxWait cfg)).

(** Scaling a wait within the cap by the configured multiplier follows the
    product by [q]: a product that is a whole number of nanoseconds not
    above the cap is returned as it is, and a product above the cap is not
    scaled to below the cap. *)
Definition scalesBy (q : Q) : Prop :=
  forall w, 0 <= w <= MaxWait cfg ->
    (forall k, k <= MaxWait cfg -> (inject_Z k == inject_Z w * q)%Q ->
       scaleDuration w (Multiplier cfg) = k)
    /\ ((inject_Z (MaxWait cfg) < inject_Z w * q)%Q ->
        MaxWait cfg <= scaleDuration w (Multiplier cfg)).

(** The uncapped product of the formula for attempt [n] is a whole number
    of nanoseconds, unless it is above the cap. *)
Definition wholeBelowCap (q : Q) (n : nat) : Prop :=
  (inject_Z (InitialWait cfg) * q ^ (Z.of_nat n - 1) <= inject_Z (MaxWait cfg))%Q ->
  exists k, (inject_Z k == inject_Z (InitialWait cfg) * q ^ (Z.of_nat n - 1))%Q.

End WaitFormula.

End Retry.

(* ===================================================================== *)
(** * package strings: prefixes and suffixes *)
(* ===================================================================== *)

Module GoStrings.

(** [strings.HasPrefix(s, prefix)]:
    [len(s) >= len(prefix) && s[:len(prefix)] == prefix]. *)
Definition HasPrefix (s prefix : string) : bool :=
  (String.length prefix <=? String.length s)%nat
  && String.eqb (String.substring 0 (String.length prefix) s) prefix.

(** [strings.HasSuffix(s, suffix)]:
    [len(s) >= len(suffix) && s[len(s)-len(suffix):] == suffix]. *)
Definition HasSuffix (s suffix : string) : bool :=
  (String.length suffix <=? String.length s)%nat
  && String.eqb (String.substring (String.length s - String.length suffix)
                   (String.length suffix) s) suffix.

End GoStrings.

(* ===================================================================== *)
(** * package storage: the prefix test of [LocalStorage.List] *)
(* ===================================================================== *)

Module LocalStorage.

(** [matchPrefix(path, prefix)]:
    [len(path) >= len(prefix) && path[:len(prefix)] == prefix]. *)
Definition matchPrefix (path prefix : string) : bool :=
  (String.length prefix <=? String.length path)%nat
  && String.eqb (String.substring 0 (String.length prefix) path) prefix.

End LocalStorage.

(* ===================================================================== *)
(** * package rotation: the retention date of a record *)
(* ===================================================================== *)

Module RotationPolicy.
Import GoInt GoTime Rotation.

(** [t.AddDate(0, 0, days)]: [time.Date] applied to the date and the clock
    that [t] shows in its location, with [days] added to the day of the
    month, and to the nanoseconds of [t]; [time.Date] accepts a day outside
    the month and normalises it.  The location is one of fixed offset (UTC,
    or a zone without daylight saving between the two dates), and the day
    count is one that [time.Date] handles without overflow. *)
Definition AddDays (t : Time) (days : Z) : Time :=
  let d := Date (Year t) (Month t) (Day t + days)
             (HourOf t) (MinuteOf t) (SecondOf t) (zoneOffset t) in
  {| unixNano := unixNano d + unixNano t mod Second; zoneOffset := zoneOffset t |}.

(** [string(backupType)]. *)
Definition BackupTypeName (backupType : BackupType) : string :=
  match backupType with
  | BackupTypeDaily => "daily"
  | BackupTypeWeekly => "weekly"
  | BackupTypeMonthly => "monthly"
  end.

(** [Policy.CalculateRetentionDate]; the products are taken in [int]. *)
Definition CalculateRetentionDate (p : Policy) (backupTime : Time)
  (backupType : BackupType) : Time :=
  let retentionDays :=
    match backupType with
    | BackupTypeMonthly => wrap64 (KeepMonthly p * 30)
    | BackupTypeWeekly => wrap64 (KeepWeekly p * 7)
    | BackupTypeDaily => KeepDaily p
    end in
  let retentionDays :=
    if (0 <? MaxAgeDays p) && (MaxAgeDays p <? retentionDays)
    then MaxAgeDays p else retentionDays in
  AddDays backupTime retentionDays.

(** [GFSRotator.GetRetentionInfo]. *)
Definition GetRetentionInfo (p : Policy) (backupTime : Time) : Time * string :=
  let primaryType := GetPrimaryType backupTime in
  let keepUntil := CalculateRetentionDate p backupTime primaryType in
  (keepUntil, BackupTypeName primaryType).

(** ** Vocabulary of the properties *)

(** The length of a tier's retention in days, before the max-age clamp. *)
Definition tierDays (p : Policy) (backupType : BackupType) : Z :=
  match backupType with
  | BackupTypeMonthly => KeepMonthly p * 30
  | BackupTypeWeekly => KeepWeekly p * 7
  | BackupTypeDaily => KeepDaily p
  end.

(** The retention in days: that of the tier, cut down to max-age when
    max-age is positive and smaller. *)
Definition retentionDays (p : Policy) (backupType : BackupType) : Z :=
  if 0 <? MaxAgeDays p then Z.min (tierDays p backupType) (MaxAgeDays p)
  else tierDays p backupType.

(** The three quotas and the max-age are between 0 and [bound]. *)
Definition policyWithin (bound : Z) (p : Policy) : Prop :=
  0 <= KeepDaily p <= bound /\ 0 <= KeepWeekly p <= bound
  /\ 0 <= KeepMonthly p <= bound /\ 0 <= MaxAgeDays p <= bound.

(** The day-number round trip on the day [doe] of a 400-year era. *)
Definition civilRoundTrip (doe : Z) : bool :=
  let '(y, m, d) := civil (doe - 719468) in
  daysFromCivil y m d =? doe - 719468.

(** The number of records of [backups] that are at least as new as [b]
    ([b] itself included when it is one of them). *)
Definition notOlderCount (b : Postgres.BackupMetadata)
  (backups : list Postgres.BackupMetadata) : nat :=
  length (List.filter (fun b' => instant b <=? instant b') backups).

End RotationPolicy.

(* ===================================================================== *)
(** * package postgres: building a record *)
(* ===================================================================== *)

Module Metadata.
Import GoTime Postgres.

(** The zero [time.Time]: 0001-01-01 00:00:00 UTC. *)
Definition zeroTime : Time := Date 1 1 1 0 0 0 0.

(** [NewBackupMetadata]; [now] is the reading of [time.Now()]. *)
Definition NewBackupMetadata (now : Time) (id dbName dbHost dbVersion : string)
  : BackupMetadata :=
  {| ID := id;
     Timestamp := UTC now;
     Type_ := "daily";
     Database := {| Name := dbName; Host := dbHost; Version := dbVersion |};
     Backup := {| Method := "pg_dump"; Format := "custom"; Compression := "gzip";
                  SizeBytes := 0; CompressedSize := 0; Checksum := EmptyString |};
     Files := [];
     Retention := {| KeepUntil := zeroTime; RetentionPolicy := EmptyString |} |}.

(** [m.SetBackupInfo(sizeBytes, compressedSize, duration, checksum)]; the
    duration goes to the field that the model leaves out. *)
Definition SetBackupInfo (sizeBytes compressedSize duration : Z) (checksum : string)
  (m : BackupMetadata) : BackupMetadata :=
  {| ID := ID m; Timestamp := Timestamp m; Type_ := Type_ m; Database := Database m;
     Backup := {| Method := Method (Backup m); Format := Format (Backup m);
                  Compression := Compression (Backup m);
                  SizeBytes := sizeBytes; CompressedSize := compressedSize;
                  Checksum := checksum |};
     Files := Files m; Retention := Retention m |}.

(** [m.SetRetention(keepUntil, policy)]. *)
Definition SetRetention (keepUntil : Time) (policy : string) (m : BackupMetadata)
  : BackupMetadata :=
  {| ID := ID m; Timestamp := Timestamp m; Type_ := Type_ m; Database := Database m;
     Backup := Backup m; Files := Files m;
     Retention := {| KeepUntil := keepUntil; RetentionPolicy := policy |} |}.

(** [m.AddFile(filename)]. *)
Definition AddFile (filename : string) (m : BackupMetadata) : BackupMetadata :=
  {| ID := ID m; Timestamp := Timestamp m; Type_ := Type_ m; Database := Database m;
     Backup := Backup m; Files := Files m ++ [filename]; Retention := Retention m |}.

(** The assignments [m.Backup.Method = method], [m.Backup.Compression =
    compression] and [m.Type = type]. *)
Definition setMethod (method : string) (m : BackupMetadata) : BackupMetadata :=
  {| ID := ID m; Timestamp := Timestamp m; Type_ := Type_ m; Database := Database m;
     Backup := {| Method := method; Format := Format (Backup m);
                  Compression := Compression (Backup m);
                  SizeBytes := SizeBytes (Backup m);
                  CompressedSize := CompressedSize (Backup m);
                  Checksum := Checksum (Backup m) |};
     Files := Files m; Retention := Retention m |}.
Definition setCompression (compression : string) (m : BackupMetadata) : BackupMetadata :=
  {| ID := ID m; Timestamp := Timestamp m; Type_ := Type_ m; Database := Database m;
     Backup := {| Method := Method (Backup m); Format := Format (Backup m);
                  Compression := compression;
                  SizeBytes := SizeBytes (Backup m);
                  CompressedSize := CompressedSize (Backup m);
                  Checksum := Checksum (Backup m) |};
     Files := Files m; Retention := Retention m |}.
Definition setType (type : string) (m : BackupMetadata) : BackupMetadata :=
  {| ID := ID m; Timestamp := Timestamp m; Type_ := type; Database := Database m;
     Backup := Backup m; Files := Files m; Retention := Retention m |}.

End Metadata.

(* ===================================================================== *)
(** * package config: the database type *)
(* ===================================================================== *)

Module Config.
Import GoError.

(** The fields of [Config] that [validate], [IsSQLite], [IsPostgres] and
    [Engine.Run] read. *)
Record DatabaseConfig : Type := {
  Type_ : string;
  Host : string;
  Name : string;
  URL : string;
  Path : string
}.

Record S3Config : Type := {
  Bucket : string;
  AccessKey : string;
  SecretKey : string
}.

Record StorageConfig : Type := {
  Backend : string;
  S3 : S3Config
}.

Record BackupConfig : Type := {
  VerifyAfterBackup : bool
}.

Record Config : Type := {
  Database : DatabaseConfig;
  Storage : StorageConfig;
  Compression : string;
  Backup : BackupConfig
}.

Section ToLower.

(** [strings.ToLower], which maps Unicode letters, is kept abstract. *)
Variable ToLower : string -> string.

(** [Config.validate]; [None] is the nil error. *)
Definition validate (c : Config) : option error :=
  let dbType := ToLower (Type_ (Database c)) in
  let dbType := if String.eqb dbType EmptyString then "postgres" else dbType in
  let databaseError :=
    if String.eqb dbType "postgres" || String.eqb dbType "postgresql"
       || String.eqb dbType "pg"
    then
      if String.eqb (URL (Database c)) EmptyString
         && String.eqb (Name (Database c)) EmptyString
      then Some (New "database name or URL is required for PostgreSQL")
      else None
    else if String.eqb dbType "sqlite" || String.eqb dbType "sqlite3"
    then
      if String.eqb (Path (Database c)) EmptyString
         && String.eqb (Name (Database c)) EmptyString
      then Some (New "database path is required for SQLite")
      else None
    else Some (New ("unsupported database type: " +:+ Type_ (Database c)
                    +:+ " (supported: postgres, sqlite)")) in
  match databaseError with
  | Some e => Some e
  | None =>
      if negb (String.eqb (Backend (Storage c)) "local")
         && negb (String.eqb (Backend (Storage c)) "s3")
      then Some (New "storage backend must be 'local' or 's3'")
      else
        let s3Error :=
          if String.eqb (Backend (Storage c)) "s3"
          then
            if String.eqb (Bucket (S3 (Storage c))) EmptyString
            then Some (New "S3 bucket is required when using S3 storage")
            else if String.eqb (AccessKey (S3 (Storage c))) EmptyString
                    || String.eqb (SecretKey (S3 (Storage c))) EmptyString
            then Some (New "S3 access key and secret key are required")
            else None
          else None in
        match s3Error with
        | Some e => Some e
        | None =>
            if negb (String.eqb (Compression c) "gzip")
               && negb (String.eqb (Compression c) "zstd")
               && negb (String.eqb (Compression c) "none")
            then Some (New "compression must be 'gzip', 'zstd', or 'none'")
            else None
        end
  end.

(** [Config.IsSQLite] and [Config.IsPostgres]. *)
Definition IsSQLite (c : Config) : bool :=
  let t := ToLower (Type_ (Database c)) in
  String.eqb t "sqlite" || String.eqb t "sqlite3".

Definition IsPostgres (c : Config) : bool :=
  let t := ToLower (Type_ (Database c)) in
  String.eqb t EmptyString || String.eqb t "postgres" || String.eqb t "postgresql"
  || String.eqb t "pg".

End ToLower.

End Config.

(* ===================================================================== *)
(** * package database: the choice of the driver *)
(* ===================================================================== *)

Module Database.
Import GoError.

(** What the switch of [NewDriver] on [cfg.Type] selects: the constructor
    of one of the two drivers, or the error of the default case.  The
    constructors themselves are not modelled. *)
Inductive DriverChoice : Type :=
  | PostgresDriver
  | SQLiteDriver
  | Unsupported (e : error).

Definition NewDriver (type : string) : DriverChoice :=
  if String.eqb type "postgres" || String.eqb type "postgresql"
     || String.eqb type "pg" || String.eqb type EmptyString
  then PostgresDriver
  else if String.eqb type "sqlite" || String.eqb type "sqlite3"
  then SQLiteDriver
  else Unsupported (New ("unsupported database type: " +:+ type)).

End Database.

(* ===================================================================== *)
(** * package backup: the restore check *)
(* ===================================================================== *)

Module RestoreCheck.
Import GoError GoStrings Storage Checksum Postgres Validator.

(** The loop of [Validator.findBackupFile] over [metadata.Files]. *)
Fixpoint firstDataFile (files : list string) : string :=
  match files with
  | [] => EmptyString
  | f :: rest => if negb (HasSuffix f ".meta.json") then f else firstDataFile rest
  end.

Definition findBackupFile (metadata : BackupMetadata) : string :=
  firstDataFile (Files metadata).

Section VerifyRestoreIntegrity.

(** [strings.ToLower] and the two restore procedures, which run external
    programs on the temporary file, are kept abstract: a procedure gets
    the temporary file and the flag [compressed], and returns its error
    ([None] is nil). *)
Variable ToLower : string -> string.
Variable verifySQLiteRestore : LocalFile -> bool -> option error.
Variable verifyPostgresRestore : LocalFile -> bool -> option error.

(** [Validator.VerifyRestoreIntegrity], for a validator of database type
    [dbType]: the storage calls made, and the error returned. *)
Definition VerifyRestoreIntegrity (w : World) (dbType : string)
  (metadata : BackupMetadata) : list StorageCall * option error :=
  let backupFile := findBackupFile metadata in
  if String.eqb backupFile EmptyString
  then ([], Some (New "no backup file found in metadata"))
  else
    match Read (storage w) backupFile with
    | Fail e => ([CallRead backupFile], Some (Wrap "failed to read backup: " e))
    | Ok reader =>
        match createTempFile w reader with
        | Fail e => ([CallRead backupFile], Some e)
        | Ok tmpFile =>
            let compressed := HasSuffix backupFile ".gz" in
            let t := ToLower dbType in
            ([CallRead backupFile],
             if String.eqb t "sqlite" || String.eqb t "sqlite3"
             then verifySQLiteRestore tmpFile compressed
             else if String.eqb t "postgres" || String.eqb t "postgresql"
                     || String.eqb t "pg" || String.eqb t EmptyString
             then verifyPostgresRestore tmpFile compressed
             else Some (New ("unsupported database type: " +:+ dbType)))
        end
    end.

End VerifyRestoreIntegrity.

End RestoreCheck.

(* ===================================================================== *)
(** * package backup: the catalogue of backups and its clean-up *)
(* ===================================================================== *)

Module Catalog.
Import GoError GoTime GoStrings Postgres Rotation.

(** [storage.FileInfo]. *)
Record FileInfo : Type := {
  Path : string;
  Size : Z;
  LastModified : Time;
  IsDir : bool
}.

Section Engine.

(** [St] is the state of the storage backend.  The engine calls three of
    the backend's methods here: [List] and [Read], which leave the state as
    it is, and [Delete].  [Read] gives a reader, and the reader gives its
    content to [io.ReadAll] or fails.  [json.Unmarshal] into a record is
    kept abstract. *)
Context {St : Type}.
Variable List : St -> string -> result (list FileInfo).
Variable Read : St -> string -> result (result (list Byte.byte)).
Variable Delete : St -> string -> option error * St.
Variable Unmarshal : list Byte.byte -> result BackupMetadata.

(** [postgres.ParseMetadata]. *)
Definition ParseMetadata (data : list Byte.byte) : result BackupMetadata :=
  match Unmarshal data with
  | Fail e => Fail (Wrap "failed to parse metadata: " e)
  | Ok meta => Ok meta
  end.

(** One iteration of the loop of [Engine.ListBackups]: the record to
    append, if any. *)
Definition listStep (st : St) (file : FileInfo) : option BackupMetadata :=
  if negb (HasSuffix (Path file) ".meta.json") then None
  else
    match Read st (Path file) with
    | Fail _ => None
    | Ok (Fail _) => None
    | Ok (Ok data) =>
        match ParseMetadata data with
        | Fail _ => None
        | Ok meta => Some meta
        end
    end.

(** [Engine.ListBackups]. *)
Definition ListBackups (st : St) : result (list BackupMetadata) :=
  match List st EmptyString with
  | Fail e => Fail e
  | Ok files =>
      Ok (fold_left (fun backups file =>
                       match listStep st file with
                       | Some meta => backups ++ [meta]
                       | None => backups
                       end) files [])
  end.

(** [Engine.GetBackup]. *)
Definition GetBackup (st : St) (backupID : string) : result BackupMetadata :=
  let metaPath := backupID +:+ ".meta.json" in
  match Read st metaPath with
  | Fail _ => Fail (New ("backup not found: " +:+ backupID))
  | Ok (Fail e) => Fail (Wrap "failed to read metadata: " e)
  | Ok (Ok data) => ParseMetadata data
  end.

(** The state of the loops of [Engine.Cleanup]: the backend, the [Delete]
    calls made so far with the error of each, and [deletedCount]. *)
Record Sweep : Type := {
  backend : St;
  deletes : list (string * option error);
  deletedCount : Z
}.

(** The inner loop: one [Delete] per file of the record; a failure is only
    logged. *)
Definition deleteFile (sw : Sweep) (file : string) : Sweep :=
  let '(err, st') := Delete (backend sw) file in
  {| backend := st'; deletes := deletes sw ++ [(file, err)];
     deletedCount := deletedCount sw |}.

(** The outer loop: the files of the record, then [deletedCount++]. *)
Definition deleteBackup (sw : Sweep) (backup : BackupMetadata) : Sweep :=
  let sw' := fold_left deleteFile (Files backup) sw in
  {| backend := backend sw'; deletes := deletes sw';
     deletedCount := GoInt.wrap64 (deletedCount sw' + 1) |}.

(** [Engine.Cleanup] for an engine of policy [p]; [now] is the reading of
    [time.Now()] inside [DetermineBackupsToDelete].  The result is the pair
    returned and the state of the sweep. *)
Definition Cleanup (p : Policy) (now : Time) (st : St)
  : (Z * option error) * Sweep :=
  let start := {| backend := st; deletes := []; deletedCount := 0 |} in
  match ListBackups st with
  | Fail e => ((0, Some (Wrap "failed to list backups: " e)), start)
  | Ok backups =>
      let toDelete := DetermineBackupsToDelete p now backups in
      let sw := fold_left deleteBackup toDelete start in
      ((deletedCount sw, None), sw)
  end.

(** ** Vocabulary of the properties *)

(** A listing without the entries of key [k], and its metadata objects. *)
Definition withoutKey (k : string) (r : result (list FileInfo))
  : result (list FileInfo) :=
  match r with
  | Ok files => Ok (List.filter (fun f => negb (String.eqb (Path f) k)) files)
  | Fail e => Fail e
  end.

Definition metaEntries (r : result (list FileInfo)) : result (list FileInfo) :=
  match r with
  | Ok files => Ok (List.filter (fun f => HasSuffix (Path f) ".meta.json") files)
  | Fail e => Fail e
  end.

(** Two states of the backend show the same metadata objects. *)
Definition sameCatalog (st st' : St) : Prop :=
  metaEntries (List st' EmptyString) = metaEntries (List st EmptyString)
  /\ forall k, HasSuffix k ".meta.json" = true -> Read st' k = Read st k.

(** A [Delete] leaves the other keys as they are: what [Read] gives for
    them, and their entries in the listing. *)
Definition deleteTouchesOneKey : Prop :=
  (forall st k k', k' <> k -> Read (snd (Delete st k)) k' = Read st k')
  /\ (forall st k,
        withoutKey k (List (snd (Delete st k)) EmptyString)
        = withoutKey k (List st EmptyString)).

End Engine.

End Catalog.

(* ===================================================================== *)
(** * package backup: the record that a run persists *)
(* ===================================================================== *)

Module RunRecord.
Import GoTime Postgres Rotation RotationPolicy Metadata.

Section Run.

Variable ToLower : string -> string.

(** The name of the artifact that [Engine.Run] writes to the storage,
    [filepath.Base(finalFile)]: the backup id, the extension of the dump
    and, for gzip compression, the extension of the compressed file.  The
    backup id holds no path separator. *)
Definition storagePath (cfg : Config.Config) (backupID : string) : string :=
  let dumpFile :=
    if Config.IsSQLite ToLower cfg then backupID +:+ ".sql"
    else backupID +:+ ".dump" in
  if String.eqb (Config.Compression cfg) "gzip" then dumpFile +:+ ".gz"
  else dumpFile.

(** The record that [Engine.Run] builds after the artifact is written, as
    it is when [ToJSON] serialises it.  [startTime] is the reading of
    [time.Now()] at the start of the run and [stamp] the later one inside
    [NewBackupMetadata]; [dbVersion] and [driverType] come from the driver,
    the sizes, the duration and the checksum from the dump. *)
Definition recordOfRun (cfg : Config.Config) (p : Policy) (startTime stamp : Time)
  (dbVersion driverType : string) (size compressedSize duration : Z)
  (checksum : string) : BackupMetadata :=
  let backupID := GenerateBackupID startTime in
  let dbName := Config.Name (Config.Database cfg) in
  let dbName := if String.eqb dbName EmptyString
                then Config.Path (Config.Database cfg) else dbName in
  let dbHost := Config.Host (Config.Database cfg) in
  let dbHost := if Config.IsSQLite ToLower cfg then "local" else dbHost in
  let metadata := NewBackupMetadata stamp backupID dbName dbHost dbVersion in
  let metadata := setMethod driverType metadata in
  let metadata := setCompression (Config.Compression cfg) metadata in
  let metadata := SetBackupInfo size compressedSize duration checksum metadata in
  let '(keepUntil, policy) := GetRetentionInfo p startTime in
  let metadata := SetRetention keepUntil policy metadata in
  let metadata := setType policy metadata in
  AddFile (storagePath cfg backupID) metadata.

(** The record after the metadata object is written: [AddFile(metaPath)]
    comes after the serialisation. *)
Definition recordAfterWrite (metadata : BackupMetadata) : BackupMetadata :=
  AddFile (ID metadata +:+ ".meta.json") metadata.

End Run.

End RunRecord.

(* ===================================================================== *)
(** * Concrete inputs: the records, stores and operations of the tests *)
(* ===================================================================== *)

Module Samples.
Import GoTime Postgres Rotation GoError Storage Validator Retry.

Definition noon (y m d : Z) : Time := Date y m d 12 0 0 0.

(** A record with the given id and timestamp. *)
Definition sample (id : string) (t : Time) : BackupMetadata :=
  {| ID := id; Timestamp := t; Type_ := "daily";
     Database := {| Name := "app"; Host := "localhost"; Version := "16.2" |};
     Backup := {| Method := "pg_dump"; Format := "custom"; Compression := "gzip";
                  SizeBytes := 0; CompressedSize := 0; Checksum := EmptyString |};
     Files := [id +:+ ".dump.gz"; id +:+ ".meta.json"];
     Retention := {| KeepUntil := t; RetentionPolicy := "daily" |} |}.

Definition feb1 : Time := noon 2024 2 1.

(** Four week days of January 2024, not in order. *)
Definition weekdays : list BackupMetadata :=
  [ sample "wed" (noon 2024 1 17); sample "mon" (noon 2024 1 15);
    sample "thu" (noon 2024 1 18); sample "tue" (noon 2024 1 16) ].

(** Two runs that start within the same second of Tuesday 2024-01-16, each
    with the id that [GenerateBackupID] gives it. *)
Definition firstRun : Time :=
  {| unixNano := unixNano (noon 2024 1 16) + 100000000; zoneOffset := 0 |}.
Definition secondRun : Time :=
  {| unixNano := unixNano (noon 2024 1 16) + 900000000; zoneOffset := 0 |}.
Definition sameSecond : list BackupMetadata :=
  [ sample (GenerateBackupID firstRun) firstRun;
    sample (GenerateBackupID secondRun) secondRun ].

(** Three Sundays; 2024-09-01 is also the first day of its month. *)
Definition sep01 : BackupMetadata := sample "sep01" (noon 2024 9 1).
Definition sundays : list BackupMetadata :=
  [ sample "aug25" (noon 2024 8 25); sample "sep08" (noon 2024 9 8); sep01 ].

(** The records of the max-age test: one day and thirty days before the
    first of February. *)
Definition recentBackup : BackupMetadata := sample "backup-recent" (noon 2024 1 31).
Definition oldBackup : BackupMetadata := sample "backup-old" (noon 2024 1 2).
Definition jan30 : BackupMetadata := sample "jan30" (noon 2024 1 30).

(** The artifact of the validator tests. *)
Definition content : list Byte.byte := String.list_byte_of_string "backup content".

Definition recordOf (files : list string) (size : Z) (checksum : string)
  : BackupMetadata :=
  {| ID := "backup-001"; Timestamp := noon 2024 1 15; Type_ := "daily";
     Database := {| Name := "app"; Host := "localhost"; Version := "16.2" |};
     Backup := {| Method := "pg_dump"; Format := "custom"; Compression := "gzip";
                  SizeBytes := 4096; CompressedSize := size; Checksum := checksum |};
     Files := files;
     Retention := {| KeepUntil := noon 2024 1 22; RetentionPolicy := "daily" |} |}.

Definition bothFiles : list string := ["backup-001.dump.gz"; "backup-001.meta.json"].

Definition goodRecord : BackupMetadata :=
  recordOf bothFiles 14
    "sha256:c09d4474788f8f4d3b605a5c772f31e89c018f45c371196067a48cca9f462087".
Definition wrongSizeAndSum : BackupMetadata :=
  recordOf bothFiles 1000
    "sha256:650565635eb178dc69fb85bbca55ca83295abab48a27a577b5be689385024a7f".
Definition noChecksum : BackupMetadata := recordOf bothFiles 14 EmptyString.
Definition onlyMeta : BackupMetadata := recordOf ["backup-001.meta.json"] 14 EmptyString.

Definition storeWithArtifact : World :=
  healthyStore (memWrite ∅ "backup-001.dump.gz" content).
Definition emptyStore : World := healthyStore ∅.

(** The right size with a wrong checksum. *)
Definition wrongSum : BackupMetadata :=
  recordOf bothFiles 14
    "sha256:650565635eb178dc69fb85bbca55ca83295abab48a27a577b5be689385024a7f".

(** A backend that answers as [b] does, except that every [Read] fails. *)
Definition failingRead (b : Backend) (e : error) : Backend :=
  {| Exists := Exists b; Size := Size b; Read := fun _ => Fail e |}.

(** The artifact in a storage whose reads fail, and in a healthy storage
    next to a local disk on which the temporary copy cannot be opened. *)
Definition brokenRead : World :=
  {| storage := failingRead (memBackend (memWrite ∅ "backup-001.dump.gz" content))
                  (New "connection reset by peer");
     tempFault := NoFault |}.
Definition unreadableTemp : World :=
  {| storage := memBackend (memWrite ∅ "backup-001.dump.gz" content);
     tempFault := OpenFails (New "permission denied") |}.

(** The retry tests: a multiplier of 2 on durations that it scales exactly. *)
Definition exactScale (wait : Z) (multiplier : Z) : Z := wait * multiplier.

Definition testConfig : RetryConfig (float64 := Z) :=
  {| MaxAttempts := 3; InitialWait := 10; MaxWait := 100; Multiplier := 2 |}.
Definition waitAboveCap : RetryConfig (float64 := Z) :=
  {| MaxAttempts := 2; InitialWait := 10; MaxWait := 5; Multiplier := 2 |}.

(** Operations that count their calls. *)
Definition failTwice (n : nat) : (string * option error) * nat :=
  if (n <? 2)%nat then ((EmptyString, Some (New "temporary error")), S n)
  else (("success", None), S n).
Definition alwaysFails (n : nat) : (string * option error) * nat :=
  ((EmptyString, Some (New "persistent error")), S n).


(** A context that is found done at observation [k] and not before. *)
Definition cancelledAt (k : nat) : Context :=
  {| ctxErr := Canceled; doneAt := fun j => (j =? k)%nat |}.


(** The scaling of the source on durations whose floating-point product is
    exact: the product by a multiplier with a fraction, the fraction of the
    product discarded by the conversion to [time.Duration]. *)
Definition truncScale (wait : Z) (multiplier : Q) : Z :=
  Z.quot (wait * Qnum multiplier) (Z.pos (Qden multiplier)).

(** A multiplier of 1.5: on an initial wait of one microsecond with a cap
    of three, and on an initial wait of one nanosecond. *)
Definition halfAgain : RetryConfig (float64 := Q) :=
  {| MaxAttempts := 5; InitialWait := 1000; MaxWait := 3000;
     Multiplier := (3 # 2)%Q |}.
Definition oneNanosecond : RetryConfig (float64 := Q) :=
  {| MaxAttempts := 3; InitialWait := 1; MaxWait := 100;
     Multiplier := (3 # 2)%Q |}.

(** 2024-01-15 14:30:45 UTC, read in UTC and in a zone one hour east. *)
Definition utcStart : Time := Date 2024 1 15 14 30 45 0.
Definition localStart : Time := {| unixNano := unixNano utcStart; zoneOffset := 3600 |}.

End Samples.

(* ===================================================================== *)
(** * More concrete inputs: the mock storage of the tests, configurations *)
(* ===================================================================== *)

Module MoreSamples.
Import GoTime Postgres Rotation GoError Storage Validator Retry Samples.
Import GoStrings Metadata.

(** The mock storage backend of the tests: a map from paths to contents.
    The objects are kept in the order in which [List] yields them (Go does
    not fix the order in which it iterates over a map). *)
Definition mockStorage : Type := list (string * list Byte.byte).

Fixpoint mockLookup (files : mockStorage) (path : string) : option (list Byte.byte) :=
  match files with
  | [] => None
  | (k, data) :: rest => if String.eqb k path then Some data else mockLookup rest path
  end.

(** [mockStorage.List], which ignores the prefix; [mockStorage.Read], whose
    reader never fails; [mockStorage.Delete], which never fails. *)
Definition mockList (m : mockStorage) (prefix : string) : result (list Catalog.FileInfo) :=
  Ok (map (fun entry =>
             {| Catalog.Path := fst entry;
                Catalog.Size := Z.of_nat (length (snd entry));
                Catalog.LastModified := zeroTime;
                Catalog.IsDir := false |}) m).

Definition mockRead (m : mockStorage) (path : string)
  : result (result (list Byte.byte)) :=
  match mockLookup m path with
  | Some data => Ok (Ok data)
  | None => Fail ErrNotFound
  end.

Definition mockDelete (m : mockStorage) (path : string) : option error * mockStorage :=
  (None, List.filter (fun entry => negb (String.eqb (fst entry) path)) m).

(** A backend whose [Delete] always fails and removes nothing. *)
Definition failingDelete (m : mockStorage) (path : string) : option error * mockStorage :=
  (Some (Wrap ("delete " +:+ path +:+ ": ") (New "permission denied")), m).

(** A record as [Run] persists it: the artifact is the only listed file. *)
Definition persisted (id : string) (t : Time) : BackupMetadata :=
  {| ID := id; Timestamp := t; Type_ := "daily";
     Database := {| Name := "app"; Host := "localhost"; Version := "16.2" |};
     Backup := {| Method := "pg_dump"; Format := "custom"; Compression := "gzip";
                  SizeBytes := 0; CompressedSize := 0; Checksum := EmptyString |};
     Files := [id +:+ ".dump.gz"];
     Retention := {| KeepUntil := t; RetentionPolicy := "daily" |} |}.

Definition mondayRecord : BackupMetadata := persisted "monday" (noon 2024 1 15).
Definition tuesdayRecord : BackupMetadata := persisted "tuesday" (noon 2024 1 16).

(** A decoder that knows the two records by the content of their metadata
    objects. *)
Definition decodeSample (data : list Byte.byte) : result BackupMetadata :=
  let text := String.string_of_list_byte data in
  if String.eqb text "monday" then Ok mondayRecord
  else if String.eqb text "tuesday" then Ok tuesdayRecord
  else Fail (New "unexpected end of JSON input").

(** Two backups in the storage, each with its artifact and its metadata
    object, and an object that is no metadata. *)
Definition twoBackups : mockStorage :=
  [ ("monday.dump.gz", content);
    ("monday.meta.json", String.list_byte_of_string "monday");
    ("tuesday.dump.gz", content);
    ("tuesday.meta.json", String.list_byte_of_string "tuesday");
    ("notes.meta.json", String.list_byte_of_string "not a record") ].

(** Configurations: SQLite written in lower case and in mixed case. *)
Definition configOfType (type : string) : Config.Config :=
  {| Config.Database := {| Config.Type_ := type; Config.Host := "localhost";
                           Config.Name := "app"; Config.URL := EmptyString;
                           Config.Path := "/data/app.db" |};
     Config.Storage := {| Config.Backend := "local";
                          Config.S3 := {| Config.Bucket := EmptyString;
                                          Config.AccessKey := EmptyString;
                                          Config.SecretKey := EmptyString |} |};
     Config.Compression := "gzip";
     Config.Backup := {| Config.VerifyAfterBackup := true |} |}.

(** [strings.ToLower] on strings of ASCII bytes. *)
Definition asciiToLower : string -> string := lowerString.

(** A restore procedure that succeeds. *)
Definition restoreSucceeds (tmpFile : Checksum.LocalFile) (compressed : bool)
  : option error := None.

(** The policy of the rotation tests, and one whose max-age is 3 days. *)
Definition testPolicy : Policy := NewPolicy 7 4 12 365.
Definition shortMaxAge : Policy := NewPolicy 7 4 12 3.

End MoreSamples.

(* ===================================================================== *)
(** * Properties *)
(* ===================================================================== *)

Import GoInt Decimal GoTime Postgres Rotation Engine Sha256 GoError Storage
  Checksum Validator Retry Samples.

(* --------------------------------------------------------------------- *)
(** ** The rotator *)
(* --------------------------------------------------------------------- *)

Lemma After_instant a b : After (Timestamp a) (Timestamp b) = true <-> instant b < instant a.
Proof. unfold After, instant. apply Z.ltb_lt. Qed.

Lemma insertBack_Permutation x acc : insertBack x acc ≡ₚ x :: acc.
Proof.
  induction acc as [|y r IH]; simpl; [done|].
  destruct (After _ _); [|done].
  rewrite IH. apply perm_swap.
Qed.

Lemma fold_insertBack_Permutation l acc :
  fold_left (fun acc x => insertBack x acc) l acc ≡ₚ l ++ acc.
Proof.
  revert acc. induction l as [|x l IH]; intros acc; simpl; [done|].
  rewrite IH, insertBack_Permutation. symmetry. apply Permutation_middle.
Qed.

Lemma sortSlice_Permutation l : sortSlice l ≡ₚ l.
Proof.
  unfold sortSlice. rewrite <- Permutation_rev, fold_insertBack_Permutation.
  by rewrite app_nil_r.
Qed.


Lemma insertBack_ascending x acc :
  StronglySorted olderEq acc -> StronglySorted olderEq (insertBack x acc).
Proof.
  induction acc as [|y r IH]; simpl; intros Hs.
  - repeat constructor.
  - apply StronglySorted_cons in Hs as [Hy Hr].
    destruct (After (Timestamp x) (Timestamp y)) eqn:E.
    + apply After_instant in E. apply StronglySorted_cons. split; [|auto].
      rewrite Forall_forall in *. intros z Hz.
      rewrite insertBack_Permutation in Hz. apply elem_of_cons in Hz as [->|Hz].
      * unfold olderEq; lia.
      * auto.
    + assert (instant x <= instant y) as Hxy.
      { destruct (Z.ltb_spec (instant y) (instant x)) as [H|H]; [|done].
        apply After_instant in H. congruence. }
      apply StronglySorted_cons. split.
      * constructor; [done|]. rewrite Forall_forall in *. intros z Hz.
        specialize (Hy z Hz). unfold olderEq in *. lia.
      * apply StronglySorted_cons. done.
Qed.

Lemma StronglySorted_rev_flip {A} (R : relation A) l :
  StronglySorted R l -> StronglySorted (flip R) (rev l).
Proof.
  induction 1 as [|x l Hl IH Hx]; simpl; [constructor|].
  apply StronglySorted_app_2; [|done|repeat constructor].
  intros a b Ha Hb. apply list_elem_of_singleton in Hb as ->.
  rewrite Forall_forall in Hx. apply Hx. apply list_elem_of_In.
  apply in_rev. by apply list_elem_of_In.
Qed.

Lemma sortSlice_descending l : StronglySorted newerEq (sortSlice l).
Proof.
  unfold sortSlice. apply (StronglySorted_rev_flip olderEq).
  assert (forall acc, StronglySorted olderEq acc ->
    StronglySorted olderEq (fold_left (fun acc x => insertBack x acc) l acc)) as H.
  { induction l as [|x l IH]; simpl; auto using insertBack_ascending. }
  apply H. constructor.
Qed.

Lemma NoDup_map_injective {A B} (f : A -> B) l x y :
  NoDup (map f l) -> In x l -> In y l -> f x = f y -> x = y.
Proof.
  induction l as [|a l IH]; intros Hnd Hx Hy Hxy; [done|].
  simpl in Hnd. apply NoDup_cons in Hnd as [Ha Hnd].
  destruct Hx as [<-|Hx], Hy as [<-|Hy]; [done| | |by apply IH].
  - destruct Ha. rewrite Hxy. apply list_elem_of_In. by apply in_map.
  - destruct Ha. rewrite <- Hxy. apply list_elem_of_In. by apply in_map.
Qed.

(** On records of pairwise-distinct instants the result of sorting does not
    depend on the sorting algorithm: every list that holds the same records
    newest first is the list that [sortSlice] returns. *)
Lemma sortSlice_unique l l' :
  NoDup (map instant l) -> l' ≡ₚ l -> StronglySorted newerEq l' ->
  l' = sortSlice l.
Proof.
  intros Hnd Hperm Hsorted.
  apply (StronglySorted_unique_strong newerEq); [|done|apply sortSlice_descending|].
  - intros x1 x2 Hx1 Hx2 H12 H21.
    apply (NoDup_map_injective instant l); [done| | |].
    + apply list_elem_of_In. by rewrite <- Hperm.
    + apply list_elem_of_In. by rewrite <- (sortSlice_Permutation l).
    + unfold newerEq in *. lia.
  - by rewrite Hperm, sortSlice_Permutation.
Qed.

(** ** The second loop is a filter *)



Lemma fold_deleteStep p now keep bs acc :
  fold_left (deleteStep p now keep) (map mkEntry bs) acc
  = acc ++ List.filter (wouldDelete p now keep) bs.
Proof.
  revert acc. induction bs as [|b bs IH]; intros acc; simpl.
  - by rewrite app_nil_r.
  - rewrite IH. unfold deleteStep, wouldDelete. simpl.
    destruct (lookupKeep keep (ID b)); simpl.
    + destruct (_ && _); simpl; [by rewrite <- app_assoc|done].
    + by rewrite <- app_assoc.
Qed.

Lemma Determine_filter p now backups :
  DetermineBackupsToDelete p now backups
  = List.filter (wouldDelete p now (keptIDs p backups)) (sortSlice backups).
Proof.
  unfold DetermineBackupsToDelete. destruct backups as [|b bs]; [done|].
  change (length (b :: bs) =? 0)%nat with false. cbv iota.
  by rewrite fold_deleteStep.
Qed.

Lemma Determine_In p now backups b :
  In b (DetermineBackupsToDelete p now backups)
  <-> In b backups /\ wouldDelete p now (keptIDs p backups) b = true.
Proof.
  rewrite Determine_filter, filter_In.
  split; intros [Hin Hd]; (split; [|done]).
  - eapply Permutation_in; [apply sortSlice_Permutation|done].
  - eapply Permutation_in; [symmetry; apply sortSlice_Permutation|done].
Qed.

(** ** The quota walk *)

Lemma lookupKeep_empty id : lookupKeep ∅ id = false.
Proof. unfold lookupKeep. by rewrite lookup_empty. Qed.

Lemma lookupKeep_insert keep id id' :
  lookupKeep (<[id := true]> keep) id' = true <-> id = id' \/ lookupKeep keep id' = true.
Proof.
  unfold lookupKeep. destruct (decide (id = id')) as [->|Hne].
  - rewrite lookup_insert_eq. simpl. tauto.
  - rewrite lookup_insert_ne by done. tauto.
Qed.

Lemma quotaWalk_app p l1 l2 st :
  quotaWalk p (l1 ++ l2) st = quotaWalk p l2 (quotaWalk p l1 st).
Proof. apply fold_left_app. Qed.

Lemma quotaWalk_cons p e l st :
  quotaWalk p (e :: l) st = quotaWalk p l (entryStep p st e).
Proof. done. Qed.

Lemma entryStep_mkEntry p c keep b :
  entryStep p (c, keep) (mkEntry b)
  = (fst (fold_left (typeStep p) (ClassifyBackup (Timestamp b)) (c, false)),
     if snd (fold_left (typeStep p) (ClassifyBackup (Timestamp b)) (c, false))
     then <[ID b := true]> keep else keep).
Proof.
  unfold entryStep, mkEntry. cbn [Types Metadata].
  by destruct (fold_left _ _ _).
Qed.

Lemma walk_daily_only p bs :
  (forall b, In b bs -> ClassifyBackup (Timestamp b) = [BackupTypeDaily]) ->
  forall c keep id,
    lookupKeep (snd (quotaWalk p (map mkEntry bs) (c, keep))) id = true
    <-> lookupKeep keep id = true
        \/ In id (map ID (take (Z.to_nat (KeepDaily p - dailyCount c)) bs)).
Proof.
  induction bs as [|b bs IH]; intros Hcl c keep id.
  - simpl. rewrite take_nil. simpl. tauto.
  - simpl map at 1. rewrite quotaWalk_cons.
    rewrite entryStep_mkEntry.
    rewrite (Hcl b) by (by left). cbn [fold_left typeStep].
    assert (forall b', In b' bs -> ClassifyBackup (Timestamp b') = [BackupTypeDaily]) as Hcl'
      by (intros; apply Hcl; by right).
    destruct (Z.ltb_spec (dailyCount c) (KeepDaily p)) as [Hlt|Hge].
    + cbn [fst snd]. rewrite (IH Hcl'). cbn [dailyCount].
      replace (Z.to_nat (KeepDaily p - dailyCount c))
        with (S (Z.to_nat (KeepDaily p - (dailyCount c + 1)))) by lia.
      simpl. rewrite lookupKeep_insert. tauto.
    + cbn [fst snd]. rewrite (IH Hcl').
      replace (Z.to_nat (KeepDaily p - dailyCount c)) with O by lia.
      simpl. tauto.
Qed.

Lemma filter_all_false {A} (P : A -> bool) l :
  (forall x, In x l -> P x = false) -> List.filter P l = [].
Proof.
  induction l as [|x l IH]; intros H; simpl; [done|].
  rewrite (H x) by (by left). apply IH. intros; apply H; by right.
Qed.

Lemma filter_all_true {A} (P : A -> bool) l :
  (forall x, In x l -> P x = true) -> List.filter P l = l.
Proof.
  induction l as [|x l IH]; intros H; simpl; [done|].
  rewrite (H x) by (by left). f_equal. apply IH. intros; apply H; by right.
Qed.

Lemma NoDup_map_take_drop {A B} (f : A -> B) n l x :
  NoDup (map f l) -> In x (drop n l) -> ~ In (f x) (map f (take n l)).
Proof.
  intros Hnd Hx Hin.
  rewrite <- (take_drop n l), map_app in Hnd.
  apply NoDup_app in Hnd as (_ & Hdis & _).
  apply (Hdis (f x)); apply list_elem_of_In; [done|by apply in_map].
Qed.

Lemma filter_outside_take {A B} (f : A -> B) (P : A -> bool) n l :
  NoDup (map f l) ->
  (forall x, In x l -> (P x = false <-> In (f x) (map f (take n l)))) ->
  List.filter P l = drop n l.
Proof.
  intros Hnd HP.
  rewrite <- (take_drop n l) at 1. rewrite List.filter_app.
  rewrite filter_all_false, filter_all_true; [done| |].
  - intros x Hx. destruct (P x) eqn:E; [done|].
    exfalso. eapply NoDup_map_take_drop; [done..|].
    apply HP; [|done]. rewrite <- (take_drop n l). apply in_or_app; by right.
  - intros x Hx. apply HP.
    + rewrite <- (take_drop n l). apply in_or_app; by left.
    + by apply in_map.
Qed.

Lemma classify_daily_only t :
  Weekday t <> Sunday -> Day t <> 1 -> ClassifyBackup t = [BackupTypeDaily].
Proof.
  intros Hw Hd. unfold ClassifyBackup.
  destruct (Z.eqb_spec (Weekday t) Sunday); [done|].
  by destruct (Z.eqb_spec (Day t) 1).
Qed.

Lemma classify_all_tiers t :
  Weekday t = Sunday -> Day t = 1 ->
  ClassifyBackup t = [BackupTypeDaily; BackupTypeWeekly; BackupTypeMonthly].
Proof.
  intros Hw Hd. unfold ClassifyBackup. rewrite Hw, Hd. done.
Qed.

Lemma keptIDs_daily_only p backups id :
  (forall b, In b backups -> ClassifyBackup (Timestamp b) = [BackupTypeDaily]) ->
  lookupKeep (keptIDs p backups) id = true
  <-> In id (map ID (take (Z.to_nat (KeepDaily p)) (sortSlice backups))).
Proof.
  intros Hcl. unfold keptIDs. rewrite walk_daily_only.
  - rewrite lookupKeep_empty. cbn [dailyCount zeroCounters].
    rewrite Z.sub_0_r. split; [intros [?|?]; [done|done]|by right].
  - intros b Hb. apply Hcl.
    eapply Permutation_in; [apply sortSlice_Permutation|done].
Qed.

(** C1, amended.  With keepDaily = N, keepWeekly = keepMonthly = 0 and
    maxAgeDays = 0, and N+k records of pairwise-distinct instants and
    pairwise-distinct ids, none of them on a Sunday or on the first day of a
    month, [DetermineBackupsToDelete] returns exactly k records: the last k
    of the records sorted newest first, each of them a record of the input
    and older than every record that is not returned. *)
Theorem daily_only_deletes_oldest (N k : nat) (p : Policy) (now : Time)
    (backups : list BackupMetadata) :
  KeepDaily p = Z.of_nat N -> KeepWeekly p = 0 -> KeepMonthly p = 0 ->
  MaxAgeDays p = 0 ->
  length backups = (N + k)%nat ->
  NoDup (map instant backups) ->
  NoDup (map ID backups) ->
  (forall b, In b backups ->
     Weekday (Timestamp b) <> Sunday /\ Day (Timestamp b) <> 1) ->
  let del := DetermineBackupsToDelete p now backups in
  length del = k
  /\ del = drop N (sortSlice backups)
  /\ (forall d, In d del -> In d backups)
  /\ (forall d b, In d del -> In b backups -> ~ In b del ->
        After (Timestamp b) (Timestamp d) = true).
Proof.
  intros HN _ _ Hage Hlen Hts Hids Hdaily del.
  assert (Hcl : forall b, In b backups ->
            ClassifyBackup (Timestamp b) = [BackupTypeDaily]).
  { intros b Hb. destruct (Hdaily b Hb). by apply classify_daily_only. }
  pose proof (sortSlice_Permutation backups) as Hperm.
  assert (Hdel : del = drop N (sortSlice backups)).
  { subst del. rewrite Determine_filter.
    apply (filter_outside_take ID).
    - by rewrite Hperm.
    - intros b Hb. unfold wouldDelete. rewrite Hage. simpl.
      rewrite orb_false_r, negb_false_iff, keptIDs_daily_only by done.
      by rewrite HN, Nat2Z.id. }
  assert (Hsub : forall d, In d del -> In d (sortSlice backups)).
  { intros d Hd. rewrite Hdel in Hd.
    rewrite <- (take_drop N (sortSlice backups)). apply in_or_app. by right. }
  split; [|split; [done|split]].
  - rewrite Hdel, length_drop, (Permutation_length Hperm). lia.
  - intros d Hd. eapply Permutation_in; [exact Hperm|auto].
  - intros d b Hd Hb Hnb.
    assert (Hb' : In b (take N (sortSlice backups))).
    { eapply Permutation_in in Hb; [|symmetry; exact Hperm].
      rewrite <- (take_drop N (sortSlice backups)) in Hb.
      apply in_app_or in Hb as [?|Hb]; [done|]. rewrite <- Hdel in Hb. done. }
    rewrite Hdel in Hd.
    pose proof (sortSlice_descending backups) as Hs.
    rewrite <- (take_drop N (sortSlice backups)) in Hs.
    apply After_instant.
    assert (instant d <= instant b) as Hle.
    { eapply (StronglySorted_app_1_elem_of newerEq) in Hs;
        [exact Hs| |]; by apply list_elem_of_In. }
    assert (instant b <> instant d) as Hne.
    { intros Heq.
      assert (NoDup (map instant (sortSlice backups))) as Hnd.
      { by rewrite Hperm. }
      eapply (NoDup_map_take_drop instant N); [exact Hnd|exact Hd|].
      rewrite <- Heq. by apply in_map. }
    lia.
Qed.

(** ** Max-age *)

Lemma wrap64_range x : minInt64 <= wrap64 x <= maxInt64.
Proof. unfold wrap64, minInt64, maxInt64. Z.div_mod_to_equations. lia. Qed.

Lemma wrap64_id x : minInt64 <= x <= maxInt64 -> wrap64 x = x.
Proof. unfold wrap64, minInt64, maxInt64. intros. Z.div_mod_to_equations. lia. Qed.

Lemma wrap64_hours_below_max x : wrap64 (x * Hour) < maxInt64.
Proof.
  unfold wrap64, maxInt64, Hour, Minute, Second.
  Z.div_mod_to_equations. lia.
Qed.

Lemma maxAgeOf_below_max p : maxAgeOf p < maxInt64.
Proof. apply wrap64_hours_below_max. Qed.


Lemma maxAgeOf_exact p :
  0 <= MaxAgeDays p -> MaxAgeDays p * dayNanos <= maxInt64 ->
  maxAgeOf p = MaxAgeDays p * dayNanos.
Proof.
  unfold maxAgeOf, dayNanos, maxInt64, Hour, Minute, Second. intros H0 Hm.
  rewrite (wrap64_id (MaxAgeDays p * 24)) by (unfold minInt64, maxInt64; lia).
  rewrite wrap64_id by (unfold minInt64, maxInt64; lia). lia.
Qed.

Lemma sat64_over_age p now b :
  0 < MaxAgeDays p ->
  MaxAgeDays p * dayNanos < unixNano now - instant b ->
  maxAgeOf p < Sub now (Timestamp b).
Proof.
  intros Hpos Hage. unfold Sub. fold (instant b).
  pose proof (maxAgeOf_below_max p) as Hlt.
  unfold sat64.
  destruct (Z.ltb_spec (unixNano now - instant b) minInt64) as [H1|H1].
  { unfold minInt64, dayNanos, Hour, Minute, Second in *. lia. }
  destruct (Z.ltb_spec maxInt64 (unixNano now - instant b)) as [H2|H2]; [done|].
  rewrite maxAgeOf_exact; lia.
Qed.

Lemma sat64_within_age p now b :
  0 < MaxAgeDays p -> MaxAgeDays p * dayNanos <= maxInt64 ->
  unixNano now - instant b <= MaxAgeDays p * dayNanos ->
  Sub now (Timestamp b) <= maxAgeOf p.
Proof.
  intros Hpos Hfit Hage. unfold Sub. fold (instant b).
  rewrite maxAgeOf_exact by lia. unfold sat64.
  destruct (Z.ltb_spec (unixNano now - instant b) minInt64) as [H1|H1].
  { unfold minInt64, dayNanos, Hour, Minute, Second in *. lia. }
  destruct (Z.ltb_spec maxInt64 (unixNano now - instant b)); lia.
Qed.

(** C3, amended.  When maxAgeDays > 0 every record whose age exceeds
    maxAgeDays days is scheduled for deletion, whatever the tier quotas say;
    max-age protects nothing: a record that no tier quota kept is scheduled
    for deletion whatever its age, and a record within the threshold stays
    exactly when a tier quota kept its id (for a threshold that fits a
    64-bit duration). *)
Theorem max_age_adds_deletions (p : Policy) (now : Time)
    (backups : list BackupMetadata) (b : BackupMetadata) :
  0 < MaxAgeDays p ->
  In b backups ->
  (MaxAgeDays p * dayNanos < unixNano now - instant b ->
     In b (DetermineBackupsToDelete p now backups))
  /\ (lookupKeep (keptIDs p backups) (ID b) = false ->
     In b (DetermineBackupsToDelete p now backups))
  /\ (lookupKeep (keptIDs p backups) (ID b) = true ->
      MaxAgeDays p * dayNanos <= maxInt64 ->
      unixNano now - instant b <= MaxAgeDays p * dayNanos ->
      ~ In b (DetermineBackupsToDelete p now backups)).
Proof.
  intros Hpos Hin. repeat split.
  - intros Hage. apply Determine_In. split; [done|].
    unfold wouldDelete. apply orb_true_iff. right.
    apply andb_true_iff. split; [by apply Z.ltb_lt|].
    apply Z.ltb_lt. by apply sat64_over_age.
  - intros Hk. apply Determine_In. split; [done|].
    unfold wouldDelete. by rewrite Hk.
  - intros Hk Hfit Hage [_ Hd]%Determine_In.
    unfold wouldDelete in Hd. rewrite Hk in Hd. simpl in Hd.
    apply andb_true_iff in Hd as [_ Hd%Z.ltb_lt].
    pose proof (sat64_within_age p now b Hpos Hfit Hage). lia.
Qed.

(** ** Records of several tiers *)

Lemma entryStep_keep_mono p st e id :
  lookupKeep (snd st) id = true -> lookupKeep (snd (entryStep p st e)) id = true.
Proof.
  destruct st as [c keep]. unfold entryStep.
  destruct (fold_left _ _ _) as [c' [|]]; cbn [snd]; [|done].
  intros H. apply lookupKeep_insert. by right.
Qed.

Lemma quotaWalk_keep_mono p es st id :
  lookupKeep (snd st) id = true -> lookupKeep (snd (quotaWalk p es st)) id = true.
Proof.
  revert st. induction es as [|e es IH]; intros st H; [done|].
  rewrite quotaWalk_cons. apply IH. by apply entryStep_keep_mono.
Qed.

(** The three tier counters after the record is processed, and whether the
    record is marked as kept. *)
Lemma typeSteps_all_tiers p c :
  fold_left (typeStep p) [BackupTypeDaily; BackupTypeWeekly; BackupTypeMonthly] (c, false)
  = ({| dailyCount := if dailyCount c <? KeepDaily p then dailyCount c + 1 else dailyCount c;
        weeklyCount := if weeklyCount c <? KeepWeekly p then weeklyCount c + 1 else weeklyCount c;
        monthlyCount := if monthlyCount c <? KeepMonthly p then monthlyCount c + 1 else monthlyCount c |},
     (dailyCount c <? KeepDaily p) || (weeklyCount c <? KeepWeekly p)
     || (monthlyCount c <? KeepMonthly p)).
Proof.
  destruct c as [d w m]. simpl.
  destruct (d <? KeepDaily p); simpl;
    destruct (w <? KeepWeekly p); simpl;
    destruct (m <? KeepMonthly p); reflexivity.
Qed.

Lemma Determine_sublist p now backups :
  DetermineBackupsToDelete p now backups `sublist_of` sortSlice backups.
Proof.
  rewrite Determine_filter. generalize (sortSlice backups) as l.
  induction l as [|x l IH]; simpl; [constructor|].
  destruct (wouldDelete _ _ _ x); [by apply sublist_skip|by apply sublist_cons].
Qed.

(** C2.  A record dated on a Sunday that is also the first day of a month
    advances the weekly and the monthly counter independently of each
    other; it is marked as kept as soon as one of these two quotas still has
    room when the walk reaches it, whatever the other quota is (zero
    included), and then, unless max-age fires, it is not returned; the
    returned list takes every record of the input at most once. *)
Theorem dual_tier_record_counts_for_both (p : Policy) (now : Time)
    (backups pre post : list BackupMetadata) (r : BackupMetadata) :
  Weekday (Timestamp r) = Sunday -> Day (Timestamp r) = 1 ->
  sortSlice backups = pre ++ r :: post ->
  let c := fst (quotaWalk p (map mkEntry pre) (zeroCounters, ∅)) in
  let c' := fst (quotaWalk p (map mkEntry (pre ++ [r])) (zeroCounters, ∅)) in
  weeklyCount c' = (if weeklyCount c <? KeepWeekly p then weeklyCount c + 1 else weeklyCount c)
  /\ monthlyCount c' = (if monthlyCount c <? KeepMonthly p then monthlyCount c + 1 else monthlyCount c)
  /\ (weeklyCount c < KeepWeekly p \/ monthlyCount c < KeepMonthly p ->
      lookupKeep (keptIDs p backups) (ID r) = true
      /\ (MaxAgeDays p <= 0 \/ Sub now (Timestamp r) <= maxAgeOf p ->
          ~ In r (DetermineBackupsToDelete p now backups)))
  /\ DetermineBackupsToDelete p now backups ⊆+ backups.
Proof.
  intros Hsun Hfirst Hsorted c c'.
  assert (Hstep : quotaWalk p (map mkEntry (pre ++ [r])) (zeroCounters, ∅)
    = entryStep p (quotaWalk p (map mkEntry pre) (zeroCounters, ∅)) (mkEntry r)).
  { by rewrite map_app, quotaWalk_app. }
  destruct (quotaWalk p (map mkEntry pre) (zeroCounters, ∅)) as [c0 keep0] eqn:Hpre.
  subst c c'. rewrite Hstep. cbn [fst].
  rewrite entryStep_mkEntry, classify_all_tiers, typeSteps_all_tiers by done.
  cbn [fst snd weeklyCount monthlyCount].
  split; [done|]. split; [done|]. split.
  - intros Hroom.
    assert (Hkept : lookupKeep (keptIDs p backups) (ID r) = true).
    { unfold keptIDs. rewrite Hsorted.
      replace (pre ++ r :: post) with ((pre ++ [r]) ++ post) by (by rewrite <- app_assoc).
      rewrite (map_app _ (pre ++ [r])), quotaWalk_app. apply quotaWalk_keep_mono.
      rewrite Hstep, entryStep_mkEntry, classify_all_tiers, typeSteps_all_tiers by done.
      cbn [snd].
      assert ((dailyCount c0 <? KeepDaily p) || (weeklyCount c0 <? KeepWeekly p)
              || (monthlyCount c0 <? KeepMonthly p) = true) as ->.
      { destruct Hroom as [H%Z.ltb_lt|H%Z.ltb_lt]; rewrite H;
          by rewrite ?orb_true_r. }
      apply lookupKeep_insert. by left. }
    split; [done|].
    intros Hage [_ Hd]%Determine_In. unfold wouldDelete in Hd.
    rewrite Hkept in Hd. simpl in Hd.
    apply andb_true_iff in Hd as [Hd1%Z.ltb_lt Hd2%Z.ltb_lt]. lia.
  - apply submseteq_sublist_l. exists (sortSlice backups).
    split; [apply Determine_sublist|apply sortSlice_Permutation].
Qed.

(* --------------------------------------------------------------------- *)
(** ** The validator *)
(* --------------------------------------------------------------------- *)


Lemma findDataFile_only_meta k files :
  (forall f, In f files -> f = k) -> findDataFile k files = EmptyString.
Proof.
  induction files as [|f fs IH]; intros H; simpl; [done|].
  rewrite (H f) by (by left). rewrite String.eqb_refl.
  apply IH. intros; apply H; by right.
Qed.

(** C5.  A record whose file list is empty or holds nothing but the
    metadata key is invalid, with a non-empty error list, and [Validate]
    makes no storage call at all. *)
Theorem validate_without_data_file (w : World) (md : BackupMetadata) :
  (forall f, In f (Files md) -> f = ID md +:+ ".meta.json") ->
  exists r, Validate w md = ([], Ok r)
    /\ Valid r = false /\ Errors r <> []
    /\ FileExists r = false /\ SizeMatch r = false /\ ChecksumOK r = false.
Proof.
  intros Honly. unfold Validate.
  destruct (Files md) as [|f fs] eqn:Hfiles.
  - eexists. split; [reflexivity|]. by cbn.
  - change (length (f :: fs) =? 0)%nat with false. cbv iota.
    rewrite findDataFile_only_meta by done.
    eexists. split; [reflexivity|]. by cbn.
Qed.

Lemma Validate_with_data_file w md :
  dataFile md <> EmptyString ->
  Validate w md =
    let result :=
      {| BackupID := ID md; Valid := true; FileExists := false;
         SizeMatch := false; ChecksumOK := false; Errors := [] |} in
    let backupFile := dataFile md in
    bind (orWrap "failed to check file existence: " (CallExists backupFile)
            (Exists (storage w) backupFile)) (fun exists_ =>
    let result := setFileExists exists_ result in
    if negb exists_
    then ret (invalidate "backup file does not exist" result)
    else
      bind (orWrap "failed to get file size: " (CallSize backupFile)
              (Size (storage w) backupFile)) (fun size =>
      let result := setSizeMatch (size =? CompressedSize (Backup md)) result in
      let result :=
        if negb (SizeMatch result)
        then invalidate (sizeMismatchMsg (CompressedSize (Backup md)) size) result
        else result in
      if negb (String.eqb (Checksum (Backup md)) EmptyString)
      then
        bind (orWrap "failed to read backup file: " (CallRead backupFile)
                (Read (storage w) backupFile)) (fun reader =>
        match createTempFile w reader with
        | Fail e => ([], Fail (Wrap "failed to create temp file: " e))
        | Ok tmpFile =>
            match CalculateChecksum tmpFile with
            | Fail _ => ret result
            | Ok checksum =>
                let result :=
                  setChecksumOK (String.eqb checksum (Checksum (Backup md))) result in
                if negb (ChecksumOK result)
                then ret (invalidate "checksum mismatch" result)
                else ret result
            end
        end)
      else ret (setChecksumOK true result))).
Proof.
  intros Hf. unfold Validate. fold (metaKey md). fold (dataFile md).
  destruct (Files md) as [|f fs] eqn:Hfiles.
  { unfold dataFile in Hf. rewrite Hfiles in Hf. done. }
  change (length (f :: fs) =? 0)%nat with false. cbv iota.
  destruct (String.eqb_spec (dataFile md) EmptyString); [done|]. reflexivity.
Qed.

Lemma bind_orWrap_Ok {A B} prefix call (a : A) (k : A -> IO B) :
  bind (orWrap prefix call (Ok a)) k = (call :: fst (k a), snd (k a)).
Proof. unfold bind, orWrap. by destruct (k a). Qed.

Lemma bind_orWrap_Fail {A B} prefix call e (k : A -> IO B) :
  bind (orWrap prefix call (Fail e)) k = ([call], Fail (Wrap prefix e)).
Proof. done. Qed.

Lemma Validate_checks (w : World) (md : BackupMetadata) sz content :
  dataFile md <> EmptyString ->
  Exists (storage w) (dataFile md) = Ok true ->
  Size (storage w) (dataFile md) = Ok sz ->
  (Checksum (Backup md) <> EmptyString ->
     Read (storage w) (dataFile md) = Ok content
     /\ forall e, tempFault w <> CreateFails e) ->
  exists r,
    Validate w md
    = (CallExists (dataFile md) :: CallSize (dataFile md)
         :: (if String.eqb (Checksum (Backup md)) EmptyString then []
             else [CallRead (dataFile md)]),
       Ok r)
    /\ FileExists r = true
    /\ SizeMatch r = (sz =? CompressedSize (Backup md))
    /\ ChecksumOK r = match checksumVerdict w md content with
                      | Some verdict => verdict
                      | None => String.eqb (Checksum (Backup md)) EmptyString
                      end
    /\ Valid r = SizeMatch r && default true (checksumVerdict w md content)
    /\ Errors r
       = (if SizeMatch r then []
          else [sizeMismatchMsg (CompressedSize (Backup md)) sz])
         ++ match checksumVerdict w md content with
            | Some false => ["checksum mismatch"]
            | _ => []
            end
    /\ BackupID r = ID md.
Proof.
  intros Hf Hex Hsz Hrd.
  rewrite Validate_with_data_file by done. cbv zeta.
  rewrite Hex, bind_orWrap_Ok. cbn [negb].
  rewrite Hsz, bind_orWrap_Ok. unfold checksumVerdict.
  destruct (String.eqb_spec (Checksum (Backup md)) EmptyString) as [Hck|Hck]; cbn [negb].
  - destruct (sz =? CompressedSize (Backup md)) eqn:E;
      cbn; rewrite ?E; eexists; (split; [reflexivity|]); cbn; by rewrite ?E.
  - destruct (Hrd Hck) as [Hread Htmp]. rewrite Hread, bind_orWrap_Ok.
    unfold createTempFile.
    destruct (tempFault w) as [|e|e|e] eqn:Hfault.
    + cbn [CalculateChecksum].
      destruct (String.eqb _ (Checksum (Backup md))) eqn:Hsum;
      destruct (sz =? CompressedSize (Backup md)) eqn:E;
        cbn; rewrite ?E, ?Hsum; cbn; eexists; (split; [reflexivity|]);
        cbn; by rewrite ?E.
    + by destruct (Htmp e).
    + destruct (sz =? CompressedSize (Backup md)) eqn:E;
        cbn; rewrite ?E; eexists; (split; [reflexivity|]); cbn; by rewrite ?E.
    + destruct (sz =? CompressedSize (Backup md)) eqn:E;
        cbn; rewrite ?E; eexists; (split; [reflexivity|]); cbn; by rewrite ?E.
Qed.

(** A run of [Validate] that makes no size query. *)
Lemma Validate_short_circuits (w : World) (md : BackupMetadata) calls out :
  Validate w md = (calls, out) ->
  ~ In (CallSize (dataFile md)) calls ->
  (dataFile md = EmptyString /\ calls = [])
  \/ (Exists (storage w) (dataFile md) = Ok false
      /\ calls = [CallExists (dataFile md)])
  \/ (exists e, Exists (storage w) (dataFile md) = Fail e
      /\ calls = [CallExists (dataFile md)]
      /\ out = Fail (Wrap "failed to check file existence: " e)).
Proof.
  intros Hv Hnosize.
  destruct (String.eqb_spec (dataFile md) EmptyString) as [Hf|Hf].
  - left. split; [done|].
    revert Hv. unfold Validate. fold (metaKey md). fold (dataFile md).
    rewrite Hf. destruct (length (Files md) =? 0)%nat; unfold ret; cbn; congruence.
  - right. rewrite Validate_with_data_file in Hv by done. cbv zeta in Hv.
    destruct (Exists (storage w) (dataFile md)) as [[|]|e].
    + rewrite bind_orWrap_Ok in Hv. cbn [negb] in Hv.
      destruct (Size (storage w) (dataFile md)) as [sz|e].
      * rewrite bind_orWrap_Ok in Hv. cbn [fst snd] in Hv.
        injection Hv as <- _. destruct Hnosize. right. by left.
      * rewrite bind_orWrap_Fail in Hv. injection Hv as <- _.
        destruct Hnosize. right. by left.
    + left. rewrite bind_orWrap_Ok in Hv. cbn in Hv. injection Hv as <- _. done.
    + right. rewrite bind_orWrap_Fail in Hv. injection Hv as <- <-.
      by exists e.
Qed.

(** C4, amended.  When the data file exists, [Validate] asks for its size.
    If that query fails, its error is returned and no result.  Otherwise
    SizeMatch tells whether the sizes agree and a mismatch is recorded.
    Without a recorded checksum the result has ChecksumOK = true and
    Valid = SizeMatch.  With a recorded checksum the file is read whatever
    the size check said: a failing read, or a temporary copy that cannot be
    created, ends the validation with that error and without a result, so
    that the size finding is lost; a temporary copy that cannot be opened
    or read leaves the checksums uncompared, with ChecksumOK = false, no
    error for it and Valid = SizeMatch; otherwise ChecksumOK tells whether
    the checksums agree, Valid is the conjunction of SizeMatch and
    ChecksumOK and the errors are accumulated in order.  A run without
    size query is one of: no data file in the record, a missing file, a
    failed existence check. *)
Theorem validate_runs_every_check (w : World) (md : BackupMetadata) :
  let f := dataFile md in
  let sizeOK := fun sz => sz =? CompressedSize (Backup md) in
  let sizeErrors := fun sz =>
    if sizeOK sz then [] else [sizeMismatchMsg (CompressedSize (Backup md)) sz] in
  let found := fun valid sizeMatch checksumOK errors =>
    Ok {| BackupID := ID md; Valid := valid; FileExists := true;
          SizeMatch := sizeMatch; ChecksumOK := checksumOK; Errors := errors |} in
  (f <> EmptyString ->
   Exists (storage w) f = Ok true ->
   (* the size query fails *)
   (forall e,
      Size (storage w) f = Fail e ->
      Validate w md
      = ([CallExists f; CallSize f], Fail (Wrap "failed to get file size: " e)))
   (* no checksum is recorded *)
   /\ (forall sz,
         Size (storage w) f = Ok sz ->
         Checksum (Backup md) = EmptyString ->
         Validate w md
         = ([CallExists f; CallSize f],
            found (sizeOK sz) (sizeOK sz) true (sizeErrors sz)))
   (* a checksum is recorded: the file is read, whatever the size check said *)
   /\ (forall sz,
         Size (storage w) f = Ok sz ->
         Checksum (Backup md) <> EmptyString ->
         (forall e,
            Read (storage w) f = Fail e ->
            Validate w md
            = ([CallExists f; CallSize f; CallRead f],
               Fail (Wrap "failed to read backup file: " e)))
         /\ (forall content,
               Read (storage w) f = Ok content ->
               (forall e,
                  tempFault w = CreateFails e ->
                  Validate w md
                  = ([CallExists f; CallSize f; CallRead f],
                     Fail (Wrap "failed to create temp file: " e)))
               /\ (forall e,
                     tempFault w = OpenFails e \/ tempFault w = ReadFails e ->
                     Validate w md
                     = ([CallExists f; CallSize f; CallRead f],
                        found (sizeOK sz) (sizeOK sz) false (sizeErrors sz)))
               /\ (tempFault w = NoFault ->
                   let sumOK :=
                     String.eqb ("sha256:" +:+ Sha256.EncodeToString (Sha256.sum256 content))
                                (Checksum (Backup md)) in
                   Validate w md
                   = ([CallExists f; CallSize f; CallRead f],
                      found (sizeOK sz && sumOK) (sizeOK sz) sumOK
                        (sizeErrors sz
                         ++ if sumOK then [] else ["checksum mismatch"]))))))
  (* the runs that end before the size query *)
  /\ (forall calls out,
        Validate w md = (calls, out) ->
        ~ In (CallSize f) calls ->
        (f = EmptyString /\ calls = [])
        \/ (Exists (storage w) f = Ok false /\ calls = [CallExists f])
        \/ (exists e, Exists (storage w) f = Fail e
            /\ calls = [CallExists f]
            /\ out = Fail (Wrap "failed to check file existence: " e))).
Proof.
  cbv zeta. split; [|apply Validate_short_circuits].
  intros Hf Hex.
  rewrite Validate_with_data_file by done. cbv zeta.
  rewrite Hex, bind_orWrap_Ok. cbn [negb].
  split_and!.
  - intros e ->. by rewrite bind_orWrap_Fail.
  - intros sz -> Hck. rewrite bind_orWrap_Ok, Hck. cbn [String.eqb negb].
    by destruct (sz =? CompressedSize (Backup md)).
  - intros sz -> Hck. rewrite bind_orWrap_Ok.
    destruct (String.eqb_spec (Checksum (Backup md)) EmptyString) as [|_]; [done|].
    cbn [negb]. split.
    + intros e ->. by rewrite bind_orWrap_Fail.
    + intros content ->. rewrite bind_orWrap_Ok. unfold createTempFile.
      split_and!.
      * intros e ->. done.
      * intros e [-> | ->]; cbn [CalculateChecksum];
          by destruct (sz =? CompressedSize (Backup md)).
      * intros ->. cbn [CalculateChecksum].
        destruct (sz =? CompressedSize (Backup md));
          by destruct (String.eqb _ (Checksum (Backup md))).
Qed.

(** C10.  When the data file does not exist the result has FileExists,
    Valid, SizeMatch and ChecksumOK all false, although neither size nor
    checksum was looked at; whereas with an existing file and no recorded
    checksum the check that is not performed is reported as
    ChecksumOK = true. *)
Theorem validate_missing_file_flags (w : World) (md : BackupMetadata) :
  dataFile md <> EmptyString ->
  (Exists (storage w) (dataFile md) = Ok false ->
   exists r,
     Validate w md = ([CallExists (dataFile md)], Ok r)
     /\ FileExists r = false /\ Valid r = false
     /\ SizeMatch r = false /\ ChecksumOK r = false
     /\ Errors r = ["backup file does not exist"])
  /\ (forall sz,
      Exists (storage w) (dataFile md) = Ok true ->
      Size (storage w) (dataFile md) = Ok sz ->
      Checksum (Backup md) = EmptyString ->
      exists r,
        Validate w md = ([CallExists (dataFile md); CallSize (dataFile md)], Ok r)
        /\ FileExists r = true /\ ChecksumOK r = true
        /\ Valid r = (sz =? CompressedSize (Backup md))).
Proof.
  intros Hf. split.
  - intros Hex. rewrite Validate_with_data_file by done. cbv zeta.
    rewrite Hex, bind_orWrap_Ok. cbn. eexists. split; [reflexivity|]. by cbn.
  - intros sz Hex Hsz Hck. rewrite Validate_with_data_file by done. cbv zeta.
    rewrite Hex, bind_orWrap_Ok. cbn [negb].
    rewrite Hsz, bind_orWrap_Ok, Hck.
    destruct (sz =? CompressedSize (Backup md)) eqn:E;
      cbn; rewrite ?E; eexists; (split; [reflexivity|]); by cbn.
Qed.

(** ** Checksums *)



Lemma nibble_cases d : 0 <= d < 16 ->
  d = 0 \/ d = 1 \/ d = 2 \/ d = 3 \/ d = 4 \/ d = 5 \/ d = 6 \/ d = 7 \/
  d = 8 \/ d = 9 \/ d = 10 \/ d = 11 \/ d = 12 \/ d = 13 \/ d = 14 \/ d = 15.
Proof. lia. Qed.

Lemma hexDigit_lower d : 0 <= d < 16 -> isLowerHex (hexDigit d) = true.
Proof.
  intros H. apply nibble_cases in H.
  repeat (destruct H as [->|H]; [reflexivity|]). by subst.
Qed.


Lemma unhex_hexDigit d : 0 <= d < 16 -> unhex (hexDigit d) = d.
Proof.
  intros H. apply nibble_cases in H.
  repeat (destruct H as [->|H]; [reflexivity|]). by subst.
Qed.

Lemma byteToZ_range b : 0 <= byteToZ b < 256.
Proof.
  unfold byteToZ. pose proof (Byte.to_N_bounded b). lia.
Qed.

Lemma byteToZ_inj a b : byteToZ a = byteToZ b -> a = b.
Proof.
  unfold byteToZ. intros H. apply N2Z.inj in H.
  pose proof (Byte.of_to_N a) as Ha. pose proof (Byte.of_to_N b) as Hb.
  rewrite H in Ha. congruence.
Qed.

Lemma EncodeToString_inj a b : EncodeToString a = EncodeToString b -> a = b.
Proof.
  revert b. induction a as [|x a IH]; intros [|y b] H; try done.
  simpl in H. injection H as H1 H2 H3.
  f_equal; [|by apply IH].
  apply byteToZ_inj.
  pose proof (byteToZ_range x). pose proof (byteToZ_range y).
  apply (f_equal unhex) in H1, H2.
  rewrite !unhex_hexDigit in H1, H2 by (Z.div_mod_to_equations; lia).
  Z.div_mod_to_equations. lia.
Qed.

Lemma EncodeToString_length bs :
  String.length (EncodeToString bs) = (2 * length bs)%nat.
Proof. induction bs as [|b bs IH]; simpl; [done|]. rewrite IH. lia. Qed.

Lemma EncodeToString_lower bs : allChars isLowerHex (EncodeToString bs) = true.
Proof.
  induction bs as [|b bs IH]; simpl; [done|].
  pose proof (byteToZ_range b).
  rewrite !hexDigit_lower, IH by (Z.div_mod_to_equations; lia). done.
Qed.

Lemma bigEndian_length n x : length (bigEndian n x) = n.
Proof. induction n; simpl; auto. Qed.

Lemma round_length st kw : length st = 8%nat -> length (round st kw) = 8%nat.
Proof.
  intros H. do 9 (destruct st as [|? st]; try discriminate H). done.
Qed.

Lemma compress_length h block : length h = 8%nat -> length (compress h block) = 8%nat.
Proof.
  intros H. unfold compress. rewrite length_map, length_combine.
  assert (forall l st, length st = 8%nat -> length (fold_left round l st) = 8%nat) as Hf.
  { induction l as [|kw l IH]; intros st Hst; simpl; [done|].
    apply IH. by apply round_length. }
  rewrite Hf by done. lia.
Qed.

Lemma sum256_length data : length (sum256 data) = 32%nat.
Proof.
  unfold sum256. rewrite length_map.
  assert (forall bs h, length h = 8%nat -> length (fold_left compress bs h) = 8%nat) as Hf.
  { induction bs as [|b bs IH]; intros h Hh; simpl; [done|].
    apply IH. by apply compress_length. }
  specialize (Hf (chunks (length (pad (map byteToZ data)) / 64) 64 (pad (map byteToZ data))) H0 eq_refl).
  destruct (fold_left compress _ H0) as [|a [|b [|c [|d [|e [|f [|g [|h [|]]]]]]]]];
    try discriminate Hf.
  reflexivity.
Qed.


Lemma sha256_prefix_eqb a b :
  String.eqb ("sha256:" +:+ EncodeToString a) ("sha256:" +:+ EncodeToString b) = true
  <-> a = b.
Proof.
  rewrite String.eqb_eq. split; [|by intros ->].
  intros H. cbn in H. injection H as H. by apply EncodeToString_inj.
Qed.

(** C8.  [CalculateChecksum] gives "sha256:" followed by the 64 lower-case
    hexadecimal digits of the SHA-256 digest of the content.  A record with
    that checksum and the matching size validates with all four flags true
    against a store that holds the content; after one byte of the stored
    file is replaced, so that its digest differs, ChecksumOK and Valid are
    false while the size still matches. *)
Theorem checksum_round_trip (files : gmap string (list Byte.byte))
    (md : BackupMetadata) (content : list Byte.byte) :
  dataFile md <> EmptyString ->
  CompressedSize (Backup md) = Z.of_nat (length content) ->
  CalculateChecksum (Readable content) = Ok (Checksum (Backup md)) ->
  Checksum (Backup md) = "sha256:" +:+ EncodeToString (sum256 content)
  /\ String.length (EncodeToString (sum256 content)) = 64%nat
  /\ allChars isLowerHex (EncodeToString (sum256 content)) = true
  /\ Validate (healthyStore (memWrite files (dataFile md) content)) md
     = ([CallExists (dataFile md); CallSize (dataFile md); CallRead (dataFile md)],
        Ok {| BackupID := ID md; Valid := true; FileExists := true;
              SizeMatch := true; ChecksumOK := true; Errors := [] |})
  /\ (forall i b b',
        content !! i = Some b -> b' <> b ->
        sum256 (<[i := b']> content) <> sum256 content ->
        exists r,
          Validate (healthyStore (memWrite files (dataFile md) (<[i := b']> content))) md
          = ([CallExists (dataFile md); CallSize (dataFile md); CallRead (dataFile md)],
             Ok r)
          /\ FileExists r = true /\ SizeMatch r = true
          /\ ChecksumOK r = false /\ Valid r = false
          /\ Errors r = ["checksum mismatch"]).
Proof.
  intros Hf Hsize Hsum. cbn [CalculateChecksum] in Hsum. injection Hsum as Hsum.
  assert (Hne : Checksum (Backup md) <> EmptyString) by (by rewrite <- Hsum).
  assert (Hck : String.eqb (Checksum (Backup md)) EmptyString = false)
    by (by apply String.eqb_neq).
  split; [done|]. split; [by rewrite EncodeToString_length, sum256_length|].
  split; [apply EncodeToString_lower|].
  assert (Hrun : forall stored, length stored = length content ->
    exists r,
      Validate (healthyStore (memWrite files (dataFile md) stored)) md
      = ([CallExists (dataFile md); CallSize (dataFile md); CallRead (dataFile md)], Ok r)
      /\ FileExists r = true /\ SizeMatch r = true
      /\ ChecksumOK r = String.eqb ("sha256:" +:+ EncodeToString (sum256 stored))
                                   (Checksum (Backup md))
      /\ Valid r = ChecksumOK r
      /\ Errors r = (if ChecksumOK r then [] else ["checksum mismatch"])
      /\ BackupID r = ID md).
  { intros stored Hlen.
    set (w := healthyStore (memWrite files (dataFile md) stored)).
    assert (Hlook : memWrite files (dataFile md) stored !! dataFile md = Some stored)
      by apply lookup_insert_eq.
    destruct (Validate_checks w md (Z.of_nat (length stored)) stored)
      as (r & Hv & H1 & H2 & H3 & H4 & H5 & H6); [done| | | |].
    - cbn. rewrite Hlook. by rewrite bool_decide_eq_true_2 by (by eexists).
    - cbn. by rewrite Hlook.
    - intros _. split; [cbn; by rewrite Hlook|done].
    - unfold checksumVerdict in H3, H4, H5. rewrite Hck in Hv, H3, H4, H5.
      cbn [tempFault w healthyStore] in H3, H4, H5.
      rewrite Hlen, <- Hsize, Z.eqb_refl in H2.
      rewrite H2 in H4, H5. cbn in H4, H5.
      exists r. split; [exact Hv|]. split; [done|]. split; [done|].
      split; [done|]. split; [by rewrite H4, H3|]. split; [|done].
      rewrite H5, H3. by destruct (String.eqb _ _). }
  split.
  - destruct (Hrun content eq_refl) as (r & -> & H1 & H2 & H3 & H4 & H5 & H6).
    rewrite <- Hsum in H3. rewrite String.eqb_refl in H3.
    rewrite H3 in H4, H5. destruct r; cbn in *; by subst.
  - intros i b b' Hi Hb Hsha.
    destruct (Hrun (<[i := b']> content)) as (r & Hv & H1 & H2 & H3 & H4 & H5 & H6).
    { apply length_insert. }
    assert (ChecksumOK r = false) as Hbad.
    { rewrite H3, <- Hsum. apply not_true_is_false.
      intros Heq%sha256_prefix_eqb. done. }
    exists r. rewrite Hbad in H4, H5. done.
Qed.

(* --------------------------------------------------------------------- *)
(** ** The retry wrapper *)
(* --------------------------------------------------------------------- *)


Lemma append_nil b : EmptyString +:+ b = b.
Proof. reflexivity. Qed.

Lemma append_cons c a b : String c a +:+ b = String c (a +:+ b).
Proof. reflexivity. Qed.

Lemma lowerString_length s : String.length (lowerString s) = String.length s.
Proof.
  induction s as [|c s IH]; [done|].
  simpl. by rewrite IH.
Qed.

Lemma append_length a b :
  String.length (a +:+ b) = (String.length a + String.length b)%nat.
Proof.
  induction a as [|c a IH]; [done|].
  rewrite append_cons. simpl. by rewrite IH.
Qed.

Lemma append_empty_r a : a +:+ EmptyString = a.
Proof.
  induction a as [|c a IH]; [done|].
  by rewrite append_cons, IH.
Qed.

Lemma equalFoldLoop_spec a b :
  String.length a = String.length b ->
  equalFoldLoop a b = true <-> lowerString a = lowerString b.
Proof.
  revert b. induction a as [|ca a IH]; intros [|cb b] Hlen; try discriminate Hlen.
  - done.
  - simpl. destruct (Ascii.eqb_spec (lowerByte ca) (lowerByte cb)) as [->|Hne].
    + rewrite IH by (simpl in Hlen; lia). split; [by intros ->|by intros [=]].
    + split; [done|]. intros [=]. done.
Qed.

Lemma equalFoldSlice_spec a b :
  equalFoldSlice a b = true <-> lowerString a = lowerString b.
Proof.
  unfold equalFoldSlice.
  destruct (Nat.eqb_spec (String.length a) (String.length b)) as [Hlen|Hlen]; simpl.
  - by apply equalFoldLoop_spec.
  - split; [done|]. intros H. apply (f_equal String.length) in H.
    by rewrite !lowerString_length in H.
Qed.

Lemma substring_prefix mid post :
  String.substring 0 (String.length mid) (mid +:+ post) = mid.
Proof.
  induction mid as [|c mid IH].
  - rewrite append_nil. by destruct post.
  - rewrite append_cons. simpl. by rewrite IH.
Qed.

Lemma substring_split n s :
  exists post, s = String.substring 0 n s +:+ post.
Proof.
  revert s. induction n as [|n IH]; intros s.
  - exists s. by destruct s.
  - destruct s as [|c s]; simpl.
    + by exists EmptyString.
    + destruct (IH s) as [post Hpost]. exists post.
      by rewrite append_cons, <- Hpost.
Qed.

(** The test made at one start position. *)
Lemma prefix_match_spec s sub :
  equalFoldSlice (String.substring 0 (String.length sub) s) sub = true
  <-> exists mid post, s = mid +:+ post /\ lowerString mid = lowerString sub.
Proof.
  rewrite equalFoldSlice_spec. split.
  - intros H. destruct (substring_split (String.length sub) s) as [post Hpost].
    by exists (String.substring 0 (String.length sub) s), post.
  - intros (mid & post & -> & H).
    assert (String.length sub = String.length mid) as ->.
    { apply (f_equal String.length) in H. by rewrite !lowerString_length in H. }
    by rewrite substring_prefix.
Qed.

Lemma containsLowerLoop_spec n s sub :
  containsLowerLoop n s sub = true
  <-> exists pre mid post,
        s = pre +:+ mid +:+ post /\ (String.length pre < n)%nat
        /\ lowerString mid = lowerString sub.
Proof.
  revert s. induction n as [|n IH]; intros s.
  - simpl. split; [done|]. intros (? & ? & ? & _ & ? & _). lia.
  - cbn [containsLowerLoop].
    destruct (equalFoldSlice _ sub) eqn:E.
    + split; [|done]. intros _.
      apply prefix_match_spec in E as (mid & post & -> & H).
      exists EmptyString, mid, post. rewrite append_nil. simpl.
      split; [done|]. split; [lia|done].
    + assert (~ exists mid post, s = mid +:+ post /\ lowerString mid = lowerString sub) as Hno.
      { rewrite <- prefix_match_spec. by rewrite E. }
      destruct s as [|c s].
      * split; [done|]. intros (pre & mid & post & Hs & _ & H).
        destruct pre; [|done]. destruct Hno. by exists mid, post.
      * rewrite IH. split.
        -- intros (pre & mid & post & -> & Hlen & H).
           exists (String c pre), mid, post. rewrite append_cons. simpl.
           split; [done|]. split; [lia|done].
        -- intros (pre & mid & post & Hs & Hlen & H).
           destruct pre as [|c' pre].
           ++ destruct Hno. by exists mid, post.
           ++ rewrite append_cons in Hs. injection Hs as -> ->.
              exists pre, mid, post. simpl in Hlen. split; [done|]. split; [lia|done].
Qed.

Lemma contains_spec s sub : contains s sub = true <-> containsFold s sub.
Proof.
  unfold contains, containsFold. split.
  - intros [Hlen H]%andb_true_iff. apply orb_true_iff in H as [H|H].
    + apply String.eqb_eq in H as ->. exists EmptyString, sub, EmptyString.
      by rewrite append_nil, append_empty_r.
    + apply andb_true_iff in H as [_ H]. unfold containsLower in H.
      destruct (_ <? _)%nat; [done|].
      apply containsLowerLoop_spec in H as (pre & mid & post & -> & _ & H).
      by exists pre, mid, post.
  - intros (pre & mid & post & -> & H).
    assert (String.length sub = String.length mid) as Hlen.
    { apply (f_equal String.length) in H. by rewrite !lowerString_length in H. }
    rewrite !append_length, Hlen.
    apply andb_true_iff. split; [apply Nat.leb_le; lia|].
    destruct (String.eqb_spec (pre +:+ mid +:+ post) sub) as [|Hne]; [done|]. simpl.
    apply andb_true_iff. split.
    + apply Nat.ltb_lt.
      destruct pre, mid, post; simpl in *; try lia.
      destruct sub; [done|simpl in Hlen; lia].
    + unfold containsLower. rewrite !append_length.
      destruct (Nat.ltb_spec (String.length pre + (String.length mid + String.length post))
                  (String.length sub)); [lia|].
      apply containsLowerLoop_spec. exists pre, mid, post.
      split; [done|]. split; [lia|done].
Qed.

(** Which errors are not worth another attempt. *)
Lemma isRetryable_false_iff e :
  isRetryable (Some e) = false
  <-> IsCanceled e = true \/ IsDeadlineExceeded e = true
      \/ exists phrase, In phrase nonRetryableErrors /\ containsFold (Error e) phrase.
Proof.
  unfold isRetryable.
  destruct (IsCanceled e); [simpl; tauto|].
  destruct (IsDeadlineExceeded e); [simpl; tauto|]. cbn [orb].
  rewrite negb_false_iff, existsb_exists.
  split.
  - intros (phrase & Hin & H). right. right. exists phrase. split; [done|].
    by apply contains_spec.
  - intros [|[|(phrase & Hin & H)]]; [done..|]. exists phrase. split; [done|].
    by apply contains_spec.
Qed.

(** The two [errors.Is] checks find the signals of the specification. *)
Lemma IsCanceled_spec e : IsCanceled e = true <-> cancellationError e.
Proof.
  unfold cancellationError. split.
  - induction e as [| |msg|prefix inner IH]; cbn; try discriminate.
    + intros _. constructor.
    + intros H. constructor. by apply IH.
  - intros H. remember Canceled as target eqn:Ht.
    induction H as [|prefix inner H IH]; [by subst|]. cbn. by apply IH.
Qed.

Lemma IsDeadlineExceeded_spec e : IsDeadlineExceeded e = true <-> deadlineError e.
Proof.
  unfold deadlineError. split.
  - induction e as [| |msg|prefix inner IH]; cbn; try discriminate.
    + intros _. constructor.
    + intros H. constructor. by apply IH.
  - intros H. remember DeadlineExceeded as target eqn:Ht.
    induction H as [|prefix inner H IH]; [by subst|]. cbn. by apply IH.
Qed.

(** The case folding of the code identifies exactly the bytes, and the
    texts, that differ at most in letter case. *)
Lemma sameLetter_lowerByte c d : sameLetter c d <-> lowerByte c = lowerByte d.
Proof.
  unfold sameLetter, lowerByte. cbv zeta.
  pose proof (nat_ascii_bounded c) as Hc. pose proof (nat_ascii_bounded d) as Hd.
  pose proof (ascii_nat_embedding c) as Ec. pose proof (ascii_nat_embedding d) as Ed.
  assert (Hinj : forall i j, (i < 256)%nat -> (j < 256)%nat ->
                   ascii_of_nat i = ascii_of_nat j -> i = j).
  { intros i j Hi Hj H. apply (f_equal nat_of_ascii) in H.
    by rewrite !nat_ascii_embedding in H. }
  destruct (Nat.leb_spec 65 (nat_of_ascii c)), (Nat.leb_spec (nat_of_ascii c) 90),
    (Nat.leb_spec 65 (nat_of_ascii d)), (Nat.leb_spec (nat_of_ascii d) 90);
    cbn [andb]; split.
  all: try (intros [->|(k & Hk & [[Hn Hm]|[Hn Hm]])]; [done || lia|..]; try lia;
            first [ rewrite <- Ed, Hn, Hm; f_equal; lia
                  | rewrite <- Ec, Hn, Hm; f_equal; lia ]).
  all: intros Hlow.
  all: try (left; congruence).
  all: try (left; rewrite <- Ec, <- Ed; f_equal;
            apply Hinj in Hlow; lia).
  all: try (right; exists (nat_of_ascii c - 65)%nat; split; [lia|]; left;
            split; [lia|]; rewrite <- Ed in Hlow; apply Hinj in Hlow; lia).
  all: right; exists (nat_of_ascii d - 65)%nat; split; [lia|]; right;
       split; [|lia]; rewrite <- Ec in Hlow; apply Hinj in Hlow; lia.
Qed.

Lemma sameText_lowerString a b : sameText a b <-> lowerString a = lowerString b.
Proof.
  split.
  - induction 1 as [|c d s t Hcd _ IH]; [done|]. cbn.
    apply sameLetter_lowerByte in Hcd. by rewrite Hcd, IH.
  - revert b. induction a as [|c a IH]; intros [|d b] H; try discriminate.
    + constructor.
    + cbn in H. injection H as Hcd Hab.
      constructor; [by apply sameLetter_lowerByte|by apply IH].
Qed.

Lemma containsIgnoringCase_fold s sub :
  containsIgnoringCase s sub <-> containsFold s sub.
Proof.
  unfold containsIgnoringCase, containsFold.
  split; intros (pre & mid & post & Hs & H); exists pre, mid, post;
    (split; [done|]); by apply sameText_lowerString.
Qed.

(** [isRetryable] refuses exactly the non-retryable errors of the
    specification. *)
Lemma isRetryable_spec e : isRetryable (Some e) = false <-> nonRetryableError e.
Proof.
  rewrite isRetryable_false_iff, IsCanceled_spec, IsDeadlineExceeded_spec.
  unfold nonRetryableError, indicates.
  setoid_rewrite containsIgnoringCase_fold.
  split.
  - intros [H|[H|(phrase & Hin & H)]]; [tauto|tauto|].
    right. right.
    cbn in Hin. destruct Hin as [<-|[<-|[<-|[<-|[<-|[<-|[]]]]]]].
    + right. left. exists "permission denied". split; [by left|done].
    + right. left. exists "access denied". split; [by right; left|done].
    + left. exists "authentication failed". split; [by left|done].
    + left. exists "invalid password". split; [by right; left|done].
    + right. right. exists "database does not exist". split; [by left|done].
    + right. right. exists "role does not exist". split; [by right; left|done].
  - intros [H|[H|[(phrase & Hin & H)|[(phrase & Hin & H)|(phrase & Hin & H)]]]];
      [tauto|tauto|right; right; exists phrase; split; [|done]..];
      cbn in Hin |- *; tauto.
Qed.

Lemma isRetryable_true_spec e : isRetryable (Some e) = true <-> retryableError e.
Proof.
  unfold retryableError. rewrite <- isRetryable_spec.
  destruct (isRetryable (Some e)); split; done.
Qed.

Lemma failsWith_retryable {T S} (fn : S -> (T * option error) * S) s :
  failsWith fn retryableError s <-> failsRetryably fn s.
Proof.
  unfold failsWith, failsRetryably.
  split; intros (e & He & H); exists e; (split; [done|]); by apply isRetryable_true_spec.
Qed.

(** Powers of a rational with a natural exponent. *)
Lemma Qpower_nat_succ (q : Q) (i : nat) :
  (q ^ Z.of_nat (S i) == q ^ Z.of_nat i * q)%Q.
Proof.
  rewrite Nat2Z.inj_succ. unfold Z.succ.
  rewrite Qpower_plus' by lia. reflexivity.
Qed.

Lemma Qpower_nat_nonneg (q : Q) (i : nat) : (0 <= q -> 0 <= q ^ Z.of_nat i)%Q.
Proof. apply Qpower_0_le. Qed.

Lemma Qpower_nat_le_1 (q : Q) (i : nat) :
  (0 <= q)%Q -> (q <= 1)%Q -> (q ^ Z.of_nat i <= 1)%Q.
Proof.
  intros H0 H1. induction i as [|i IH].
  - change (1 <= 1)%Q. apply Qle_refl.
  - rewrite Qpower_nat_succ. pose proof (Qpower_nat_nonneg q i H0). nra.
Qed.

Section RetryFacts.
Context {T St float64 : Type}.
Variable scaleDuration : Z -> float64 -> Z.
Variable zero : T.
Variable ctx : Context.
Variable cfg : RetryConfig (float64 := float64).
Variable fn : St -> (T * option error) * St.

Abbreviation loop := (retryLoop scaleDuration zero ctx cfg fn).
Abbreviation next := (nextWait scaleDuration cfg).
Abbreviation stateAfter := (opStateAfter fn).
Abbreviation err := (errorOf fn).
Abbreviation rounds := (failedRounds scaleDuration cfg).
Abbreviation failing := (failsRetryably fn).


Lemma opStateAfter_S n s : stateAfter (S n) s = stateAfter n (snd (fn s)).
Proof. unfold opStateAfter. by rewrite Nat.iter_succ_r. Qed.

Lemma retryLoop_failed_rounds k :
  forall rem attempt wait lastErr r,
    (k < rem)%nat ->
    attempt + Z.of_nat rem - 1 = MaxAttempts cfg ->
    (forall j, (j < 2 * k)%nat -> doneAt ctx (selects r + j) = false) ->
    (forall i, (i < k)%nat -> failing (stateAfter i (opState r))) ->
    loop rem attempt wait lastErr r
    = loop (rem - k)%nat (attempt + Z.of_nat k) (Nat.iter k next wait)
        (lastErrAfter fn k (opState r) lastErr)
        {| opState := stateAfter k (opState r);
           selects := selects r + 2 * k;
           events := events r ++ rounds k wait |}.
Proof.
  induction k as [|k IH]; intros rem attempt wait lastErr r Hk Hrem Hctx Hfail.
  - destruct r as [s n evs]. cbn.
    rewrite Nat.sub_0_r, Z.add_0_r, Nat.add_0_r, app_nil_r. done.
  - destruct rem as [|rem]; [lia|].
    destruct (Hfail O) as (e & He & Hre); [lia|]. cbn in He.
    cbn [retryLoop observe Retry.record selects opState events].
    rewrite <- (Nat.add_0_r (selects r)) at 1. rewrite Hctx by lia.
    unfold errorOf in He.
    destruct (fn (opState r)) as [[res oe] s'] eqn:Hfn. cbn in He. subst oe.
    rewrite Hre. cbn [negb].
    assert ((attempt <? MaxAttempts cfg) = true) as -> by (apply Z.ltb_lt; lia).
    replace (S (selects r)) with (selects r + 1)%nat by lia.
    rewrite Hctx by lia.
    fold (nextWait scaleDuration cfg wait).
    rewrite IH; cbn [opState selects events].
    + f_equal.
      * lia.
      * by rewrite Nat.iter_succ_r.
      * destruct k as [|k]; cbn [lastErrAfter].
        -- unfold errorOf. cbn. by rewrite Hfn.
        -- rewrite opStateAfter_S. by rewrite Hfn.
      * cbn [observe Retry.record selects opState events failedRounds].
        rewrite opStateAfter_S, Hfn. cbn [snd]. f_equal; [lia|].
        by rewrite <- !app_assoc.
    + lia.
    + lia.
    + intros j Hj. cbn [observe Retry.record selects].
      replace (S (S (selects r)) + j)%nat with (selects r + (2 + j))%nat by lia.
      apply Hctx. lia.
    + intros i Hi. specialize (Hfail (S i)). rewrite opStateAfter_S, Hfn in Hfail.
      apply Hfail. lia.
Qed.

Abbreviation run := (WithRetry scaleDuration zero ctx cfg fn).

Lemma calls_app evs evs' : calls (evs ++ evs') = (calls evs + calls evs')%nat.
Proof. unfold calls. by rewrite List.filter_app, length_app. Qed.

Lemma calls_failedRounds k w : calls (rounds k w) = k.
Proof.
  revert w. induction k as [|k IH]; intros w; [done|].
  cbn [failedRounds]. change (calls (EvCall :: EvSleep w :: ?l)) with (S (calls l)).
  by rewrite IH.
Qed.

Lemma waits_app evs evs' : waits (evs ++ evs') = waits evs ++ waits evs'.
Proof.
  induction evs as [|[|d] evs IH]; simpl; [done|done|by rewrite IH].
Qed.

Lemma waits_failedRounds k w :
  waits (rounds k w) = map (fun i => Nat.iter i next w) (seq 0 k).
Proof.
  revert w. induction k as [|k IH]; intros w; [done|].
  cbn [failedRounds waits seq map]. f_equal.
  rewrite IH, <- seq_shift, map_map. apply map_ext. intros i.
  by rewrite Nat.iter_succ_r.
Qed.

(** All [n] attempts allowed by the configuration fail with a retryable
    error and the context is never found done. *)
Lemma retry_all_fail (s0 : St) (n : nat) :
  MaxAttempts cfg = Z.of_nat (S n) ->
  (forall j, (j < 2 * n + 1)%nat -> doneAt ctx j = false) ->
  (forall i, (i <= n)%nat -> failing (stateAfter i s0)) ->
  run s0 = ((zero, err (stateAfter n s0)),
            {| opState := stateAfter (S n) s0;
               selects := 2 * n + 1;
               events := rounds n (InitialWait cfg) ++ [EvCall] |}).
Proof.
  intros Hmax Hctx Hfail. unfold WithRetry.
  rewrite Hmax, Nat2Z.id.
  rewrite (retryLoop_failed_rounds n); cbn [opState selects events].
  - replace (S n - n)%nat with 1%nat by lia.
    destruct (Hfail n) as (e & He & Hre); [lia|].
    cbn [retryLoop observe Retry.record selects opState events].
    rewrite Hctx by lia.
    unfold errorOf in He |- *.
    destruct (fn (stateAfter n s0)) as [[res oe] s'] eqn:Hfn. cbn in He. subst oe.
    rewrite Hre. cbn [negb fst snd].
    assert ((1 + Z.of_nat n <? MaxAttempts cfg) = false) as -> by (apply Z.ltb_ge; lia).
    unfold Retry.record, observe. cbn [selects opState events app].
    change (stateAfter (S n) s0) with (snd (fn (stateAfter n s0))).
    rewrite Hfn. cbn [snd]. do 2 f_equal. lia.
  - lia.
  - lia.
  - intros j Hj. apply Hctx. lia.
  - intros i Hi. apply Hfail. lia.
Qed.

(** One step of the wait sequence against the formula: from a wait that is
    the capped product [P] to the capped product [P * q]. *)
Lemma nextWait_step (q P : Q) (w : Z) :
  scalesBy scaleDuration cfg q ->
  0 <= w <= MaxWait cfg ->
  (0 <= q)%Q ->
  (inject_Z w == Qmin P (inject_Z (MaxWait cfg)))%Q ->
  ((P <= inject_Z (MaxWait cfg))%Q \/ (1 <= q)%Q) ->
  ((P * q <= inject_Z (MaxWait cfg))%Q -> exists k, (inject_Z k == P * q)%Q) ->
  (inject_Z (next w) == Qmin (P * q) (inject_Z (MaxWait cfg)))%Q
  /\ 0 <= next w <= MaxWait cfg.
Proof.
  intros Hscale Hw Hq Hmin Hside Hwhole.
  destruct (Hscale w Hw) as [Hexact Habove].
  set (M := inject_Z (MaxWait cfg)) in *.
  assert (HM : (0 <= M)%Q)
    by (unfold M; change 0%Q with (inject_Z 0); rewrite <- Zle_Qle; lia).
  assert (HwQ : (0 <= inject_Z w)%Q)
    by (change 0%Q with (inject_Z 0); rewrite <- Zle_Qle; lia).
  unfold nextWait. cbv zeta.
  destruct (Qlt_le_dec M P) as [HP|HP].
  - (* the wait is at the cap already *)
    destruct Hside as [Hside|Hq1]; [lra|].
    assert (HwM : (inject_Z w == M)%Q) by (rewrite Hmin; apply Q.min_r; lra).
    assert (w = MaxWait cfg) as Heq by (apply inject_Z_injective; exact HwM).
    assert (Hformula : (Qmin (P * q) M == M)%Q) by (apply Q.min_r; nra).
    rewrite Hformula.
    destruct (Qlt_le_dec M (inject_Z w * q)) as [Hup|Hup].
    + specialize (Habove Hup).
      destruct (Z.ltb_spec (MaxWait cfg) (scaleDuration w (Multiplier cfg))).
      * split; [reflexivity|lia].
      * assert (scaleDuration w (Multiplier cfg) = MaxWait cfg) as -> by lia.
        split; [reflexivity|lia].
    + assert (Hsame : (inject_Z (MaxWait cfg) == inject_Z w * q)%Q).
      { fold M. rewrite HwM in *. nra. }
      rewrite (Hexact (MaxWait cfg) ltac:(lia) Hsame), Z.ltb_irrefl. split; [reflexivity|lia].
  - (* the wait is the product so far *)
    assert (HwP : (inject_Z w == P)%Q) by (rewrite Hmin; apply Q.min_l; lra).
    destruct (Qlt_le_dec M (P * q)) as [Hup|Hup].
    + assert (Hformula : (Qmin (P * q) M == M)%Q) by (apply Q.min_r; lra).
      rewrite Hformula.
      assert (Hup' : (M < inject_Z w * q)%Q) by (rewrite HwP; exact Hup).
      specialize (Habove Hup').
      destruct (Z.ltb_spec (MaxWait cfg) (scaleDuration w (Multiplier cfg))).
      * split; [reflexivity|lia].
      * assert (scaleDuration w (Multiplier cfg) = MaxWait cfg) as -> by lia.
        split; [reflexivity|lia].
    + destruct (Hwhole Hup) as (k & Hk).
      assert (Hk' : (inject_Z k == inject_Z w * q)%Q) by (rewrite HwP; exact Hk).
      assert (0 <= k <= MaxWait cfg) as Hkrange.
      { split; rewrite Zle_Qle;
          [change (inject_Z 0) with 0%Q; rewrite Hk'; nra
          |fold M; rewrite Hk; exact Hup]. }
      rewrite (Hexact k ltac:(lia) Hk').
      assert ((MaxWait cfg <? k) = false) as -> by (apply Z.ltb_ge; lia).
      split; [|lia]. rewrite Hk. symmetry. apply Q.min_l. exact Hup.
Qed.

(** The wait sequence against the formula of the specification: the wait
    that follows attempt [i + 1]. *)
Lemma nextWait_formula (q : Q) (n : nat) :
  0 <= InitialWait cfg <= MaxWait cfg ->
  (0 <= q)%Q ->
  scalesBy scaleDuration cfg q ->
  (forall k, (1 <= k <= n)%nat -> wholeBelowCap cfg q k) ->
  forall i, (i < n)%nat ->
    (inject_Z (Nat.iter i next (InitialWait cfg)) == formulaWait cfg q (S i))%Q
    /\ 0 <= Nat.iter i next (InitialWait cfg) <= MaxWait cfg.
Proof.
  intros Hinit Hq Hscale Hwhole.
  assert (HinitQ : (0 <= inject_Z (InitialWait cfg) <= inject_Z (MaxWait cfg))%Q).
  { change 0%Q with (inject_Z 0). rewrite <- !Zle_Qle. lia. }
  induction i as [|i IH]; intros Hi; unfold formulaWait.
  - replace (Z.of_nat 1 - 1) with 0 by lia.
    change (Nat.iter 0 next (InitialWait cfg)) with (InitialWait cfg).
    split; [|lia]. change (q ^ 0)%Q with 1%Q. rewrite Qmult_1_r.
    symmetry. apply Q.min_l. tauto.
  - destruct IH as [IH Hrange]; [lia|]. unfold formulaWait in IH.
    replace (Z.of_nat (S i) - 1) with (Z.of_nat i) in IH by lia.
    replace (Z.of_nat (S (S i)) - 1) with (Z.of_nat (S i)) by lia.
    rewrite Nat.iter_succ.
    pose proof (Qpower_nat_nonneg q i Hq) as Hpow.
    destruct (nextWait_step q (inject_Z (InitialWait cfg) * q ^ Z.of_nat i)
                (Nat.iter i next (InitialWait cfg))) as [Hnext Hrange'];
      [done|done|done|done| | |].
    + destruct (Qlt_le_dec q 1) as [Hlt|Hge]; [left|by right].
      pose proof (Qpower_nat_le_1 q i Hq ltac:(lra)). nra.
    + intros Hbelow.
      destruct (Hwhole (S (S i)) ltac:(lia)) as (k & Hk).
      * replace (Z.of_nat (S (S i)) - 1) with (Z.of_nat (S i)) by lia.
        rewrite Qpower_nat_succ, Qmult_assoc. exact Hbelow.
      * exists k. rewrite Hk.
        replace (Z.of_nat (S (S i)) - 1) with (Z.of_nat (S i)) by lia.
        rewrite Qpower_nat_succ, Qmult_assoc. reflexivity.
    + split; [|done]. rewrite Hnext.
      rewrite Qpower_nat_succ, Qmult_assoc. reflexivity.
Qed.

(** The waits of a run in which every attempt fails: the first is
    [InitialWait], each later one the previous one scaled and capped. *)
Lemma retry_all_fail_run (s0 : St) :
  let n := Z.to_nat (MaxAttempts cfg) in
  (forall j, (j < 2 * n - 1)%nat -> doneAt ctx j = false) ->
  (forall i, (i < n)%nat -> failing (stateAfter i s0)) ->
  calls (events (snd (run s0))) = n
  /\ waits (events (snd (run s0)))
     = map (fun i => Nat.iter i next (InitialWait cfg)) (seq 0 (n - 1))
  /\ fst (fst (run s0)) = zero
  /\ (1 <= MaxAttempts cfg ->
      snd (fst (run s0)) = err (stateAfter (n - 1) s0)).
Proof.
  intros n Hctx Hfail.
  destruct n as [|k] eqn:Hn.
  - unfold WithRetry. subst n. rewrite Hn. cbn. repeat split; [done..|lia].
  - rewrite (retry_all_fail s0 k).
    + cbn [fst snd events].
      rewrite calls_app, calls_failedRounds, waits_app, waits_failedRounds.
      replace (S k - 1)%nat with k by lia. cbn. rewrite app_nil_r.
      repeat split; [lia|done..].
    + lia.
    + intros j Hj. apply Hctx. lia.
    + intros i Hi. apply Hfail. lia.
Qed.

(** C7, amended.  When every call that is made fails with a retryable error
    and the context is never done, the operation is called exactly
    maxAttempts times, maxAttempts - 1 waits are made, and the zero value
    and the error of the last call are returned.  The wait between attempt
    k and attempt k+1 is initialWait * q^(k-1) capped at maxWait, q >= 0
    being the value of the multiplier, when initialWait is between 0 and
    maxWait, scaling by the multiplier follows the product by q, and the
    products of the formula that are not above the cap are whole numbers of
    nanoseconds. *)
Theorem retry_exhausts_attempts (s0 : St) :
  (forall j, doneAt ctx j = false) ->
  let n := Z.to_nat (MaxAttempts cfg) in
  (forall i, (i < n)%nat -> failsWith fn retryableError (stateAfter i s0)) ->
  calls (events (snd (run s0))) = n
  /\ fst (fst (run s0)) = zero
  /\ (1 <= MaxAttempts cfg ->
      snd (fst (run s0)) = err (stateAfter (n - 1) s0))
  /\ length (waits (events (snd (run s0)))) = (n - 1)%nat
  /\ (forall q : Q,
        0 <= InitialWait cfg <= MaxWait cfg ->
        (0 <= q)%Q ->
        scalesBy scaleDuration cfg q ->
        (forall k, (1 <= k < n)%nat -> wholeBelowCap cfg q k) ->
        forall k w,
          (1 <= k)%nat ->
          waits (events (snd (run s0))) !! (k - 1)%nat = Some w ->
          (inject_Z w == formulaWait cfg q k)%Q).
Proof.
  intros Hctx n Hfail.
  destruct (retry_all_fail_run s0) as (H1 & H2 & H3 & H4).
  { intros j _. apply Hctx. }
  { intros i Hi. apply failsWith_retryable. by apply Hfail. }
  fold n in H1, H2, H4.
  split; [done|]. split; [done|]. split; [done|]. split.
  - by rewrite H2, length_map, length_seq.
  - intros q Hinit Hq Hscale Hwhole k w Hk Hw.
    rewrite H2 in Hw. apply list_lookup_fmap_Some in Hw as (i & -> & Hi).
    apply lookup_seq in Hi as [-> Hi]. cbn [Nat.add] in *.
    replace k with (S (k - 1)) at 2 by lia.
    apply (nextWait_formula q (n - 1)); [done|done|done| |done].
    intros k' Hk'. apply Hwhole. lia.
Qed.

Abbreviation res := (resultOf fn).


End RetryFacts.

(* --------------------------------------------------------------------- *)
(** ** Backup ids *)
(* --------------------------------------------------------------------- *)



Lemma allFrom_spec n z P :
  allFrom n z P = true -> forall x, z <= x < z + Z.of_nat n -> P x = true.
Proof.
  revert z. induction n as [|n IH]; intros z H x Hx; [lia|].
  cbn [allFrom] in H. apply andb_true_iff in H as [H1 H2].
  destruct (Z.eq_dec x z) as [->|Hne]; [done|].
  apply (IH (z + 1)); [done|lia].
Qed.

Lemma allFrom_zero (N : Z) P :
  allFrom (Z.to_nat N) 0 P = true -> forall z, 0 <= z < N -> P z = true.
Proof. intros H z Hz. apply (allFrom_spec _ _ _ H). lia. Qed.

Lemma appendInt_2 x : 0 <= x < 100 -> appendInt x 2 = fixedDigits 2 x.
Proof.
  intros Hx. apply String.eqb_eq.
  apply (allFrom_zero 100 (fun z => String.eqb (appendInt z 2) (fixedDigits 2 z)));
    [by vm_compute|lia].
Qed.

Lemma appendInt_4 x : 0 <= x < 10000 -> appendInt x 4 = fixedDigits 4 x.
Proof.
  intros Hx. apply String.eqb_eq.
  apply (allFrom_zero 10000 (fun z => String.eqb (appendInt z 4) (fixedDigits 4 z)));
    [by vm_compute|lia].
Qed.


Lemma civil_era_shift days :
  snd (fst (civil days)) = snd (fst (civil ((days + 719468) mod 146097 - 719468)))
  /\ snd (civil days) = snd (civil ((days + 719468) mod 146097 - 719468)).
Proof.
  unfold civil. cbv zeta.
  replace ((days + 719468) mod 146097 - 719468 + 719468)
    with ((days + 719468) mod 146097) by lia.
  set (z := days + 719468).
  assert (z mod 146097 / 146097 = 0) as Hera
    by (apply Z.div_small; apply Z.mod_pos_bound; lia).
  assert (z - z / 146097 * 146097 = z mod 146097) as Hdoe
    by (rewrite Z.mod_eq by lia; lia).
  rewrite Hera, Hdoe. replace (z mod 146097 - 0 * 146097) with (z mod 146097) by lia.
  done.
Qed.

Lemma month_day_range t : 1 <= Month t <= 12 /\ 1 <= Day t <= 31.
Proof.
  unfold Month, Day. destruct (civil_era_shift (wallDays t)) as [-> ->].
  set (doe := (wallDays t + 719468) mod 146097).
  assert (0 <= doe < 146097) as Hdoe by (apply Z.mod_pos_bound; lia).
  pose proof (allFrom_zero 146097 monthDayInRange) as H.
  specialize (H ltac:(by vm_compute) doe ltac:(lia)).
  unfold monthDayInRange in H.
  destruct (civil (doe - 719468)) as [[y m] d]. cbn [fst snd].
  rewrite !andb_true_iff in H. lia.
Qed.

Lemma clock_range t :
  0 <= HourOf t < 24 /\ 0 <= MinuteOf t < 60 /\ 0 <= SecondOf t < 60.
Proof.
  unfold HourOf, MinuteOf, SecondOf, secondOfDay.
  pose proof (Z.mod_pos_bound (wallSeconds t) 86400 ltac:(lia)).
  repeat split; Z.div_mod_to_equations; lia.
Qed.

Lemma wallSeconds_wallClockInUTC t : wallSeconds (wallClockInUTC t) = wallSeconds t.
Proof.
  unfold wallSeconds, wallClockInUTC. cbn [unixNano zoneOffset].
  rewrite Z.div_add by (unfold Second; lia). lia.
Qed.

Lemma Format_wall_clock t u :
  wallSeconds t = wallSeconds u ->
  Format_20060102_150405 t = Format_20060102_150405 u.
Proof.
  intros H. unfold Format_20060102_150405, Year, Month, Day, HourOf, MinuteOf,
    SecondOf, secondOfDay, wallDays. by rewrite H.
Qed.

Lemma fixedDigits_length w x : String.length (fixedDigits w x) = w.
Proof.
  revert x. induction w as [|w IH]; intros x; [done|].
  cbn [fixedDigits].
  assert (forall a b, String.length (a +:+ b) = (String.length a + String.length b)%nat) as Happ.
  { induction a as [|c a IHa]; intros b; [done|].
    change (String c a +:+ b) with (String c (a +:+ b)). simpl. by rewrite IHa. }
  rewrite Happ, IH. simpl. lia.
Qed.

(** C9, amended.  [GenerateBackupID t] is "backup_" followed by the date
    and time that the clock of [t]'s own location shows, as YYYYMMDD_HHMMSS
    (22 characters for the years 0 to 9999); it is the UTC date and time
    when that location is UTC, and two instants of the same second in the
    same location get the same id. *)
Theorem backup_id_is_local_wall_clock (t : Time) :
  GenerateBackupID t
    = "backup_" +:+ Format_20060102_150405 (UTC (wallClockInUTC t))
  /\ (zoneOffset t = 0 ->
      GenerateBackupID t = "backup_" +:+ Format_20060102_150405 (UTC t))
  /\ (forall u, zoneOffset u = zoneOffset t ->
        unixNano u / Second = unixNano t / Second ->
        GenerateBackupID u = GenerateBackupID t)
  /\ (0 <= Year t <= 9999 ->
      GenerateBackupID t
        = "backup_" +:+ fixedDigits 4 (Year t) +:+ fixedDigits 2 (Month t)
            +:+ fixedDigits 2 (Day t) +:+ "_" +:+ fixedDigits 2 (HourOf t)
            +:+ fixedDigits 2 (MinuteOf t) +:+ fixedDigits 2 (SecondOf t)
      /\ String.length (GenerateBackupID t) = 22%nat).
Proof.
  unfold GenerateBackupID. repeat split.
  - f_equal. apply Format_wall_clock.
    by rewrite <- (wallSeconds_wallClockInUTC t).
  - intros Hz. f_equal. apply Format_wall_clock.
    unfold wallSeconds, UTC. cbn [unixNano zoneOffset]. by rewrite Hz.
  - intros u Hoff Hsec. f_equal. apply Format_wall_clock.
    unfold wallSeconds. by rewrite Hoff, Hsec.
  - pose proof (month_day_range t) as [Hm Hd].
    pose proof (clock_range t) as (Hh & Hmi & Hs).
    unfold Format_20060102_150405.
    rewrite appendInt_4 by lia. by rewrite !appendInt_2 by lia.
  - pose proof (month_day_range t) as [Hm Hd].
    pose proof (clock_range t) as (Hh & Hmi & Hs).
    unfold Format_20060102_150405.
    rewrite appendInt_4 by lia. rewrite !appendInt_2 by lia.
    destruct (fixedDigits 4 (Year t)) as [|a [|b [|c [|d [|]]]]] eqn:E4;
      try (apply (f_equal String.length) in E4; rewrite fixedDigits_length in E4;
           discriminate E4).
    assert (forall x, exists a b, fixedDigits 2 x = String a (String b EmptyString)) as H2.
    { intros x. pose proof (fixedDigits_length 2 x) as Hl.
      destruct (fixedDigits 2 x) as [|a' [|b' [|]]]; try discriminate Hl. eauto. }
    destruct (H2 (Month t)) as (? & ? & ->). destruct (H2 (Day t)) as (? & ? & ->).
    destruct (H2 (HourOf t)) as (? & ? & ->). destruct (H2 (MinuteOf t)) as (? & ? & ->).
    destruct (H2 (SecondOf t)) as (? & ? & ->). reflexivity.
Qed.

(* --------------------------------------------------------------------- *)
(** ** The tests of the repository, run on the model *)
(* --------------------------------------------------------------------- *)

Example test_ClassifyBackup :
  ClassifyBackup (noon 2024 1 15) = [BackupTypeDaily]
  /\ ClassifyBackup (noon 2024 1 14) = [BackupTypeDaily; BackupTypeWeekly]
  /\ ClassifyBackup (noon 2024 2 1) = [BackupTypeDaily; BackupTypeMonthly]
  /\ ClassifyBackup (noon 2024 9 1)
     = [BackupTypeDaily; BackupTypeWeekly; BackupTypeMonthly].
Proof. by vm_compute. Qed.

Example test_GetPrimaryType :
  GetPrimaryType (noon 2024 1 15) = BackupTypeDaily
  /\ GetPrimaryType (noon 2024 1 14) = BackupTypeWeekly
  /\ GetPrimaryType (noon 2024 2 1) = BackupTypeMonthly
  /\ GetPrimaryType (noon 2024 9 1) = BackupTypeMonthly.
Proof. by vm_compute. Qed.

Example test_DetermineBackupsToDelete_Empty :
  DetermineBackupsToDelete (NewPolicy 7 4 12 365) feb1 [] = [].
Proof. reflexivity. Qed.

Example test_DetermineBackupsToDelete_KeepWeekly :
  map ID (DetermineBackupsToDelete (NewPolicy 0 2 0 0) feb1
            [ sample "backup-1" (noon 2024 1 7); sample "backup-2" (noon 2024 1 14);
              sample "backup-3" (noon 2024 1 21) ])
  = ["backup-1"].
Proof. by vm_compute. Qed.

Example test_DetermineBackupsToDelete_KeepMonthly :
  map ID (DetermineBackupsToDelete (NewPolicy 0 0 2 0) (noon 2024 3 2)
            [ sample "backup-1" (noon 2024 1 1); sample "backup-2" (noon 2024 2 1);
              sample "backup-3" (noon 2024 3 1) ])
  = ["backup-1"].
Proof. by vm_compute. Qed.

Example test_DetermineBackupsToDelete_MaxAge :
  map ID (DetermineBackupsToDelete (NewPolicy 100 100 100 7) feb1
            [recentBackup; oldBackup])
  = ["backup-old"].
Proof. by vm_compute. Qed.

Example test_DetermineBackupsToDelete_MixedTypes :
  map ID (DetermineBackupsToDelete (NewPolicy 2 1 1 0) feb1
            [ sample "daily-1" (noon 2024 1 16); sample "daily-2" (noon 2024 1 15);
              sample "daily-3" (noon 2024 1 12); sample "weekly-1" (noon 2024 1 14);
              sample "weekly-2" (noon 2024 1 7); sample "monthly-1" (noon 2024 1 1) ])
  = ["daily-3"; "weekly-2"].
Proof. by vm_compute. Qed.

Example test_Contains :
  contains "hello world" "world" = true
  /\ contains "hello world" "WORLD" = true
  /\ contains "hello" "hello" = true
  /\ contains "hello" "goodbye" = false
  /\ contains EmptyString "test" = false
  /\ contains "test" EmptyString = true.
Proof. by vm_compute. Qed.

Example test_EqualFoldSlice :
  equalFoldSlice "hello" "hello" = true
  /\ equalFoldSlice "Hello" "hello" = true
  /\ equalFoldSlice "HELLO" "hello" = true
  /\ equalFoldSlice "hello" "world" = false
  /\ equalFoldSlice "hi" "hello" = false.
Proof. by vm_compute. Qed.

Example test_IsRetryable :
  map isRetryable
    [ None; Some Canceled; Some DeadlineExceeded;
      Some (New "authentication failed"); Some (New "permission denied");
      Some (New "access denied"); Some (New "invalid password");
      Some (New "database does not exist"); Some (New "role does not exist");
      Some (New "connection refused"); Some (New "i/o timeout");
      Some (New "something went wrong") ]
  = [ false; false; false; false; false; false; false; false; false;
      true; true; true ].
Proof. by vm_compute. Qed.

Example test_WithRetry_MaxAttemptsExceeded :
  WithRetry exactScale EmptyString Background testConfig alwaysFails 0%nat
  = ((EmptyString, Some (New "persistent error")),
     {| opState := 3%nat; selects := 5;
        events := [EvCall; EvSleep 10; EvCall; EvSleep 20; EvCall] |}).
Proof. by vm_compute. Qed.

Example test_WithRetry_ContextCanceled :
  WithRetry exactScale EmptyString (cancelledAt 0) testConfig failTwice 0%nat
  = ((EmptyString, Some Canceled),
     {| opState := 0%nat; selects := 1; events := [] |}).
Proof. by vm_compute. Qed.

Example test_Validate_Success :
  Validate storeWithArtifact noChecksum
  = ([CallExists "backup-001.dump.gz"; CallSize "backup-001.dump.gz"],
     Ok {| BackupID := "backup-001"; Valid := true; FileExists := true;
           SizeMatch := true; ChecksumOK := true; Errors := [] |}).
Proof. by vm_compute. Qed.

Example test_Validate_ExistsError :
  Validate {| storage := {| Exists := fun _ => Fail (New "storage error");
                            Size := fun _ => Ok 0; Read := fun _ => Ok [] |};
              tempFault := NoFault |} noChecksum
  = ([CallExists "backup-001.dump.gz"],
     Fail (Wrap "failed to check file existence: " (New "storage error"))).
Proof. by vm_compute. Qed.

Example test_sha256_vectors :
  EncodeToString (sum256 (String.list_byte_of_string "abc"))
  = "ba7816bf8f01cfea414140de5dae2223b00361a396177a9cb410ff61f20015ad"
  /\ EncodeToString (sum256 [])
     = "e3b0c44298fc1c149afbf4c8996fb92427ae41e4649b934ca495991b7852b855"
  /\ EncodeToString (sum256 (String.list_byte_of_string
       "abcdbcdecdefdefgefghfghighijhijkijkljklmklmnlmnomnopnopq"))
     = "248d6a61d20638b8e5c026930c3e6039a33ce45964ff2167f6ecedd419db06c1".
Proof. by vm_compute. Qed.

Example test_sha256_constants :
  nth 0 K 0 = 0x428a2f98 /\ nth 63 K 0 = 0xc67178f2
  /\ nth 0 H0 0 = 0x6a09e667 /\ nth 7 H0 0 = 0x5be0cd19
  /\ length K = 64%nat /\ length H0 = 8%nat.
Proof. by vm_compute. Qed.

Example test_GenerateBackupID :
  GenerateBackupID utcStart = "backup_20240115_143045"
  /\ GenerateBackupID (Date 2024 1 15 12 0 0 0) <> GenerateBackupID (Date 2024 1 15 12 0 1 0).
Proof. split; [by vm_compute|]. vm_compute. discriminate. Qed.

(* --------------------------------------------------------------------- *)
(** ** The properties at concrete inputs *)
(* --------------------------------------------------------------------- *)

(** Every record of a concrete list. *)
Ltac each_record H :=
  repeat (destruct H as [<-|H]; [|]); [..|destruct H].

(** Decidable facts by evaluation. *)
Ltac by_evaluation :=
  match goal with
  | |- ?P => apply (@bool_decide_unpack P _); vm_compute; exact I
  end.

(** Four week days and keepDaily = 2: the two oldest are returned. *)
Lemma daily_only_deletes_oldest_witness :
  let del := DetermineBackupsToDelete (NewPolicy 2 0 0 0) feb1 weekdays in
  length del = 2%nat
  /\ del = drop 2 (sortSlice weekdays)
  /\ (forall d, In d del -> In d weekdays)
  /\ (forall d b, In d del -> In b weekdays -> ~ In b del ->
        After (Timestamp b) (Timestamp d) = true).
Proof.
  apply (daily_only_deletes_oldest 2 2 (NewPolicy 2 0 0 0) feb1 weekdays);
    try reflexivity.
  - by_evaluation.
  - by_evaluation.
  - intros b Hb. each_record Hb; split; vm_compute; discriminate.
Defined.

(** C1 as stated fails when two records share an id: two runs of the same
    second carry the same generated id, the newer one is kept by the daily
    quota, and the older one is then found in the keep map too; nothing is
    returned although k = 1. *)
Lemma daily_only_shared_id_counterexample :
  KeepDaily (NewPolicy 1 0 0 0) = 1
  /\ length sameSecond = (1 + 1)%nat
  /\ NoDup (map instant sameSecond)
  /\ (forall b, In b sameSecond ->
        Weekday (Timestamp b) <> Sunday /\ Day (Timestamp b) <> 1)
  /\ map ID sameSecond = ["backup_20240116_120000"; "backup_20240116_120000"]
  /\ DetermineBackupsToDelete (NewPolicy 1 0 0 0) feb1 sameSecond = []
  /\ length (DetermineBackupsToDelete (NewPolicy 1 0 0 0) feb1 sameSecond) <> 1%nat.
Proof.
  split; [reflexivity|]. split; [reflexivity|]. split; [by_evaluation|].
  split.
  { intros b Hb. each_record Hb; split; vm_compute; discriminate. }
  split; [by vm_compute|]. split; [by vm_compute|].
  vm_compute. discriminate.
Qed.

(** keepWeekly = 0 and keepMonthly = 1: Sunday 2024-09-01 is kept by the
    monthly quota, after a newer Sunday that no quota keeps. *)
Lemma dual_tier_record_counts_for_both_witness :
  lookupKeep (keptIDs (NewPolicy 0 0 1 0) sundays) (ID sep01) = true
  /\ ~ In sep01 (DetermineBackupsToDelete (NewPolicy 0 0 1 0) feb1 sundays)
  /\ DetermineBackupsToDelete (NewPolicy 0 0 1 0) feb1 sundays ⊆+ sundays.
Proof.
  destruct (dual_tier_record_counts_for_both (NewPolicy 0 0 1 0) feb1 sundays
              [sample "sep08" (noon 2024 9 8)] [sample "aug25" (noon 2024 8 25)] sep01)
    as (_ & _ & Hkept & Honce); try reflexivity.
  destruct Hkept as [Hk Hstay].
  { right. vm_compute. reflexivity. }
  split; [exact Hk|]. split; [|exact Honce].
  apply Hstay. left. vm_compute. discriminate.
Defined.

(** The max-age test of the repository: quotas of 100 and maxAgeDays = 7;
    the record of thirty days is returned, the record of one day is not. *)
Lemma max_age_adds_deletions_witness :
  In oldBackup (DetermineBackupsToDelete (NewPolicy 100 100 100 7) feb1
                  [recentBackup; oldBackup])
  /\ ~ In recentBackup (DetermineBackupsToDelete (NewPolicy 100 100 100 7) feb1
                          [recentBackup; oldBackup]).
Proof.
  split.
  - destruct (max_age_adds_deletions (NewPolicy 100 100 100 7) feb1
                [recentBackup; oldBackup] oldBackup) as (Hover & _ & _).
    + reflexivity.
    + right. by left.
    + apply Hover. vm_compute. reflexivity.
  - destruct (max_age_adds_deletions (NewPolicy 100 100 100 7) feb1
                [recentBackup; oldBackup] recentBackup) as (_ & _ & Hwithin).
    + reflexivity.
    + by left.
    + apply Hwithin.
      * vm_compute. reflexivity.
      * vm_compute. discriminate.
      * vm_compute. discriminate.
Defined.

(** The second half of C3 as stated fails: with keepDaily = 1 and
    maxAgeDays = 7 the record of two days is within the threshold and is
    returned, because the daily quota went to the newer record. *)
Lemma max_age_does_not_protect_counterexample :
  0 < MaxAgeDays (NewPolicy 1 0 0 7)
  /\ unixNano feb1 - instant jan30 <= MaxAgeDays (NewPolicy 1 0 0 7) * dayNanos
  /\ In jan30 (DetermineBackupsToDelete (NewPolicy 1 0 0 7) feb1 [recentBackup; jan30]).
Proof.
  split; [reflexivity|]. split; [vm_compute; discriminate|].
  assert (DetermineBackupsToDelete (NewPolicy 1 0 0 7) feb1 [recentBackup; jan30]
          = [jan30]) as -> by (by vm_compute).
  by left.
Qed.

(** A record with a wrong size and a wrong checksum: both failures are
    reported, after three storage calls.  The same record on a storage
    whose reads fail: the error of the read, and no result.  A record with
    a wrong checksum when the temporary copy cannot be opened: no
    comparison, and a valid result. *)
Lemma validate_runs_every_check_witness :
  Validate storeWithArtifact wrongSizeAndSum
  = ([CallExists "backup-001.dump.gz"; CallSize "backup-001.dump.gz";
      CallRead "backup-001.dump.gz"],
     Ok {| BackupID := "backup-001"; Valid := false; FileExists := true;
           SizeMatch := false; ChecksumOK := false;
           Errors := ["size mismatch: expected 1000, got 14"; "checksum mismatch"] |})
  /\ Validate brokenRead wrongSizeAndSum
     = ([CallExists "backup-001.dump.gz"; CallSize "backup-001.dump.gz";
         CallRead "backup-001.dump.gz"],
        Fail (Wrap "failed to read backup file: " (New "connection reset by peer")))
  /\ Validate unreadableTemp wrongSum
     = ([CallExists "backup-001.dump.gz"; CallSize "backup-001.dump.gz";
         CallRead "backup-001.dump.gz"],
        Ok {| BackupID := "backup-001"; Valid := true; FileExists := true;
              SizeMatch := true; ChecksumOK := false; Errors := [] |}).
Proof.
  split; [|split].
  - destruct (validate_runs_every_check storeWithArtifact wrongSizeAndSum) as [H _].
    destruct H as (_ & _ & H).
    + vm_compute. discriminate.
    + reflexivity.
    + destruct (H 14) as [_ Hread].
      * reflexivity.
      * discriminate.
      * destruct (Hread content) as (_ & _ & Hsum).
        -- reflexivity.
        -- etransitivity; [apply Hsum; reflexivity|]. vm_compute. reflexivity.
  - destruct (validate_runs_every_check brokenRead wrongSizeAndSum) as [H _].
    destruct H as (_ & _ & H).
    + vm_compute. discriminate.
    + reflexivity.
    + destruct (H 14) as [Hread _].
      * reflexivity.
      * discriminate.
      * etransitivity; [apply Hread; reflexivity|]. vm_compute. reflexivity.
  - destruct (validate_runs_every_check unreadableTemp wrongSum) as [H _].
    destruct H as (_ & _ & H).
    + vm_compute. discriminate.
    + reflexivity.
    + destruct (H 14) as [_ Hread].
      * reflexivity.
      * discriminate.
      * destruct (Hread content) as (_ & Hopen & _).
        -- reflexivity.
        -- etransitivity;
             [apply (Hopen (New "permission denied")); left; reflexivity|].
           vm_compute. reflexivity.
Defined.

(** C4 as stated fails on a storage whose reads fail: the file exists and
    its size is not the recorded one, but [Validate] returns the error of
    the read and no result, so the size mismatch is not reported.  It also
    fails when the temporary copy cannot be opened: the recorded checksum
    is wrong and is never compared, and the record is reported valid. *)
Lemma validate_findings_dropped_counterexample :
  Exists (storage brokenRead) (dataFile wrongSizeAndSum) = Ok true
  /\ Size (storage brokenRead) (dataFile wrongSizeAndSum) = Ok 14
  /\ CompressedSize (Backup wrongSizeAndSum) = 1000
  /\ Validate brokenRead wrongSizeAndSum
     = ([CallExists "backup-001.dump.gz"; CallSize "backup-001.dump.gz";
         CallRead "backup-001.dump.gz"],
        Fail (Wrap "failed to read backup file: " (New "connection reset by peer")))
  /\ Exists (storage unreadableTemp) (dataFile wrongSum) = Ok true
  /\ Read (storage unreadableTemp) (dataFile wrongSum) = Ok content
  /\ "sha256:" +:+ Sha256.EncodeToString (Sha256.sum256 content)
     <> Checksum (Backup wrongSum)
  /\ Validate unreadableTemp wrongSum
     = ([CallExists "backup-001.dump.gz"; CallSize "backup-001.dump.gz";
         CallRead "backup-001.dump.gz"],
        Ok {| BackupID := "backup-001"; Valid := true; FileExists := true;
              SizeMatch := true; ChecksumOK := false; Errors := [] |}).
Proof.
  split_and!; by vm_compute.
Qed.

(** A record that lists its metadata key only. *)
Lemma validate_without_data_file_witness :
  exists r, Validate emptyStore onlyMeta = ([], Ok r)
    /\ Valid r = false /\ Errors r <> []
    /\ FileExists r = false /\ SizeMatch r = false /\ ChecksumOK r = false.
Proof.
  apply (validate_without_data_file emptyStore onlyMeta).
  intros f Hf. each_record Hf. reflexivity.
Defined.

(** The same record against an empty store and against a store that holds
    the artifact. *)
Lemma validate_missing_file_flags_witness :
  (exists r,
     Validate emptyStore noChecksum = ([CallExists "backup-001.dump.gz"], Ok r)
     /\ FileExists r = false /\ Valid r = false
     /\ SizeMatch r = false /\ ChecksumOK r = false
     /\ Errors r = ["backup file does not exist"])
  /\ (exists r,
        Validate storeWithArtifact noChecksum
        = ([CallExists "backup-001.dump.gz"; CallSize "backup-001.dump.gz"], Ok r)
        /\ FileExists r = true /\ ChecksumOK r = true /\ Valid r = true).
Proof.
  split.
  - apply (validate_missing_file_flags emptyStore noChecksum).
    + vm_compute. discriminate.
    + reflexivity.
  - apply (proj2 (validate_missing_file_flags storeWithArtifact noChecksum
                    ltac:(vm_compute; discriminate)) 14); reflexivity.
Defined.

(** The artifact "backup content" with its checksum, intact and with its
    first byte replaced. *)
Lemma checksum_round_trip_witness :
  Validate storeWithArtifact goodRecord
  = ([CallExists "backup-001.dump.gz"; CallSize "backup-001.dump.gz";
      CallRead "backup-001.dump.gz"],
     Ok {| BackupID := "backup-001"; Valid := true; FileExists := true;
           SizeMatch := true; ChecksumOK := true; Errors := [] |})
  /\ exists r,
       Validate (healthyStore (memWrite ∅ "backup-001.dump.gz"
                   (<[0%nat := "B"%byte]> content))) goodRecord
       = ([CallExists "backup-001.dump.gz"; CallSize "backup-001.dump.gz";
           CallRead "backup-001.dump.gz"], Ok r)
       /\ FileExists r = true /\ SizeMatch r = true
       /\ ChecksumOK r = false /\ Valid r = false
       /\ Errors r = ["checksum mismatch"].
Proof.
  destruct (checksum_round_trip ∅ goodRecord content)
    as (_ & _ & _ & Hgood & Hflip).
  - vm_compute. discriminate.
  - reflexivity.
  - vm_compute. reflexivity.
  - split; [exact Hgood|].
    apply (Hflip 0%nat "b"%byte "B"%byte).
    + reflexivity.
    + discriminate.
    + vm_compute. discriminate.
Defined.




(** The sample scaling follows the product by the multiplier. *)
Lemma truncScale_scalesBy (cfg : RetryConfig (float64 := Q)) :
  (0 <= Multiplier cfg)%Q -> 0 <= MaxWait cfg ->
  scalesBy truncScale cfg (Multiplier cfg).
Proof.
  intros Hq Hmax w Hw. unfold truncScale.
  destruct (Multiplier cfg) as [a b]. cbn [Qnum Qden].
  assert (0 <= a) as Ha.
  { unfold Qle in Hq. cbn in Hq. lia. }
  split.
  - intros k _ Hk. unfold Qeq in Hk. cbn in Hk.
    replace (w * a) with (k * Z.pos b) by lia.
    apply Z.quot_mul. lia.
  - intros Hup. unfold Qlt in Hup. cbn in Hup.
    rewrite Z.quot_div_nonneg by lia.
    apply Z.div_le_lower_bound; lia.
Qed.

(** Five failing attempts with a multiplier of 1.5 on an initial wait of
    1000 and a cap of 3000: the waits are 1000, 1500, 2250 and 3000, the
    last one capped. *)
Lemma retry_exhausts_attempts_witness :
  calls (events (snd (WithRetry truncScale EmptyString Background halfAgain
                        alwaysFails 0%nat))) = 5%nat
  /\ waits (events (snd (WithRetry truncScale EmptyString Background halfAgain
                           alwaysFails 0%nat)))
     = [1000; 1500; 2250; 3000]
  /\ (inject_Z 1000 == formulaWait halfAgain (3 # 2) 1)%Q
  /\ (inject_Z 1500 == formulaWait halfAgain (3 # 2) 2)%Q
  /\ (inject_Z 2250 == formulaWait halfAgain (3 # 2) 3)%Q
  /\ (inject_Z 3000 == formulaWait halfAgain (3 # 2) 4)%Q
  /\ (inject_Z (MaxWait halfAgain) < inject_Z 1000 * (3 # 2) ^ 3)%Q
  /\ fst (WithRetry truncScale EmptyString Background halfAgain alwaysFails 0%nat)
     = (EmptyString, Some (New "persistent error")).
Proof.
  destruct (retry_exhausts_attempts truncScale EmptyString Background halfAgain
              alwaysFails 0%nat) as (Hcalls & Hzero & Hlast & Hlen & Hformula).
  - reflexivity.
  - intros i Hi. eexists. split; [reflexivity|]. by apply isRetryable_true_spec.
  - assert (Hwait : forall k w,
              (1 <= k)%nat ->
              waits (events (snd (WithRetry truncScale EmptyString Background
                                    halfAgain alwaysFails 0%nat)))
                !! (k - 1)%nat = Some w ->
              (inject_Z w == formulaWait halfAgain (3 # 2) k)%Q).
    { apply Hformula.
      - vm_compute. split; discriminate.
      - vm_compute. discriminate.
      - apply (truncScale_scalesBy halfAgain); vm_compute; discriminate.
      - intros k Hk. unfold wholeBelowCap.
        destruct k as [|[|[|[|[|k]]]]]; [lia| | | | |simpl in Hk; lia].
        + intros _. exists 1000. reflexivity.
        + intros _. exists 1500. reflexivity.
        + intros _. exists 2250. reflexivity.
        + intros Hle. vm_compute in Hle. by destruct Hle. }
    split; [exact Hcalls|]. split; [reflexivity|].
    split; [apply (Hwait 1%nat); [lia|reflexivity]|].
    split; [apply (Hwait 2%nat); [lia|reflexivity]|].
    split; [apply (Hwait 3%nat); [lia|reflexivity]|].
    split; [apply (Hwait 4%nat); [lia|reflexivity]|].
    split; [reflexivity|].
    specialize (Hlast ltac:(vm_compute; discriminate)).
    destruct (WithRetry truncScale EmptyString Background halfAgain alwaysFails 0%nat)
      as [[v e] r]. cbn [fst snd] in *. by rewrite Hzero, Hlast.
Defined.

(** C7 as stated fails when initialWait is above maxWait: the wait that
    follows the first attempt is initialWait = 10, not
    min (initialWait * 2^0, maxWait) = 5.  It also fails when a product of
    the formula is not a whole number of nanoseconds: with an initial wait
    of 1 and a multiplier of 1.5 the wait that follows the second attempt
    is 1, the fraction of 1.5 discarded. *)
Lemma retry_wait_formula_counterexample :
  (forall j, doneAt Background j = false)
  /\ (forall s, failsWith alwaysFails retryableError s)
  /\ waits (events (snd (WithRetry exactScale EmptyString Background waitAboveCap
                           alwaysFails 0%nat))) = [10]
  /\ (formulaWait waitAboveCap (inject_Z 2) 1 == inject_Z 5)%Q
  /\ ~ (inject_Z 10 == formulaWait waitAboveCap (inject_Z 2) 1)%Q
  /\ 0 <= InitialWait oneNanosecond <= MaxWait oneNanosecond
  /\ waits (events (snd (WithRetry truncScale EmptyString Background oneNanosecond
                           alwaysFails 0%nat))) = [1; 1]
  /\ (formulaWait oneNanosecond (3 # 2) 2 == 3 # 2)%Q
  /\ ~ (inject_Z 1 == formulaWait oneNanosecond (3 # 2) 2)%Q.
Proof.
  split_and!; try reflexivity.
  - intros s. eexists. split; [reflexivity|]. by apply isRetryable_true_spec.
  - vm_compute. discriminate.
  - vm_compute. discriminate.
  - vm_compute. discriminate.
  - vm_compute. discriminate.
Qed.

(** The instant 2024-01-15 14:30:45 UTC, in UTC and one hour east. *)
Lemma backup_id_is_local_wall_clock_witness :
  GenerateBackupID utcStart = "backup_" +:+ Format_20060102_150405 (UTC utcStart)
  /\ GenerateBackupID localStart
     = "backup_" +:+ fixedDigits 4 2024 +:+ fixedDigits 2 1 +:+ fixedDigits 2 15
         +:+ "_" +:+ fixedDigits 2 15 +:+ fixedDigits 2 30 +:+ fixedDigits 2 45
  /\ String.length (GenerateBackupID localStart) = 22%nat.
Proof.
  split.
  - destruct (backup_id_is_local_wall_clock utcStart) as (_ & Hutc & _).
    apply Hutc. reflexivity.
  - destruct (backup_id_is_local_wall_clock localStart) as (_ & _ & _ & Hshape).
    apply Hshape. vm_compute. split; discriminate.
Defined.

(** C9 as stated fails for a start time whose location is not UTC: one
    hour east of UTC the id shows 15:30:45 while the UTC time is 14:30:45. *)
Lemma backup_id_not_utc_counterexample :
  RunBackupID localStart = "backup_20240115_153045"
  /\ "backup_" +:+ Format_20060102_150405 (UTC localStart) = "backup_20240115_143045"
  /\ GenerateBackupID localStart
     <> "backup_" +:+ Format_20060102_150405 (UTC localStart).
Proof.
  split; [by vm_compute|]. split; [by vm_compute|]. vm_compute. discriminate.
Qed.

(* ===================================================================== *)
(** * Further properties: the code around the claims *)
(* ===================================================================== *)

Import GoStrings LocalStorage RotationPolicy Metadata Database RestoreCheck
  RunRecord MoreSamples.

(* --------------------------------------------------------------------- *)
(** ** More on the rotator *)
(* --------------------------------------------------------------------- *)

(** X1.  The label that [GetPrimaryType] gives a time is the last tag of
    its classification by [ClassifyBackup], whose first tag is always
    "daily": monthly wins over weekly, weekly over daily. *)
Theorem primary_type_is_last_class (t : Time) :
  last (ClassifyBackup t) = Some (GetPrimaryType t)
  /\ head (ClassifyBackup t) = Some BackupTypeDaily
  /\ In (GetPrimaryType t) (ClassifyBackup t).
Proof.
  unfold ClassifyBackup, GetPrimaryType.
  destruct (Weekday t =? Sunday), (Day t =? 1); cbn; repeat split; auto 10.
Qed.

Lemma StronglySorted_sublist {A} (R : relation A) l l' :
  l' `sublist_of` l -> StronglySorted R l -> StronglySorted R l'.
Proof.
  induction 1 as [|x l1 l2 Hsub IH|x l1 l2 Hsub IH]; intros Hs; [done| |].
  - apply StronglySorted_cons in Hs as [Hx Hs]. apply StronglySorted_cons.
    split; [|by apply IH].
    rewrite Forall_forall in *. intros y Hy. apply Hx.
    by eapply elem_of_sublist.
  - apply StronglySorted_cons in Hs as [_ Hs]. by apply IH.
Qed.

(** X2.  The list that [DetermineBackupsToDelete] returns is ordered newest
    first, whatever the order of the input, and holds only records of the
    input. *)
Theorem deletions_are_newest_first (p : Policy) (now : Time)
    (backups : list BackupMetadata) :
  StronglySorted newerEq (DetermineBackupsToDelete p now backups)
  /\ (forall b, In b (DetermineBackupsToDelete p now backups) -> In b backups)
  /\ (length (DetermineBackupsToDelete p now backups) <= length backups)%nat.
Proof.
  split; [|split].
  - eapply (StronglySorted_sublist newerEq); [apply Determine_sublist|].
    apply sortSlice_descending.
  - intros b Hb. by apply Determine_In in Hb as [? _].
  - rewrite <- (Permutation_length (sortSlice_Permutation backups)).
    apply sublist_length, Determine_sublist.
Qed.

Lemma typeStep_no_room p c k t :
  KeepDaily p <= dailyCount c -> KeepWeekly p <= weeklyCount c ->
  KeepMonthly p <= monthlyCount c ->
  typeStep p (c, k) t = (c, k).
Proof.
  intros Hd Hw Hm. unfold typeStep.
  destruct t.
  - destruct (Z.ltb_spec (dailyCount c) (KeepDaily p)); [lia|done].
  - destruct (Z.ltb_spec (weeklyCount c) (KeepWeekly p)); [lia|done].
  - destruct (Z.ltb_spec (monthlyCount c) (KeepMonthly p)); [lia|done].
Qed.

Lemma typeSteps_no_room p c k ts :
  KeepDaily p <= dailyCount c -> KeepWeekly p <= weeklyCount c ->
  KeepMonthly p <= monthlyCount c ->
  fold_left (typeStep p) ts (c, k) = (c, k).
Proof.
  intros Hd Hw Hm. induction ts as [|t ts IH]; cbn [fold_left]; [done|].
  by rewrite typeStep_no_room.
Qed.

Lemma quotaWalk_no_room p es c keep :
  KeepDaily p <= dailyCount c -> KeepWeekly p <= weeklyCount c ->
  KeepMonthly p <= monthlyCount c ->
  quotaWalk p es (c, keep) = (c, keep).
Proof.
  intros Hd Hw Hm. induction es as [|e es IH]; [done|].
  rewrite quotaWalk_cons. unfold entryStep.
  by rewrite typeSteps_no_room.
Qed.

(** X3.  A policy whose three quotas are zero (or negative) keeps nothing:
    every record of the input is returned for deletion, the newest
    included, whatever max-age says. *)
Theorem zero_quotas_delete_everything (p : Policy) (now : Time)
    (backups : list BackupMetadata) :
  KeepDaily p <= 0 -> KeepWeekly p <= 0 -> KeepMonthly p <= 0 ->
  DetermineBackupsToDelete p now backups = sortSlice backups
  /\ DetermineBackupsToDelete p now backups ≡ₚ backups.
Proof.
  intros Hd Hw Hm.
  assert (DetermineBackupsToDelete p now backups = sortSlice backups) as ->.
  { rewrite Determine_filter. apply filter_all_true.
    intros b _. unfold wouldDelete, keptIDs.
    rewrite quotaWalk_no_room by (simpl; lia). cbn [snd].
    by rewrite lookupKeep_empty. }
  split; [done|apply sortSlice_Permutation].
Qed.

(** The daily step comes first in every classification. *)
Lemma typeSteps_daily_room p c t :
  dailyCount c < KeepDaily p ->
  dailyCount (fst (fold_left (typeStep p) (ClassifyBackup t) (c, false)))
  = dailyCount c + 1
  /\ snd (fold_left (typeStep p) (ClassifyBackup t) (c, false)) = true.
Proof.
  intros Hroom. apply Z.ltb_lt in Hroom.
  destruct c as [d w m]. cbn [dailyCount] in *.
  unfold ClassifyBackup.
  destruct (Weekday t =? Sunday), (Day t =? 1);
    cbn [app fold_left]; unfold typeStep;
    cbn [dailyCount weeklyCount monthlyCount]; rewrite Hroom;
    cbn [dailyCount weeklyCount monthlyCount];
    repeat match goal with
           | |- context [if ?b then _ else _] => destruct b
           end; cbn [fst snd dailyCount]; done.
Qed.

Lemma walk_daily_room p bs :
  forall c keep i b,
    bs !! i = Some b ->
    dailyCount c + Z.of_nat i < KeepDaily p ->
    lookupKeep (snd (quotaWalk p (map mkEntry bs) (c, keep))) (ID b) = true.
Proof.
  induction bs as [|x bs IH]; intros c keep i b Hi Hroom; [done|].
  cbn [map]. rewrite quotaWalk_cons, entryStep_mkEntry.
  destruct (typeSteps_daily_room p c (Timestamp x)) as [Hc Hk]; [lia|].
  rewrite Hk. destruct i as [|i].
  - injection Hi as ->. apply quotaWalk_keep_mono. cbn [snd].
    apply lookupKeep_insert. by left.
  - apply (IH _ _ i); [done|]. cbn [fst]. lia.
Qed.

Lemma filter_length_Permutation {A} (P : A -> bool) l l' :
  l ≡ₚ l' -> length (List.filter P l) = length (List.filter P l').
Proof.
  induction 1 as [|x l l' _ IH|x y l|l l' l'' _ IH1 _ IH2]; simpl.
  - done.
  - destruct (P x); simpl; by rewrite IH.
  - destruct (P x), (P y); done.
  - by rewrite IH1.
Qed.

Lemma position_below_notOlderCount backups pre b post :
  sortSlice backups = pre ++ b :: post ->
  (length pre < notOlderCount b backups)%nat.
Proof.
  intros Hs. unfold notOlderCount.
  rewrite <- (filter_length_Permutation _ _ _ (sortSlice_Permutation backups)), Hs.
  rewrite List.filter_app, length_app.
  pose proof (sortSlice_descending backups) as Hsorted. rewrite Hs in Hsorted.
  rewrite filter_all_true.
  - cbn [List.filter]. rewrite Z.leb_refl. cbn [length]. lia.
  - intros x Hx. apply Z.leb_le.
    eapply (StronglySorted_app_1_elem_of newerEq) in Hsorted;
      [exact Hsorted|by apply list_elem_of_In|by left].
Qed.

(** X4.  The daily quota protects the newest records whatever their week
    day: a record is kept by the quota walk when at most keepDaily records
    of the input are at least as new as it (itself included), and then it
    is returned for deletion only if max-age fires. *)
Theorem newest_records_are_kept (p : Policy) (now : Time)
    (backups : list BackupMetadata) (b : BackupMetadata) :
  In b backups ->
  Z.of_nat (notOlderCount b backups) <= KeepDaily p ->
  lookupKeep (keptIDs p backups) (ID b) = true
  /\ (MaxAgeDays p <= 0 \/ Sub now (Timestamp b) <= maxAgeOf p ->
      ~ In b (DetermineBackupsToDelete p now backups)).
Proof.
  intros Hin Hcount.
  assert (Hkept : lookupKeep (keptIDs p backups) (ID b) = true).
  { assert (In b (sortSlice backups)) as Hin'
      by (eapply Permutation_in; [symmetry; apply sortSlice_Permutation|done]).
    apply list_elem_of_In, list_elem_of_split in Hin' as (pre & post & Hs).
    pose proof (position_below_notOlderCount backups pre b post Hs) as Hpos.
    unfold keptIDs. apply (walk_daily_room p _ _ _ (length pre)).
    - rewrite Hs. by rewrite list_lookup_middle.
    - cbn [dailyCount zeroCounters]. lia. }
  split; [done|].
  intros Hage [_ Hd]%Determine_In. unfold wouldDelete in Hd.
  rewrite Hkept in Hd. cbn [negb orb] in Hd.
  apply andb_true_iff in Hd as [Hd1%Z.ltb_lt Hd2%Z.ltb_lt]. lia.
Qed.

(* --------------------------------------------------------------------- *)
(** ** The retention date *)
(* --------------------------------------------------------------------- *)

Lemma civil_era_year days :
  civil days
  = (let '(y, m, d) := civil ((days + 719468) mod 146097 - 719468) in
     (y + (days + 719468) / 146097 * 400, m, d)).
Proof.
  unfold civil. cbv zeta.
  replace ((days + 719468) mod 146097 - 719468 + 719468)
    with ((days + 719468) mod 146097) by lia.
  set (z := days + 719468).
  assert (z mod 146097 / 146097 = 0) as Hera
    by (apply Z.div_small; apply Z.mod_pos_bound; lia).
  assert (z - z / 146097 * 146097 = z mod 146097) as Hdoe
    by (rewrite Z.mod_eq by lia; lia).
  rewrite Hera, Hdoe. replace (z mod 146097 - 0 * 146097) with (z mod 146097) by lia.
  f_equal. f_equal. lia.
Qed.

Lemma daysFromCivil_era y m d k :
  daysFromCivil (y + k * 400) m d = daysFromCivil y m d + k * 146097.
Proof.
  unfold daysFromCivil. cbv zeta.
  set (y' := if m <=? 2 then y - 1 else y).
  replace (if m <=? 2 then y + k * 400 - 1 else y + k * 400) with (y' + k * 400)
    by (subst y'; destruct (m <=? 2); lia).
  rewrite Z.div_add by lia.
  replace (y' + k * 400 - (y' / 400 + k) * 400) with (y' - y' / 400 * 400) by lia.
  lia.
Qed.

(** [daysFromCivil] undoes [civil]: the date of a day number names that
    day. *)
Lemma daysFromCivil_civil days :
  let '(y, m, d) := civil days in daysFromCivil y m d = days.
Proof.
  rewrite civil_era_year.
  set (doe := (days + 719468) mod 146097).
  assert (0 <= doe < 146097) as Hdoe by (apply Z.mod_pos_bound; lia).
  pose proof (allFrom_zero 146097 civilRoundTrip) as H.
  specialize (H ltac:(by vm_compute) doe ltac:(lia)).
  unfold civilRoundTrip in H.
  destruct (civil (doe - 719468)) as [[y m] d].
  rewrite daysFromCivil_era. apply Z.eqb_eq in H. rewrite H.
  subst doe. rewrite Z.mod_eq by lia. lia.
Qed.

Lemma daysFromCivil_add_days y m d k :
  daysFromCivil y m (d + k) = daysFromCivil y m d + k.
Proof. unfold daysFromCivil. cbv zeta. lia. Qed.

Lemma daysFromCivil_date t :
  daysFromCivil (Year t) (Month t) (Day t) = wallDays t.
Proof.
  unfold Year, Month, Day. pose proof (daysFromCivil_civil (wallDays t)) as H.
  by destruct (civil (wallDays t)) as [[y m] d].
Qed.

Lemma clock_secondOfDay t :
  HourOf t * 3600 + MinuteOf t * 60 + SecondOf t = secondOfDay t.
Proof. unfold HourOf, MinuteOf, SecondOf. Z.div_mod_to_equations. lia. Qed.

(** In a location of fixed offset [AddDate(0, 0, days)] moves the instant by
    [days] times 24 hours. *)
Lemma AddDays_instant t days :
  unixNano (AddDays t days) = unixNano t + days * dayNanos
  /\ zoneOffset (AddDays t days) = zoneOffset t.
Proof.
  split; [|done]. unfold AddDays, Date. cbn [unixNano zoneOffset].
  rewrite daysFromCivil_add_days, daysFromCivil_date.
  replace ((wallDays t + days) * 86400 + HourOf t * 3600 + MinuteOf t * 60 + SecondOf t)
    with ((wallDays t + days) * 86400 + secondOfDay t)
    by (rewrite <- clock_secondOfDay; lia).
  unfold wallDays, secondOfDay.
  pose proof (Z.div_mod (wallSeconds t) 86400 ltac:(lia)) as H1.
  unfold wallSeconds in *.
  pose proof (Z.div_mod (unixNano t) Second ltac:(unfold Second; lia)) as H2.
  set (q := unixNano t / Second) in *. set (r := unixNano t mod Second) in *.
  set (wd := (q + zoneOffset t) / 86400) in *.
  set (sod := (q + zoneOffset t) mod 86400) in *.
  unfold dayNanos, Hour, Minute, Second in *. lia.
Qed.

Lemma retentionDays_exact p backupType :
  policyWithin 1000000000 p ->
  match backupType with
  | BackupTypeMonthly => wrap64 (KeepMonthly p * 30)
  | BackupTypeWeekly => wrap64 (KeepWeekly p * 7)
  | BackupTypeDaily => KeepDaily p
  end = tierDays p backupType.
Proof.
  intros (Hd & Hw & Hm & Ha). unfold tierDays.
  destruct backupType; [done| |]; apply wrap64_id; unfold minInt64, maxInt64; lia.
Qed.

Lemma CalculateRetentionDate_AddDays p backupTime backupType :
  policyWithin 1000000000 p ->
  CalculateRetentionDate p backupTime backupType
  = AddDays backupTime (retentionDays p backupType).
Proof.
  intros Hp. unfold CalculateRetentionDate. cbv zeta.
  rewrite retentionDays_exact by done.
  assert ((if (0 <? MaxAgeDays p) && (MaxAgeDays p <? tierDays p backupType)
           then MaxAgeDays p else tierDays p backupType)
          = retentionDays p backupType) as ->; [|reflexivity].
  unfold retentionDays.
  destruct (Z.ltb_spec 0 (MaxAgeDays p)); [|reflexivity]. cbn [andb].
  destruct (Z.ltb_spec (MaxAgeDays p) (tierDays p backupType)); lia.
Qed.

Lemma retentionDays_nonneg p backupType :
  policyWithin 1000000000 p -> 0 <= retentionDays p backupType.
Proof.
  intros (Hd & Hw & Hm & Ha). unfold retentionDays, tierDays.
  destruct (0 <? MaxAgeDays p), backupType; lia.
Qed.

Lemma keepUntil_instant p backupTime :
  policyWithin 1000000000 p ->
  unixNano (fst (GetRetentionInfo p backupTime))
  = unixNano backupTime
    + retentionDays p (GetPrimaryType backupTime) * dayNanos.
Proof.
  intros Hp. unfold GetRetentionInfo. cbv zeta. cbn [fst].
  rewrite CalculateRetentionDate_AddDays by done.
  by destruct (AddDays_instant backupTime
                 (retentionDays p (GetPrimaryType backupTime))) as [-> _].
Qed.

(** X5.  For a policy of non-negative quotas (up to 10^9) the date that
    [GetRetentionInfo] gives a backup time lies a whole number of days
    after it, at the same clock time in the same location: the retention of
    the primary type (keepMonthly * 30, keepWeekly * 7 or keepDaily days),
    cut down to maxAgeDays when that is positive and smaller.  The label is
    the name of the primary type. *)
Theorem retention_date_is_whole_days (p : Policy) (backupTime : Time) :
  policyWithin 1000000000 p ->
  let days := retentionDays p (GetPrimaryType backupTime) in
  let keepUntil := fst (GetRetentionInfo p backupTime) in
  unixNano keepUntil = unixNano backupTime + days * dayNanos
  /\ zoneOffset keepUntil = zoneOffset backupTime
  /\ secondOfDay keepUntil = secondOfDay backupTime
  /\ wallDays keepUntil = wallDays backupTime + days
  /\ After backupTime keepUntil = false
  /\ snd (GetRetentionInfo p backupTime)
     = BackupTypeName (GetPrimaryType backupTime).
Proof.
  intros Hp days keepUntil.
  assert (Hinst : unixNano keepUntil = unixNano backupTime + days * dayNanos)
    by (by apply keepUntil_instant).
  assert (Hzone : zoneOffset keepUntil = zoneOffset backupTime).
  { subst keepUntil. unfold GetRetentionInfo. cbv zeta. cbn [fst].
    rewrite CalculateRetentionDate_AddDays by done.
    apply AddDays_instant. }
  pose proof (retentionDays_nonneg p (GetPrimaryType backupTime) Hp) as Hnonneg.
  fold days in Hnonneg.
  assert (Hwall : wallSeconds keepUntil = wallSeconds backupTime + days * 86400).
  { unfold wallSeconds. rewrite Hinst, Hzone.
    replace (days * dayNanos) with (days * 86400 * Second)
      by (unfold dayNanos, Hour, Minute, Second; lia).
    rewrite Z.div_add by (unfold Second; lia). lia. }
  split; [exact Hinst|]. split; [exact Hzone|]. split; [|split; [|split]].
  - unfold secondOfDay. rewrite Hwall. apply Z_mod_plus_full.
  - unfold wallDays. rewrite Hwall. apply Z.div_add. lia.
  - unfold After. apply Z.ltb_ge. rewrite Hinst.
    unfold dayNanos, Hour, Minute, Second. lia.
  - reflexivity.
Qed.

Lemma After_before t u : After t u = true -> unixNano u < unixNano t.
Proof. unfold After. apply Z.ltb_lt. Qed.

(** X6.  When max-age is the binding limit of a record's retention (it is
    positive and not above the retention of the record's primary type), a
    record whose keep-until date, as [GetRetentionInfo] computes it from the
    record's timestamp, has passed is returned for deletion by
    [DetermineBackupsToDelete], whatever the quotas say. *)
Theorem past_keep_until_is_deleted (p : Policy) (now : Time)
    (backups : list BackupMetadata) (b : BackupMetadata) :
  policyWithin 1000000000 p ->
  0 < MaxAgeDays p ->
  MaxAgeDays p <= tierDays p (GetPrimaryType (Timestamp b)) ->
  In b backups ->
  After now (fst (GetRetentionInfo p (Timestamp b))) = true ->
  In b (DetermineBackupsToDelete p now backups).
Proof.
  intros Hp Hpos Hbind Hin Hafter.
  apply After_before in Hafter.
  rewrite keepUntil_instant in Hafter by done.
  assert (retentionDays p (GetPrimaryType (Timestamp b)) = MaxAgeDays p) as Hdays.
  { unfold retentionDays. destruct (Z.ltb_spec 0 (MaxAgeDays p)); lia. }
  rewrite Hdays in Hafter.
  apply Determine_In. split; [done|].
  unfold wouldDelete. apply orb_true_iff. right.
  apply andb_true_iff. split; [by apply Z.ltb_lt|].
  apply Z.ltb_lt. apply sat64_over_age; [done|].
  unfold instant. lia.
Qed.

(* --------------------------------------------------------------------- *)
(** ** More on the validator *)
(* --------------------------------------------------------------------- *)

Lemma Validate_no_data_file w md :
  dataFile md = EmptyString ->
  exists msg, Validate w md
    = ([], Ok {| BackupID := ID md; Valid := false; FileExists := false;
                 SizeMatch := false; ChecksumOK := false; Errors := [msg] |}).
Proof.
  intros H. unfold Validate. destruct (Files md) as [|f fs] eqn:Hf.
  - eexists. reflexivity.
  - change (length (f :: fs) =? 0)%nat with false. cbv iota.
    rewrite <- Hf. fold (metaKey md). fold (dataFile md). rewrite H.
    eexists. reflexivity.
Qed.

Ltac validate_cases w md :=
  destruct (String.eqb_spec (dataFile md) EmptyString) as [Hdf|Hdf];
  [ destruct (Validate_no_data_file w md Hdf) as (msg & ->)
  | rewrite (Validate_with_data_file w md Hdf); cbv zeta;
    destruct (Exists (storage w) (dataFile md)) as [[|]|e1];
    [ rewrite bind_orWrap_Ok; cbn [negb];
      destruct (Size (storage w) (dataFile md)) as [sz|e2];
      [ rewrite bind_orWrap_Ok;
        destruct (String.eqb_spec (Checksum (Backup md)) EmptyString) as [Hck|Hck];
        cbn [negb];
        [ | destruct (Read (storage w) (dataFile md)) as [content|e3];
            [ rewrite bind_orWrap_Ok; unfold createTempFile;
              destruct (tempFault w) as [|e4|e4|e4] eqn:Htf; cbn [CalculateChecksum]
            | rewrite bind_orWrap_Fail ] ]
      | rewrite bind_orWrap_Fail ]
    | rewrite bind_orWrap_Ok; cbn [negb]
    | rewrite bind_orWrap_Fail ] ].

(** X7.  Whatever the storage backend answers, a result that [Validate]
    returns carries the id of the record; it is valid exactly when its error
    list is empty; a valid result has seen the file and a matching size; a
    valid result whose checksum flag is off is one whose temporary copy
    could not be opened or read; the storage calls made are an initial part
    of: [Exists], [Size], [Read], each on the data file of the record. *)
Theorem validate_result_invariants (w : World) (md : BackupMetadata)
    (calls : list StorageCall) (r : ValidationResult) :
  Validate w md = (calls, Ok r) ->
  BackupID r = ID md
  /\ (Valid r = true <-> Errors r = [])
  /\ (Valid r = true -> FileExists r = true /\ SizeMatch r = true)
  /\ (SizeMatch r = true \/ ChecksumOK r = true -> FileExists r = true)
  /\ (Valid r = true -> ChecksumOK r = false ->
      exists e, tempFault w = OpenFails e \/ tempFault w = ReadFails e)
  /\ calls `prefix_of`
       [CallExists (dataFile md); CallSize (dataFile md); CallRead (dataFile md)].
Proof.
  validate_cases w md.
  all: try (generalize (sizeMismatchMsg (CompressedSize (Backup md)) sz); intros smsg).
  all: try (destruct (sz =? CompressedSize (Backup md)) eqn:Hsz).
  all: try (destruct (String.eqb ("sha256:" +:+ _) (Checksum (Backup md))) eqn:Hsum).
  all: cbn [fst snd ret setChecksumOK setSizeMatch setFileExists invalidate negb
            SizeMatch ChecksumOK Valid FileExists Errors BackupID app].
  all: try discriminate.
  all: intros [= ? ?]; subst calls r.
  all: cbn [fst snd ret setChecksumOK setSizeMatch setFileExists invalidate negb
            SizeMatch ChecksumOK Valid FileExists Errors BackupID app].
  all: repeat split; try done; try (intros [|]; done); try (intros; discriminate).
  all: try (by eexists; eauto).
  all: try (by eexists (_ :: _)).
  all: try (by exists []).
Qed.

(** X8.  [Validate] returns an error in exactly four situations, each
    time without a result and wrapping the error of the failed step: the
    existence check fails; the file exists and the size query fails; a
    checksum is recorded and the read fails; or the read succeeds and the
    temporary copy cannot be created.  No further storage call follows the
    failed one. *)
Theorem validate_error_paths (w : World) (md : BackupMetadata)
    (calls : list StorageCall) (e : error) :
  let f := dataFile md in
  Validate w md = (calls, Fail e)
  <-> f <> EmptyString
      /\ ((exists inner, Exists (storage w) f = Fail inner
             /\ e = Wrap "failed to check file existence: " inner
             /\ calls = [CallExists f])
          \/ (Exists (storage w) f = Ok true
              /\ ((exists inner, Size (storage w) f = Fail inner
                     /\ e = Wrap "failed to get file size: " inner
                     /\ calls = [CallExists f; CallSize f])
                  \/ ((exists sz, Size (storage w) f = Ok sz)
                      /\ Checksum (Backup md) <> EmptyString
                      /\ calls = [CallExists f; CallSize f; CallRead f]
                      /\ ((exists inner, Read (storage w) f = Fail inner
                             /\ e = Wrap "failed to read backup file: " inner)
                          \/ (exists content inner,
                                Read (storage w) f = Ok content
                                /\ tempFault w = CreateFails inner
                                /\ e = Wrap "failed to create temp file: " inner)))))).
Proof.
  cbv zeta.
  validate_cases w md.
  all: try (generalize (sizeMismatchMsg (CompressedSize (Backup md)) sz); intros smsg).
  all: try (destruct (sz =? CompressedSize (Backup md)) eqn:Hsz).
  all: try (destruct (String.eqb ("sha256:" +:+ _) (Checksum (Backup md))) eqn:Hsum).
  all: cbn [fst snd ret setChecksumOK setSizeMatch setFileExists invalidate negb
            SizeMatch ChecksumOK Valid FileExists Errors BackupID app].
  all: split.
  all: try (intros [= ? ?]; subst calls e).
  all: try (intros [Hne H]; try done;
            repeat match goal with
            | H : _ \/ _ |- _ => destruct H
            | H : _ /\ _ |- _ => destruct H
            | H : exists _, _ |- _ => destruct H
            end; try congruence).
  all: try discriminate.
  all: try (split; [done|]).
  all: try (by left; eexists).
  all: try (by right; split; [done|]; left; eexists).
  all: try (right; split; [done|]; right; split; [by eexists|]; split; [done|];
            split; [done|]; by (left; eexists) || (right; eexists _, _)).
  all: right; split; [done|]; right; split; [by eexists|]; split; [done|];
       split; [done|]; right; eexists _, _; repeat split; reflexivity.
Qed.

(* --------------------------------------------------------------------- *)
(** ** Prefixes, suffixes and the data file of the restore check *)
(* --------------------------------------------------------------------- *)

Lemma substring_skip pre n x :
  String.substring (String.length pre) n (pre +:+ x) = String.substring 0 n x.
Proof. induction pre as [|c pre IH]; [done|]. rewrite append_cons. exact IH. Qed.

Lemma substring_full x : String.substring 0 (String.length x) x = x.
Proof.
  rewrite <- (append_empty_r x) at 2. apply substring_prefix.
Qed.

Lemma substring_0_length n s :
  (n <= String.length s)%nat -> String.length (String.substring 0 n s) = n.
Proof.
  revert s. induction n as [|n IH]; intros s Hn.
  - by destruct s.
  - destruct s as [|c s]; [simpl in Hn; lia|]. simpl. rewrite IH; [done|].
    simpl in Hn. lia.
Qed.

Lemma HasSuffix_spec s suffix :
  HasSuffix s suffix = true <-> exists pre, s = pre +:+ suffix.
Proof.
  unfold HasSuffix. rewrite andb_true_iff, Nat.leb_le, String.eqb_eq. split.
  - intros [Hlen Hsub].
    destruct (substring_split (String.length s - String.length suffix) s) as [post Hs].
    set (pre := String.substring 0 (String.length s - String.length suffix) s) in *.
    assert (String.length pre = (String.length s - String.length suffix)%nat) as Hpre
      by (apply substring_0_length; lia).
    assert (String.length post = String.length suffix) as Hpost.
    { apply (f_equal String.length) in Hs. rewrite append_length in Hs. lia. }
    exists pre. rewrite Hs at 1. f_equal.
    rewrite <- Hsub, <- Hpre, Hs, substring_skip, <- Hpost. by rewrite substring_full.
  - intros [pre ->]. rewrite append_length. split; [lia|].
    replace (String.length pre + String.length suffix - String.length suffix)%nat
      with (String.length pre) by lia.
    by rewrite substring_skip, substring_full.
Qed.

Lemma prefix_eqb_spec s prefix :
  (String.length prefix <=? String.length s)%nat
  && String.eqb (String.substring 0 (String.length prefix) s) prefix = true
  <-> exists rest, s = prefix +:+ rest.
Proof.
  rewrite andb_true_iff, Nat.leb_le, String.eqb_eq. split.
  - intros [_ Hsub]. destruct (substring_split (String.length prefix) s) as [rest Hs].
    exists rest. by rewrite <- Hsub at 1.
  - intros [rest ->]. rewrite append_length, substring_prefix. split; [lia|done].
Qed.

(** X9.  [matchPrefix], the prefix test of [LocalStorage.List], holds
    exactly when the path starts with the prefix as a string of bytes; it is
    [strings.HasPrefix], and no path separator is looked at: every path
    matches the empty prefix and itself, and a prefix of a matching prefix
    matches. *)
Theorem matchPrefix_is_string_prefix (path prefix : string) :
  (matchPrefix path prefix = true <-> exists rest, path = prefix +:+ rest)
  /\ matchPrefix path prefix = HasPrefix path prefix
  /\ matchPrefix path EmptyString = true
  /\ matchPrefix path path = true
  /\ (forall shorter rest, prefix = shorter +:+ rest ->
        matchPrefix path prefix = true -> matchPrefix path shorter = true).
Proof.
  split_and!.
  - apply prefix_eqb_spec.
  - reflexivity.
  - apply prefix_eqb_spec. by exists path.
  - apply prefix_eqb_spec. exists EmptyString. by rewrite append_empty_r.
  - intros shorter rest -> [rest' ->]%prefix_eqb_spec.
    apply prefix_eqb_spec. exists (rest +:+ rest').
    clear. induction shorter as [|c s IH]; [done|].
    rewrite !append_cons. by rewrite IH.
Qed.

Lemma firstDataFile_none files :
  (forall f, In f files -> HasSuffix f ".meta.json" = true) ->
  firstDataFile files = EmptyString.
Proof.
  induction files as [|f fs IH]; intros H; [done|].
  cbn [firstDataFile]. rewrite (H f) by (by left). cbn [negb].
  apply IH. intros; apply H; by right.
Qed.

Lemma firstDataFile_found files f :
  firstDataFile files = f -> f <> EmptyString ->
  In f files /\ HasSuffix f ".meta.json" = false.
Proof.
  induction files as [|x fs IH]; intros Hf Hne; [by subst|].
  cbn [firstDataFile] in Hf.
  destruct (HasSuffix x ".meta.json") eqn:Hx; cbn [negb] in Hf.
  - destruct (IH Hf Hne). split; [by right|done].
  - subst x. split; [by left|done].
Qed.

Lemma firstDataFile_findDataFile key files :
  HasSuffix key ".meta.json" = true ->
  (forall f, In f files -> HasSuffix f ".meta.json" = true -> f = key) ->
  firstDataFile files = findDataFile key files.
Proof.
  intros Hkey. induction files as [|f fs IH]; intros H; [done|].
  cbn [firstDataFile findDataFile].
  destruct (String.eqb_spec f key) as [->|Hne].
  - rewrite Hkey. cbn [negb]. apply IH. intros; apply H; [by right|done].
  - destruct (HasSuffix f ".meta.json") eqn:Hf; [|done].
    destruct Hne. apply H; [by left|done].
Qed.

(** X10.  The data file that the restore check looks for
    ([findBackupFile]: the first listed file that does not end in
    ".meta.json") is the one that [Validate] examines (the first listed file
    other than "<id>.meta.json") whenever the record's own metadata key is
    the only listed name that ends in ".meta.json"; the result of
    [findBackupFile] is the empty string when every listed name ends in
    ".meta.json", and otherwise a listed name that does not. *)
Theorem restore_check_picks_validated_file (md : BackupMetadata) :
  ((forall f, In f (Files md) -> HasSuffix f ".meta.json" = true ->
      f = ID md +:+ ".meta.json") ->
   findBackupFile md = dataFile md)
  /\ ((forall f, In f (Files md) -> HasSuffix f ".meta.json" = true) ->
      findBackupFile md = EmptyString)
  /\ (findBackupFile md <> EmptyString ->
      In (findBackupFile md) (Files md)
      /\ HasSuffix (findBackupFile md) ".meta.json" = false).
Proof.
  unfold findBackupFile, dataFile, metaKey. split_and!.
  - apply firstDataFile_findDataFile. apply HasSuffix_spec. by exists (ID md).
  - apply firstDataFile_none.
  - by apply firstDataFile_found.
Qed.

Section RestoreFacts.
Variable ToLower : string -> string.
Variable verifySQLiteRestore verifyPostgresRestore : LocalFile -> bool -> option error.

Abbreviation Verify := (VerifyRestoreIntegrity ToLower verifySQLiteRestore
                          verifyPostgresRestore).

(** X11.  [VerifyRestoreIntegrity] asks the storage for nothing but the
    data file, with at most one [Read]; for a record without a data file it
    fails without any storage call; and the database type is examined only
    after the artifact has been read and copied: a validator of an
    unsupported type reads the artifact and then reports the type. *)
Theorem restore_check_storage_use (w : World) (dbType : string)
    (md : BackupMetadata) :
  (fst (Verify w dbType md) = []
   \/ fst (Verify w dbType md) = [CallRead (findBackupFile md)])
  /\ ((forall f, In f (Files md) -> HasSuffix f ".meta.json" = true) ->
      Verify w dbType md = ([], Some (New "no backup file found in metadata")))
  /\ (forall content tmpFile,
        findBackupFile md <> EmptyString ->
        Read (storage w) (findBackupFile md) = Ok content ->
        createTempFile w content = Ok tmpFile ->
        ~ In (ToLower dbType)
            ["sqlite"; "sqlite3"; "postgres"; "postgresql"; "pg"; EmptyString] ->
        Verify w dbType md
        = ([CallRead (findBackupFile md)],
           Some (New ("unsupported database type: " +:+ dbType)))).
Proof.
  unfold VerifyRestoreIntegrity. split_and!.
  - destruct (String.eqb _ EmptyString); [by left|].
    destruct (Read _ _) as [content|e]; [|by right].
    destruct (createTempFile _ _); by right.
  - intros Hall. unfold findBackupFile. by rewrite firstDataFile_none.
  - intros content tmpFile Hne Hread Htmp Hty.
    destruct (String.eqb_spec (findBackupFile md) EmptyString) as [|_]; [done|].
    rewrite Hread, Htmp. cbv zeta.
    repeat match goal with
    | |- context [String.eqb (ToLower dbType) ?x] =>
        destruct (String.eqb_spec (ToLower dbType) x) as [Heq|_];
        [destruct Hty; rewrite Heq; cbn; tauto|]
    end.
    reflexivity.
Qed.

End RestoreFacts.

(* --------------------------------------------------------------------- *)
(** ** More on the retry wrapper *)
(* --------------------------------------------------------------------- *)

Section RetryOutcomes.
Context {T St float64 : Type}.
Variable scaleDuration : Z -> float64 -> Z.
Variable zero : T.
Variable ctx : Context.
Variable cfg : RetryConfig (float64 := float64).
Variable fn : St -> (T * option error) * St.

Abbreviation loop := (retryLoop scaleDuration zero ctx cfg fn).
Abbreviation next := (nextWait scaleDuration cfg).
Abbreviation stateAfter := (opStateAfter fn).
Abbreviation err := (errorOf fn).
Abbreviation res := (resultOf fn).
Abbreviation rounds := (failedRounds scaleDuration cfg).
Abbreviation failing := (failsRetryably fn).
Abbreviation run := (WithRetry scaleDuration zero ctx cfg fn).

Ltac basics := repeat split; try lia; try done; try (intros; lia).

(** How a run of the loop can end. *)
Lemma retryLoop_outcome rem :
  forall attempt wait lastErr r,
    attempt + Z.of_nat rem - 1 = MaxAttempts cfg ->
    exists (k : nat) (tail : list Event),
      let out := loop rem attempt wait lastErr r in
      let sk := stateAfter k (opState r) in
      events (snd out) = events r ++ rounds k wait ++ tail
      /\ (k + length tail <= rem)%nat
      /\ opState (snd out) = stateAfter (k + length tail) (opState r)
      /\ (forall i, (i < k)%nat -> failing (stateAfter i (opState r)))
      /\ ((rem = O /\ k = O /\ tail = [] /\ fst out = (zero, lastErr))
          \/ (tail = [] /\ doneAt ctx (selects r + 2 * k) = true
              /\ fst out = (zero, Some (ctxErr ctx)))
          \/ (tail = [EvCall]
              /\ ((err sk = None /\ fst out = (res sk, None))
                  \/ (exists e, err sk = Some e /\ isRetryable (Some e) = false
                        /\ fst out = (zero, Some e))
                  \/ (exists e, err sk = Some e /\ isRetryable (Some e) = true
                        /\ S k = rem /\ fst out = (zero, Some e))
                  \/ (failing sk /\ (S k < rem)%nat
                      /\ doneAt ctx (selects r + 2 * k + 1) = true
                      /\ fst out = (zero, Some (ctxErr ctx)))))).
Proof.
  induction rem as [|rem IH]; intros attempt wait lastErr r Hinv.
  - exists O, []. cbn -[isRetryable]. rewrite app_nil_r. basics. by left.
  - cbn [retryLoop]. unfold observe, Retry.record. cbn [opState selects events].
    destruct (doneAt ctx (selects r)) eqn:Hdone.
    { exists O, []. cbn -[isRetryable]. rewrite app_nil_r, Nat.add_0_r.
      basics. right; left. done. }
    destruct (fn (opState r)) as [[result oe] s'] eqn:Hfn.
    destruct oe as [e|].
    2:{ exists O, [EvCall]. cbn -[isRetryable]. unfold errorOf, resultOf. rewrite Hfn. cbn -[isRetryable].
        basics. right; right. split; [done|]. by left. }
    destruct (isRetryable (Some e)) eqn:Hre; cbn [negb].
    2:{ exists O, [EvCall]. cbn -[isRetryable]. unfold errorOf. rewrite Hfn. cbn -[isRetryable].
        basics. right; right. split; [done|].
        right; left. by exists e. }
    destruct (Z.ltb_spec attempt (MaxAttempts cfg)) as [Hlt|Hge].
    +
      destruct (doneAt ctx (S (selects r))) eqn:Hdone'.
      { exists O, [EvCall]. cbn -[isRetryable]. unfold errorOf, failsRetryably, errorOf. rewrite Hfn. cbn -[isRetryable].
        basics. right; right. split; [done|].
        right; right; right. repeat split.
        - by exists e.
        - lia.
        - by replace (selects r + 0 + 1)%nat with (S (selects r)) by lia. }
      fold (nextWait scaleDuration cfg wait).
      match goal with |- context [loop rem ?a ?w ?l ?r'] =>
        destruct (IH a w l r' ltac:(lia)) as (k & tail & Hev & Hlen & Hst & Hfail & Hout)
      end.
      cbv zeta in Hev, Hst, Hout |- *.
      cbn [opState selects events] in Hev, Hst, Hfail, Hout.
      exists (S k), tail.
      assert (Hs' : s' = snd (fn (opState r))) by (by rewrite Hfn).
      assert (Hshift : forall n, stateAfter n s' = stateAfter (S n) (opState r)).
      { intros n. unfold opStateAfter. rewrite Nat.iter_succ_r. by rewrite Hs'. }
      split; [|split; [|split; [|split]]].
      * rewrite Hev. cbn [failedRounds]. by rewrite <- !app_assoc.
      * lia.
      * rewrite Hst, Hshift. done.
      * intros [|i] Hi.
        -- exists e. unfold errorOf. cbn. by rewrite Hfn.
        -- rewrite <- Hshift. apply Hfail. lia.
      * destruct Hout as [(Hrem & _)|[(Ht & Hd & Ho)|(Ht & Ho)]].
        -- lia.
        -- right; left. split; [done|]. split; [|done].
           by replace (selects r + 2 * S k)%nat with (S (S (selects r)) + 2 * k)%nat by lia.
        -- right; right. split; [done|]. rewrite <- Hshift.
           destruct Ho as [Ho|[Ho|[Ho|Ho]]].
           ++ by left.
           ++ right; left. done.
           ++ right; right; left. destruct Ho as (e' & ? & ? & ? & ?).
              exists e'. repeat split; [done|done|lia|done].
           ++ right; right; right. destruct Ho as (? & ? & Hd & ?).
              repeat split; [done|lia| |done].
              by replace (selects r + 2 * S k + 1)%nat
                with (S (S (selects r)) + 2 * k + 1)%nat by lia.
    + assert (rem = O) as -> by lia.
      exists O, [EvCall]. cbn -[isRetryable]. unfold errorOf. rewrite Hfn. cbn -[isRetryable].
      basics. right; right. split; [done|].
      right; right; left. by exists e.
Qed.

Lemma run_outcome (s0 : St) :
  exists (k : nat) (tail : list Event),
    let out := run s0 in
    let sk := stateAfter k s0 in
    events (snd out) = rounds k (InitialWait cfg) ++ tail
    /\ (k + length tail <= Z.to_nat (MaxAttempts cfg))%nat
    /\ opState (snd out) = stateAfter (k + length tail) s0
    /\ (forall i, (i < k)%nat -> failing (stateAfter i s0))
    /\ ((MaxAttempts cfg <= 0 /\ k = O /\ tail = [] /\ fst out = (zero, None))
        \/ (tail = [] /\ doneAt ctx (2 * k) = true
            /\ fst out = (zero, Some (ctxErr ctx)))
        \/ (tail = [EvCall]
            /\ ((err sk = None /\ fst out = (res sk, None))
                \/ (exists e, err sk = Some e /\ isRetryable (Some e) = false
                      /\ fst out = (zero, Some e))
                \/ (exists e, err sk = Some e /\ isRetryable (Some e) = true
                      /\ S k = Z.to_nat (MaxAttempts cfg) /\ fst out = (zero, Some e))
                \/ (failing sk /\ (S k < Z.to_nat (MaxAttempts cfg))%nat
                    /\ doneAt ctx (2 * k + 1) = true
                    /\ fst out = (zero, Some (ctxErr ctx)))))).
Proof.
  unfold WithRetry.
  destruct (Z.le_gt_cases (MaxAttempts cfg) 0) as [Hle|Hgt].
  - exists O, []. replace (Z.to_nat (MaxAttempts cfg)) with O by lia. cbn.
    basics. by left.
  - set (r0 := {| opState := s0; selects := 0; events := [] |}).
    destruct (retryLoop_outcome (Z.to_nat (MaxAttempts cfg)) 1 (InitialWait cfg)
                None r0 ltac:(lia)) as (k & tail & Hev & Hlen & Hst & Hfail & Hout).
    exists k, tail. cbv zeta in *. subst r0. cbn [opState selects events] in *.
    cbn [app Nat.add] in Hev, Hout.
    split; [done|]. split; [done|]. split; [done|]. split; [done|].
    destruct Hout as [(Hrem & _)|[?|?]]; [lia|by right; left|by right; right].
Qed.

Lemma calls_tail (tail : list Event) :
  tail = [] \/ tail = [EvCall] -> calls tail = length tail /\ waits tail = [].
Proof. by intros [-> | ->]. Qed.

(** X12.  Whatever the operation returns and whatever the context does,
    a run of [WithRetry] is a number of failed rounds (a call that fails
    with a retryable error, then a completed wait) followed by at most one
    more call; the operation is called at most maxAttempts times, each of
    the calls before the last failed with a retryable error, and the state
    of the operation is threaded through exactly the calls made. *)
Theorem retry_run_shape (s0 : St) :
  let evs := events (snd (run s0)) in
  exists (k : nat) (tail : list Event),
    evs = rounds k (InitialWait cfg) ++ tail
    /\ (tail = [] \/ tail = [EvCall])
    /\ (forall i, (i < k)%nat -> failing (stateAfter i s0))
    /\ calls evs = (k + length tail)%nat
    /\ (calls evs <= Z.to_nat (MaxAttempts cfg))%nat
    /\ opState (snd (run s0)) = stateAfter (calls evs) s0.
Proof.
  cbv zeta. destruct (run_outcome s0) as (k & tail & Hev & Hlen & Hst & Hfail & Hout).
  cbv zeta in *. exists k, tail.
  assert (Htail : tail = [] \/ tail = [EvCall]).
  { destruct Hout as [(_ & _ & -> & _)|[(-> & _)|(-> & _)]]; auto. }
  assert (Hcalls : calls (events (snd (run s0))) = (k + length tail)%nat).
  { rewrite Hev, calls_app, calls_failedRounds.
    by destruct (calls_tail tail Htail) as [-> _]. }
  rewrite Hcalls. done.
Qed.

(** X13.  What [WithRetry] returns, for every operation and context.  A
    nil error comes either from a call that returned nil, and then the
    result is that call's result and every earlier call failed with a
    retryable error, or from maxAttempts <= 0, and then the operation was
    never called and the result is the zero value.  With a non-nil error
    the result is the zero value, and the error is the context's error or
    the error of the last call made. *)
Theorem retry_result_sound (s0 : St) :
  let out := run s0 in
  let n := calls (events (snd out)) in
  match snd (fst out) with
  | None =>
      (MaxAttempts cfg <= 0 /\ n = O /\ fst (fst out) = zero)
      \/ (exists k, n = S k /\ Z.of_nat k < MaxAttempts cfg
            /\ (forall i, (i < k)%nat -> failing (stateAfter i s0))
            /\ err (stateAfter k s0) = None
            /\ fst (fst out) = res (stateAfter k s0))
  | Some e =>
      fst (fst out) = zero
      /\ (e = ctxErr ctx \/ exists k, n = S k /\ err (stateAfter k s0) = Some e)
  end.
Proof.
  cbv zeta. destruct (run_outcome s0) as (k & tail & Hev & Hlen & Hst & Hfail & Hout).
  cbv zeta in *. rewrite Hev, calls_app, calls_failedRounds.
  destruct Hout as [(Hmax & -> & -> & Ho)|[(-> & Hd & Ho)|(-> & Ho)]].
  - rewrite Ho. cbn. left. done.
  - rewrite Ho. cbn. split; [done|]. by left.
  - change (calls [EvCall]) with 1%nat. cbn [length] in Hlen.
    destruct Ho as [(He & Ho)|[(e & He & Hre & Ho)|[(e & He & Hre & Hk & Ho)|(Hf & Hk & Hd & Ho)]]];
      rewrite Ho; cbn [fst snd].
    + right. exists k. repeat split; [lia|lia|done..].
    + split; [done|]. right. exists k. split; [lia|done].
    + split; [done|]. right. exists k. split; [lia|done].
    + split; [done|]. by left.
Qed.

Lemma nextWait_capped w : next w <= MaxWait cfg.
Proof.
  unfold nextWait. cbv zeta.
  destruct (Z.ltb_spec (MaxWait cfg) (scaleDuration w (Multiplier cfg))); lia.
Qed.

(** X14.  In every run of [WithRetry] a completed wait follows a call;
    the first wait is initialWait and every later wait is at most
    maxWait. *)
Theorem retry_waits_capped (s0 : St) (i : nat) (w : Z) :
  waits (events (snd (run s0))) !! i = Some w ->
  (i < calls (events (snd (run s0))))%nat
  /\ (i = O -> w = InitialWait cfg)
  /\ (i <> O -> w <= MaxWait cfg).
Proof.
  destruct (run_outcome s0) as (k & tail & Hev & Hlen & Hst & Hfail & Hout).
  cbv zeta in *.
  assert (Htail : tail = [] \/ tail = [EvCall]).
  { destruct Hout as [(_ & _ & -> & _)|[(-> & _)|(-> & _)]]; auto. }
  rewrite Hev, waits_app, waits_failedRounds, calls_app, calls_failedRounds.
  destruct (calls_tail tail Htail) as [-> ->]. rewrite app_nil_r.
  intros Hi. apply list_lookup_fmap_Some in Hi as (j & -> & Hj).
  apply lookup_seq in Hj as [-> Hj]. cbn [Nat.add].
  repeat split.
  - lia.
  - by intros ->.
  - destruct i as [|i]; [done|]. intros _. rewrite Nat.iter_succ. apply nextWait_capped.
Qed.

End RetryOutcomes.

Lemma lowerByte_idempotent c : lowerByte (lowerByte c) = lowerByte c.
Proof.
  unfold lowerByte.
  destruct ((65 <=? nat_of_ascii c)%nat && (nat_of_ascii c <=? 90)%nat) eqn:E.
  - apply andb_true_iff in E as [H1%Nat.leb_le H2%Nat.leb_le].
    rewrite nat_ascii_embedding by lia.
    destruct (Nat.leb_spec 65 (nat_of_ascii c + 32)); [|lia].
    destruct (Nat.leb_spec (nat_of_ascii c + 32) 90); [lia|done].
  - by rewrite E.
Qed.

Lemma lowerString_idempotent s : lowerString (lowerString s) = lowerString s.
Proof.
  induction s as [|c s IH]; [done|]. cbn [lowerString].
  by rewrite lowerByte_idempotent, IH.
Qed.

Lemma lowerString_app a b : lowerString (a +:+ b) = lowerString a +:+ lowerString b.
Proof.
  induction a as [|c a IH]; [done|].
  rewrite append_cons. cbn [lowerString]. by rewrite append_cons, IH.
Qed.

Lemma append_assoc a b c : (a +:+ b) +:+ c = a +:+ (b +:+ c).
Proof.
  induction a as [|x a IH]; [done|]. rewrite !append_cons. by rewrite IH.
Qed.

Lemma append_split_length a1 b1 a2 b2 :
  a1 +:+ b1 = a2 +:+ b2 -> String.length a1 = String.length a2 ->
  a1 = a2 /\ b1 = b2.
Proof.
  revert a2. induction a1 as [|c a1 IH]; intros [|c2 a2] H Hlen;
    try discriminate Hlen.
  - by rewrite !append_nil in H.
  - rewrite !append_cons in H. injection H as -> H.
    destruct (IH a2 H) as [-> ->]; [by injection Hlen|done].
Qed.

(** X15.  [equalFoldSlice] compares two strings byte by byte after mapping
    the bytes 'A' to 'Z' to lower case: it holds exactly when the two
    strings have the same lower-case form, so it is an equivalence relation,
    it relates every string to its lower-case form, and related strings
    have the same length. *)
Theorem equalFoldSlice_is_equivalence :
  (forall a b, equalFoldSlice a b = true <-> lowerString a = lowerString b)
  /\ (forall a, equalFoldSlice a a = true)
  /\ (forall a b, equalFoldSlice a b = equalFoldSlice b a)
  /\ (forall a b c, equalFoldSlice a b = true -> equalFoldSlice b c = true ->
        equalFoldSlice a c = true)
  /\ (forall a, equalFoldSlice a (lowerString a) = true)
  /\ (forall a b, equalFoldSlice a b = true -> String.length a = String.length b).
Proof.
  split_and!.
  - apply equalFoldSlice_spec.
  - intros a. by apply equalFoldSlice_spec.
  - intros a b. apply eq_true_iff_eq. rewrite !equalFoldSlice_spec. split; congruence.
  - intros a b c. rewrite !equalFoldSlice_spec. congruence.
  - intros a. apply equalFoldSlice_spec. by rewrite lowerString_idempotent.
  - intros a b. rewrite equalFoldSlice_spec. intros H.
    by rewrite <- (lowerString_length a), H, lowerString_length.
Qed.

(** X16.  [contains s substr] holds exactly when [substr] occurs in [s]
    with the case of the letters 'A' to 'Z' ignored.  So every string
    contains the empty string, the empty string contains only itself, the
    answer does not change when either argument is put in lower case, and
    text added around [s] does not remove an occurrence. *)
Theorem contains_is_fold_containment :
  (forall s substr, contains s substr = true <-> containsFold s substr)
  /\ (forall s, contains s EmptyString = true)
  /\ (forall substr, contains EmptyString substr = true <-> substr = EmptyString)
  /\ (forall s substr, contains s (lowerString substr) = contains s substr)
  /\ (forall s substr, contains (lowerString s) substr = contains s substr)
  /\ (forall s substr pre post,
        contains s substr = true -> contains (pre +:+ s +:+ post) substr = true).
Proof.
  split_and!.
  - apply contains_spec.
  - intros s. apply contains_spec. exists EmptyString, EmptyString, s. done.
  - intros substr. rewrite contains_spec. split.
    + intros (pre & mid & post & Hs & Hmid).
      destruct pre; [|discriminate]. destruct mid; [|discriminate].
      by destruct substr.
    + intros ->. by exists EmptyString, EmptyString, EmptyString.
  - intros s substr. apply eq_true_iff_eq. rewrite !contains_spec.
    unfold containsFold. by setoid_rewrite lowerString_idempotent.
  - intros s substr. apply eq_true_iff_eq. rewrite !contains_spec. split.
    + intros (pre & mid & post & Hs & Hmid).
      assert (Hlen : String.length s
                     = (String.length pre + String.length mid + String.length post)%nat).
      { rewrite <- (lowerString_length s), Hs, !append_length. lia. }
      destruct (substring_split (String.length pre) s) as [rest Hrest].
      destruct (substring_split (String.length mid) rest) as [post' Hpost].
      exists (String.substring 0 (String.length pre) s),
             (String.substring 0 (String.length mid) rest), post'.
      split; [by rewrite <- Hpost|].
      rewrite <- Hmid.
      assert (Hl1 : String.length (String.substring 0 (String.length pre) s)
                    = String.length pre) by (apply substring_0_length; lia).
      assert (Hl2 : (String.length mid <= String.length rest)%nat).
      { apply (f_equal String.length) in Hrest. rewrite append_length in Hrest. lia. }
      assert (Hl3 : String.length (String.substring 0 (String.length mid) rest)
                    = String.length mid) by (by apply substring_0_length).
      assert (Hlow : lowerString s
                     = lowerString (String.substring 0 (String.length pre) s)
                       +:+ lowerString (String.substring 0 (String.length mid) rest)
                       +:+ lowerString post').
      { rewrite <- !lowerString_app. by rewrite <- Hpost, <- Hrest. }
      rewrite Hs in Hlow.
      apply append_split_length in Hlow as [_ Hlow];
        [|by rewrite lowerString_length, Hl1].
      apply append_split_length in Hlow as [Hlow _];
        [|by rewrite lowerString_length, Hl3].
      rewrite <- (lowerString_idempotent (String.substring _ _ rest)).
      by rewrite <- Hlow.
    + intros (pre & mid & post & -> & Hmid).
      exists (lowerString pre), (lowerString mid), (lowerString post).
      split; [by rewrite !lowerString_app|].
      by rewrite lowerString_idempotent.
  - intros s substr pre post. rewrite !contains_spec.
    intros (pre' & mid & post' & -> & Hmid).
    exists (pre +:+ pre'), mid, (post' +:+ post). split; [|done].
    by rewrite !append_assoc.
Qed.

(* --------------------------------------------------------------------- *)
(** ** The catalogue and its clean-up *)
(* --------------------------------------------------------------------- *)

Section CatalogFacts.
Context {St : Type}.
Variable List : St -> string -> result (list Catalog.FileInfo).
Variable Read : St -> string -> result (result (list Byte.byte)).
Variable Delete : St -> string -> option error * St.
Variable Unmarshal : list Byte.byte -> result BackupMetadata.

Abbreviation ListBackups := (Catalog.ListBackups List Read Unmarshal).
Abbreviation GetBackup := (Catalog.GetBackup Read Unmarshal).
Abbreviation Cleanup := (Catalog.Cleanup List Read Delete Unmarshal).
Abbreviation listStep := (Catalog.listStep Read Unmarshal).
Abbreviation deleteFile := (Catalog.deleteFile Delete).
Abbreviation deleteBackup := (Catalog.deleteBackup Delete).

Lemma omap_cons {A B} (f : A -> option B) x l :
  omap f (x :: l) = match f x with Some y => y :: omap f l | None => omap f l end.
Proof. reflexivity. Qed.

Lemma fold_listStep st files acc :
  fold_left (fun backups file =>
               match listStep st file with
               | Some meta => backups ++ [meta]
               | None => backups
               end) files acc
  = acc ++ omap (listStep st) files.
Proof.
  revert acc. induction files as [|f fs IH]; intros acc; cbn [fold_left].
  - by rewrite app_nil_r.
  - rewrite IH, omap_cons. destruct (listStep st f); [by rewrite <- app_assoc|done].
Qed.

Lemma ListBackups_omap st :
  ListBackups st
  = match List st EmptyString with
    | Fail e => Fail e
    | Ok files => Ok (omap (listStep st) files)
    end.
Proof.
  unfold Catalog.ListBackups. destruct (List st EmptyString); [|done].
  by rewrite fold_listStep.
Qed.

(** X17.  Every record that [ListBackups] returns was parsed from a listed
    object whose key is "<id>.meta.json" for some id, and [GetBackup] of
    that id returns the same record; the id is the one in the key, whatever
    the id field of the record says.  [ListBackups] fails exactly when the
    listing itself fails, and returns at most one record per listed
    object. *)
Theorem listed_backups_can_be_fetched (st : St) :
  (forall e, ListBackups st = Fail e <-> List st EmptyString = Fail e)
  /\ (forall backups,
        ListBackups st = Ok backups ->
        exists files,
          List st EmptyString = Ok files
          /\ (length backups <= length files)%nat
          /\ forall m, In m backups ->
               exists id file,
                 In file files
                 /\ Catalog.Path file = id +:+ ".meta.json"
                 /\ GetBackup st id = Ok m).
Proof.
  rewrite ListBackups_omap.
  destruct (List st EmptyString) as [files|e0].
  2:{ split; [intros e; split; congruence|discriminate]. }
  split; [intros e; split; discriminate|].
  intros backups [= <-].
  exists files. split; [done|]. split.
  - clear. induction files as [|f fs IH]; [done|]. rewrite omap_cons.
    destruct (listStep st f); cbn [length]; lia.
  - intros m Hm. apply list_elem_of_In, list_elem_of_omap in Hm as (file & Hfile & Hstep).
    unfold Catalog.listStep in Hstep.
    destruct (HasSuffix (Catalog.Path file) ".meta.json") eqn:Hsuf; [|done].
    apply HasSuffix_spec in Hsuf as [id Hid]. cbn [negb] in Hstep.
    exists id, file. split; [by apply list_elem_of_In|]. split; [done|].
    unfold Catalog.GetBackup. rewrite <- Hid.
    destruct (Read st (Catalog.Path file)) as [[data|?]|?]; [|done..].
    destruct (Catalog.ParseMetadata Unmarshal data); [|done]. by injection Hstep as ->.
Qed.

Lemma deleteFiles_sweep files sw :
  Catalog.deletedCount (fold_left deleteFile files sw) = Catalog.deletedCount sw
  /\ map fst (Catalog.deletes (fold_left deleteFile files sw))
     = map fst (Catalog.deletes sw) ++ files.
Proof.
  revert sw. induction files as [|f fs IH]; intros sw; cbn [fold_left].
  - by rewrite app_nil_r.
  - destruct (IH (deleteFile sw f)) as [-> ->].
    unfold Catalog.deleteFile. destruct (Delete (Catalog.backend sw) f) as [err st'].
    cbn [Catalog.deletedCount Catalog.deletes]. split; [done|].
    by rewrite map_app, <- app_assoc.
Qed.

Lemma deleteBackups_sweep toDelete sw :
  0 <= Catalog.deletedCount sw ->
  Catalog.deletedCount sw + Z.of_nat (length toDelete) <= maxInt64 ->
  Catalog.deletedCount (fold_left deleteBackup toDelete sw)
  = Catalog.deletedCount sw + Z.of_nat (length toDelete)
  /\ map fst (Catalog.deletes (fold_left deleteBackup toDelete sw))
     = map fst (Catalog.deletes sw) ++ concat (map Files toDelete).
Proof.
  revert sw. induction toDelete as [|b bs IH]; intros sw H0 Hmax; cbn [fold_left].
  - cbn. rewrite app_nil_r. split; [lia|done].
  - cbn [length] in Hmax |- *.
    destruct (deleteFiles_sweep (Files b) sw) as [Hc Hd].
    destruct (IH (deleteBackup sw b)) as [-> ->].
    + unfold Catalog.deleteBackup. cbn [Catalog.deletedCount]. rewrite Hc.
      rewrite wrap64_id by (unfold minInt64, maxInt64 in *; lia). lia.
    + unfold Catalog.deleteBackup. cbn [Catalog.deletedCount]. rewrite Hc.
      rewrite wrap64_id by (unfold minInt64, maxInt64 in *; lia). lia.
    + unfold Catalog.deleteBackup. cbn [Catalog.deletedCount Catalog.deletes].
      rewrite Hc, Hd.
      rewrite wrap64_id by (unfold minInt64, maxInt64 in *; lia).
      split; [lia|]. cbn [map concat]. by rewrite <- app_assoc.
Qed.

(** X18.  [Cleanup] reports the number of records that the rotator
    selected, not the number of objects removed: when the listing succeeds
    it returns that count with a nil error whatever the [Delete] calls
    answer, failures included, after one [Delete] per listed file of each
    selected record, in order; when the listing fails it returns 0 and the
    wrapped error and deletes nothing. *)
Theorem cleanup_counts_selected_records (p : Policy) (now : Time) (st : St) :
  (forall e,
     ListBackups st = Fail e ->
     Cleanup p now st
     = ((0, Some (Wrap "failed to list backups: " e)),
        {| Catalog.backend := st; Catalog.deletes := [];
           Catalog.deletedCount := 0 |}))
  /\ (forall backups,
        ListBackups st = Ok backups ->
        Z.of_nat (length backups) <= maxInt64 ->
        let toDelete := DetermineBackupsToDelete p now backups in
        fst (Cleanup p now st) = (Z.of_nat (length toDelete), None)
        /\ map fst (Catalog.deletes (snd (Cleanup p now st)))
           = concat (map Files toDelete)).
Proof.
  unfold Catalog.Cleanup. split.
  - by intros e ->.
  - intros backups -> Hlen. cbv beta iota zeta.
    set (toDelete := DetermineBackupsToDelete p now backups). cbn [fst snd].
    assert (length toDelete <= length backups)%nat as Hle.
    { subst toDelete.
      rewrite <- (Permutation_length (sortSlice_Permutation backups)).
      apply sublist_length, Determine_sublist. }
    destruct (deleteBackups_sweep toDelete
                {| Catalog.backend := st; Catalog.deletes := [];
                   Catalog.deletedCount := 0 |}) as [Hc Hd];
      cbn [Catalog.deletedCount]; [lia|lia|].
    rewrite Hc, Hd. done.
Qed.

(** ** A backend on which a [Delete] touches one key only *)

Abbreviation withoutKey := Catalog.withoutKey.
Abbreviation metaEntries := Catalog.metaEntries.
Abbreviation sameCatalog := (Catalog.sameCatalog List Read).

Hypothesis Delete_one_key : Catalog.deleteTouchesOneKey List Read Delete.

Lemma filter_meta_withoutKey k files :
  HasSuffix k ".meta.json" = false ->
  List.filter (fun f => HasSuffix (Catalog.Path f) ".meta.json")
    (List.filter (fun f => negb (String.eqb (Catalog.Path f) k)) files)
  = List.filter (fun f => HasSuffix (Catalog.Path f) ".meta.json") files.
Proof.
  intros Hk. induction files as [|f fs IH]; [done|]. cbn [List.filter].
  destruct (String.eqb_spec (Catalog.Path f) k) as [Heq|Hne]; cbn [negb].
  - rewrite Heq, Hk. exact IH.
  - cbn [List.filter]. by rewrite IH.
Qed.

Lemma metaEntries_withoutKey k r :
  HasSuffix k ".meta.json" = false ->
  metaEntries (withoutKey k r) = metaEntries r.
Proof.
  intros Hk. destruct r as [files|e]; [|done]. cbn [Catalog.withoutKey Catalog.metaEntries].
  by rewrite filter_meta_withoutKey.
Qed.

Lemma sameCatalog_Delete st st' k :
  HasSuffix k ".meta.json" = false ->
  sameCatalog st st' -> sameCatalog st (snd (Delete st' k)).
Proof.
  intros Hk [Hl Hr]. split.
  - rewrite <- Hl. rewrite <- (metaEntries_withoutKey k (List (snd _) _)) by done.
    rewrite (proj2 Delete_one_key). by apply metaEntries_withoutKey.
  - intros k' Hk'. rewrite (proj1 Delete_one_key); [by apply Hr|]. intros ->. congruence.
Qed.

Lemma listStep_not_meta st f :
  HasSuffix (Catalog.Path f) ".meta.json" = false -> listStep st f = None.
Proof. intros Hf. unfold Catalog.listStep. by rewrite Hf. Qed.

Lemma omap_listStep_meta st (files : list Catalog.FileInfo) :
  omap (listStep st) files
  = omap (listStep st)
      (List.filter (fun f => HasSuffix (Catalog.Path f) ".meta.json") files).
Proof.
  induction files as [|f fs IH]; [done|]. cbn [List.filter].
  destruct (HasSuffix (Catalog.Path f) ".meta.json") eqn:Hf.
  - by rewrite !omap_cons, IH.
  - by rewrite omap_cons, listStep_not_meta.
Qed.

Lemma omap_listStep_Read st st' (files : list Catalog.FileInfo) :
  (forall k, HasSuffix k ".meta.json" = true -> Read st' k = Read st k) ->
  omap (listStep st') files = omap (listStep st) files.
Proof.
  intros Hr. induction files as [|f fs IH]; [done|]. rewrite !omap_cons.
  rewrite IH.
  destruct (HasSuffix (Catalog.Path f) ".meta.json") eqn:Hf.
  - unfold Catalog.listStep. by rewrite Hr.
  - by rewrite !listStep_not_meta.
Qed.

Lemma sameCatalog_ListBackups st st' :
  sameCatalog st st' -> ListBackups st' = ListBackups st.
Proof.
  intros [Hl Hr]. rewrite !ListBackups_omap.
  unfold Catalog.metaEntries in Hl.
  destruct (List st' EmptyString) as [files'|e'], (List st EmptyString) as [files|e];
    try discriminate Hl; [|by injection Hl as ->].
  injection Hl as Hl. f_equal.
  rewrite (omap_listStep_meta st' files'), (omap_listStep_meta st files), Hl.
  by apply omap_listStep_Read.
Qed.

Lemma sameCatalog_deleteFiles st files sw :
  (forall f, In f files -> HasSuffix f ".meta.json" = false) ->
  sameCatalog st (Catalog.backend sw) ->
  sameCatalog st (Catalog.backend (fold_left deleteFile files sw)).
Proof.
  revert sw. induction files as [|f fs IH]; intros sw Hfs Hsame; [done|].
  cbn [fold_left]. apply IH; [intros; apply Hfs; by right|].
  unfold Catalog.deleteFile.
  destruct (Delete (Catalog.backend sw) f) as [err st'] eqn:Hd.
  cbn [Catalog.backend].
  replace st' with (snd (Delete (Catalog.backend sw) f)) by (by rewrite Hd).
  apply sameCatalog_Delete; [apply Hfs; by left|done].
Qed.

Lemma sameCatalog_deleteBackups st toDelete sw :
  (forall b f, In b toDelete -> In f (Files b) -> HasSuffix f ".meta.json" = false) ->
  sameCatalog st (Catalog.backend sw) ->
  sameCatalog st (Catalog.backend (fold_left deleteBackup toDelete sw)).
Proof.
  revert sw. induction toDelete as [|b bs IH]; intros sw Hfs Hsame; [done|].
  cbn [fold_left]. apply IH; [intros b' f ? ?; apply (Hfs b'); [by right|done]|].
  unfold Catalog.deleteBackup. cbn [Catalog.backend].
  apply sameCatalog_deleteFiles; [|done].
  intros f Hf. apply (Hfs b); [by left|done].
Qed.

(** X19.  On a backend whose [Delete] leaves the other keys as they are,
    [Cleanup] removes no metadata object when no selected record lists a
    name that ends in ".meta.json" (such are the records that [Run]
    persists): after the clean-up [ListBackups] returns the same records as
    before, the deleted ones included, and a second [Cleanup] at the same
    time selects the same records and reports the same count again. *)
Theorem cleanup_keeps_metadata_objects (p : Policy) (now : Time) (st : St)
    (backups : list BackupMetadata) :
  ListBackups st = Ok backups ->
  (forall b f, In b (DetermineBackupsToDelete p now backups) ->
     In f (Files b) -> HasSuffix f ".meta.json" = false) ->
  let st' := Catalog.backend (snd (Cleanup p now st)) in
  ListBackups st' = Ok backups
  /\ fst (Cleanup p now st') = fst (Cleanup p now st)
  /\ map fst (Catalog.deletes (snd (Cleanup p now st')))
     = map fst (Catalog.deletes (snd (Cleanup p now st))).
Proof.
  intros Hlist Hfiles st'.
  assert (Hsame : sameCatalog st st').
  { subst st'. unfold Catalog.Cleanup. rewrite Hlist. cbn [snd].
    apply sameCatalog_deleteBackups; [done|]. cbn [Catalog.backend]. by split. }
  assert (Hlist' : ListBackups st' = Ok backups)
    by (by rewrite (sameCatalog_ListBackups st st')).
  split; [done|].
  assert (Hgen : forall toDelete sw sw',
            Catalog.deletedCount sw = Catalog.deletedCount sw' ->
            map fst (Catalog.deletes sw) = map fst (Catalog.deletes sw') ->
            Catalog.deletedCount (fold_left deleteBackup toDelete sw)
            = Catalog.deletedCount (fold_left deleteBackup toDelete sw')
            /\ map fst (Catalog.deletes (fold_left deleteBackup toDelete sw))
               = map fst (Catalog.deletes (fold_left deleteBackup toDelete sw'))).
  { induction toDelete as [|b bs IH]; intros sw sw' Hc Hd; [done|].
    cbn [fold_left]. apply IH.
    - unfold Catalog.deleteBackup. cbn [Catalog.deletedCount].
      destruct (deleteFiles_sweep (Files b) sw) as [-> _].
      destruct (deleteFiles_sweep (Files b) sw') as [-> _]. by rewrite Hc.
    - unfold Catalog.deleteBackup. cbn [Catalog.deletes].
      destruct (deleteFiles_sweep (Files b) sw) as [_ ->].
      destruct (deleteFiles_sweep (Files b) sw') as [_ ->]. by rewrite Hd. }
  unfold Catalog.Cleanup. rewrite Hlist, Hlist'. cbn [fst snd].
  destruct (Hgen (DetermineBackupsToDelete p now backups)
              {| Catalog.backend := st'; Catalog.deletes := [];
                 Catalog.deletedCount := 0 |}
              {| Catalog.backend := st; Catalog.deletes := [];
                 Catalog.deletedCount := 0 |} eq_refl eq_refl) as [-> ->].
  done.
Qed.

End CatalogFacts.

(* --------------------------------------------------------------------- *)
(** ** The configuration, the driver and the record of a run *)
(* --------------------------------------------------------------------- *)

Lemma append_split_length_r a1 b1 a2 b2 :
  a1 +:+ b1 = a2 +:+ b2 -> String.length b1 = String.length b2 ->
  a1 = a2 /\ b1 = b2.
Proof.
  intros H Hlen. apply append_split_length; [done|].
  apply (f_equal String.length) in H. rewrite !append_length in H. lia.
Qed.

Lemma HasSuffix_append s suffix : HasSuffix (s +:+ suffix) suffix = true.
Proof. apply HasSuffix_spec. by exists s. Qed.

(** A string that ends in the byte [c] does not end in a suffix whose last
    byte is another one. *)
Lemma HasSuffix_last_byte s c suffix c' :
  c <> c' ->
  HasSuffix (s +:+ String c EmptyString) (suffix +:+ String c' EmptyString) = false.
Proof.
  intros Hne. apply not_true_is_false. intros [pre Hpre]%HasSuffix_spec.
  rewrite <- append_assoc in Hpre.
  apply append_split_length_r in Hpre as [_ Hc]; [|done]. congruence.
Qed.

Section ConfigFacts.
Variable ToLower : string -> string.

Abbreviation validate := (Config.validate ToLower).
Abbreviation IsSQLite := (Config.IsSQLite ToLower).
Abbreviation IsPostgres := (Config.IsPostgres ToLower).
Abbreviation dbTypeOf c := (Config.Type_ (Config.Database c)).

Lemma validate_type (c : Config.Config) :
  validate c = None ->
  In (ToLower (dbTypeOf c))
     ["postgres"; "postgresql"; "pg"; EmptyString; "sqlite"; "sqlite3"].
Proof.
  unfold Config.validate. cbv zeta.
  set (t := ToLower (dbTypeOf c)).
  destruct (String.eqb_spec t EmptyString) as [->|_]; [cbn; tauto|].
  destruct (String.eqb_spec t "postgres") as [->|_]; [cbn; tauto|].
  destruct (String.eqb_spec t "postgresql") as [->|_]; [cbn; tauto|].
  destruct (String.eqb_spec t "pg") as [->|_]; [cbn; tauto|].
  destruct (String.eqb_spec t "sqlite") as [->|_]; [cbn; tauto|].
  destruct (String.eqb_spec t "sqlite3") as [->|_]; [cbn; tauto|].
  cbn [orb]. discriminate.
Qed.

Lemma IsSQLite_iff c :
  IsSQLite c = true <-> In (ToLower (dbTypeOf c)) ["sqlite"; "sqlite3"].
Proof.
  unfold Config.IsSQLite. cbv zeta. rewrite orb_true_iff, !String.eqb_eq.
  cbn. intuition congruence.
Qed.

Lemma IsPostgres_iff c :
  IsPostgres c = true
  <-> In (ToLower (dbTypeOf c)) ["postgres"; "postgresql"; "pg"; EmptyString].
Proof.
  unfold Config.IsPostgres. cbv zeta. rewrite !orb_true_iff, !String.eqb_eq.
  cbn. intuition congruence.
Qed.

(** X20.  [IsSQLite] and [IsPostgres] never hold together, and a
    configuration that [validate] accepts satisfies exactly one of them; a
    configuration that satisfies neither is rejected with the error that
    names its database type. *)
Theorem validated_type_is_sqlite_or_postgres (c : Config.Config) :
  IsSQLite c && IsPostgres c = false
  /\ (validate c = None -> xorb (IsSQLite c) (IsPostgres c) = true)
  /\ (IsSQLite c = false -> IsPostgres c = false ->
      validate c
      = Some (New ("unsupported database type: " +:+ dbTypeOf c
                   +:+ " (supported: postgres, sqlite)"))).
Proof.
  assert (Hex : IsSQLite c && IsPostgres c = false).
  { apply not_true_is_false. intros [H1 H2]%andb_true_iff.
    apply IsSQLite_iff in H1. apply IsPostgres_iff in H2.
    cbn in H1, H2. intuition congruence. }
  split_and!.
  - done.
  - intros Hv%validate_type.
    destruct (IsSQLite c) eqn:Hs, (IsPostgres c) eqn:Hp; try done.
    apply not_true_iff_false in Hs, Hp.
    rewrite IsSQLite_iff in Hs. rewrite IsPostgres_iff in Hp.
    cbn in Hv, Hs, Hp. intuition.
  - intros Hs Hp. apply not_true_iff_false in Hs, Hp.
    rewrite IsSQLite_iff in Hs. rewrite IsPostgres_iff in Hp.
    unfold Config.validate. cbv zeta.
    set (t := ToLower (dbTypeOf c)) in *.
    destruct (String.eqb_spec t EmptyString) as [Heq|_];
      [destruct Hp; rewrite Heq; cbn; tauto|].
    repeat match goal with
    | |- context [String.eqb t ?x] =>
        destruct (String.eqb_spec t x) as [Heq|_];
        [exfalso; first [apply Hp; rewrite Heq; cbn; tauto
                        |apply Hs; rewrite Heq; cbn; tauto]|]
    end.
    reflexivity.
Qed.

(** X21.  [NewDriver] compares the configured type with the lower-case
    names as it is written, while [validate] compares its lower-case form:
    a configuration that [validate] accepts but whose type is not written
    as one of the names "postgres", "postgresql", "pg", "sqlite", "sqlite3"
    or the empty string gets no driver: [NewDriver] answers with the error that names
    the type, although [IsSQLite] or [IsPostgres] holds of the
    configuration. *)
Theorem validated_type_without_driver (c : Config.Config) :
  validate c = None ->
  ~ In (dbTypeOf c)
      ["postgres"; "postgresql"; "pg"; EmptyString; "sqlite"; "sqlite3"] ->
  NewDriver (dbTypeOf c)
  = Unsupported (New ("unsupported database type: " +:+ dbTypeOf c))
  /\ ToLower (dbTypeOf c) <> dbTypeOf c
  /\ (IsSQLite c = true \/ IsPostgres c = true).
Proof.
  intros Hv Hty. split_and!.
  - unfold NewDriver.
    repeat match goal with
    | |- context [String.eqb (dbTypeOf c) ?x] =>
        destruct (String.eqb_spec (dbTypeOf c) x) as [Heq|_];
        [destruct Hty; rewrite Heq; cbn; tauto|]
    end.
    reflexivity.
  - intros Heq. apply validate_type in Hv. by rewrite Heq in Hv.
  - apply validate_type in Hv.
    rewrite IsSQLite_iff, IsPostgres_iff. cbn in Hv |- *. tauto.
Qed.

(** X22.  For a type that is written in lower case already, [NewDriver]
    and the configuration agree: on a configuration that [validate]
    accepts, [NewDriver] selects the SQLite driver exactly when [IsSQLite]
    holds and the Postgres driver otherwise, and never fails on the
    type. *)
Theorem driver_follows_config (c : Config.Config) :
  validate c = None ->
  ToLower (dbTypeOf c) = dbTypeOf c ->
  NewDriver (dbTypeOf c) = (if IsSQLite c then SQLiteDriver else PostgresDriver).
Proof.
  intros Hv Hlow. apply validate_type in Hv.
  destruct (IsSQLite c) eqn:Hs.
  - apply IsSQLite_iff in Hs. rewrite Hlow in Hs.
    cbn in Hs. destruct Hs as [<-|[<-|[]]]; reflexivity.
  - apply not_true_iff_false in Hs. rewrite IsSQLite_iff in Hs.
    rewrite Hlow in Hv, Hs. cbn in Hv, Hs.
    destruct Hv as [<-|[<-|[<-|[<-|[Hv|[Hv|[]]]]]]]; try reflexivity; tauto.
Qed.

Section RestoreAndConfig.
Variable verifySQLiteRestore verifyPostgresRestore : LocalFile -> bool -> option error.

(** X23.  For a configuration that [validate] accepts, the restore check
    of a validator built with the configured type, as [Run] builds it, never
    answers that the type is unsupported: once the artifact is read and
    copied it runs the SQLite procedure when [IsSQLite] holds and the
    Postgres procedure otherwise, with the flag [compressed] set exactly
    when the name of the artifact ends in ".gz". *)
Theorem restore_check_follows_config (c : Config.Config) (w : World)
    (md : BackupMetadata) (content : list Byte.byte) (tmpFile : LocalFile) :
  validate c = None ->
  findBackupFile md <> EmptyString ->
  Read (storage w) (findBackupFile md) = Ok content ->
  createTempFile w content = Ok tmpFile ->
  VerifyRestoreIntegrity ToLower verifySQLiteRestore verifyPostgresRestore
    w (dbTypeOf c) md
  = ([CallRead (findBackupFile md)],
     if IsSQLite c
     then verifySQLiteRestore tmpFile (HasSuffix (findBackupFile md) ".gz")
     else verifyPostgresRestore tmpFile (HasSuffix (findBackupFile md) ".gz")).
Proof.
  intros Hv Hne Hread Htmp. unfold VerifyRestoreIntegrity.
  destruct (String.eqb_spec (findBackupFile md) EmptyString) as [|_]; [done|].
  rewrite Hread, Htmp. cbv zeta. f_equal.
  unfold Config.IsSQLite. cbv zeta.
  apply validate_type in Hv.
  set (t := ToLower (dbTypeOf c)) in *.
  cbn in Hv. destruct Hv as [<-|[<-|[<-|[<-|[<-|[<-|[]]]]]]]; reflexivity.
Qed.

End RestoreAndConfig.

(** ** The record of a run *)

Abbreviation storagePath := (RunRecord.storagePath ToLower).
Abbreviation recordOfRun := (RunRecord.recordOfRun ToLower).

Lemma storagePath_cases cfg backupID :
  exists ext,
    In ext [".sql"; ".dump"]
    /\ storagePath cfg backupID
       = if String.eqb (Config.Compression cfg) "gzip"
         then (backupID +:+ ext) +:+ ".gz" else backupID +:+ ext.
Proof.
  unfold RunRecord.storagePath. cbv zeta.
  destruct (Config.IsSQLite ToLower cfg); eexists; (split; [|reflexivity]); cbn; tauto.
Qed.

Lemma storagePath_suffixes cfg backupID :
  HasSuffix (storagePath cfg backupID) ".meta.json" = false
  /\ HasSuffix (storagePath cfg backupID) ".gz"
     = String.eqb (Config.Compression cfg) "gzip".
Proof.
  destruct (storagePath_cases cfg backupID) as (ext & Hext & ->).
  destruct (String.eqb (Config.Compression cfg) "gzip").
  - split; [|apply HasSuffix_append].
    change ".gz" with (".g" +:+ "z"). rewrite <- append_assoc.
    by apply (HasSuffix_last_byte _ "z" ".meta.jso" "n").
  - cbn in Hext. destruct Hext as [<-|[<-|[]]].
    + change ".sql" with (".sq" +:+ "l"). rewrite <- append_assoc. split.
      * by apply (HasSuffix_last_byte _ "l" ".meta.jso" "n").
      * by apply (HasSuffix_last_byte _ "l" ".g" "z").
    + change ".dump" with (".dum" +:+ "p"). rewrite <- append_assoc. split.
      * by apply (HasSuffix_last_byte _ "p" ".meta.jso" "n").
      * by apply (HasSuffix_last_byte _ "p" ".g" "z").
Qed.

Lemma recordOfRun_fields cfg p startTime stamp dbVersion driverType
    size compressedSize duration checksum :
  let md := recordOfRun cfg p startTime stamp dbVersion driverType
              size compressedSize duration checksum in
  ID md = GenerateBackupID startTime
  /\ Timestamp md = UTC stamp
  /\ Files md = [storagePath cfg (GenerateBackupID startTime)]
  /\ Type_ md = BackupTypeName (GetPrimaryType startTime)
  /\ RetentionPolicy (Retention md) = BackupTypeName (GetPrimaryType startTime)
  /\ KeepUntil (Retention md) = fst (GetRetentionInfo p startTime)
  /\ Postgres.Compression (Postgres.Backup md) = Config.Compression cfg
  /\ CompressedSize (Postgres.Backup md) = compressedSize
  /\ Checksum (Postgres.Backup md) = checksum.
Proof.
  cbv zeta. unfold RunRecord.recordOfRun, GetRetentionInfo. cbv zeta.
  split_and!; reflexivity.
Qed.

(** X24.  The record that [Run] serialises lists one file only, the
    artifact "<id>.sql" or "<id>.dump" (with ".gz" added exactly for gzip
    compression), and not its own metadata object, which is added to the
    list only after the serialisation.  On the record in both forms
    [Validate] and the restore check pick the artifact as the data file.
    The id is made from the start time, the timestamp is the later clock
    reading in UTC, the type is the primary type of the start time, and the
    compression recorded is the configured one, whether or not the
    artifact was compressed. *)
Theorem run_record_lists_the_artifact (cfg : Config.Config) (p : Policy)
    (startTime stamp : Time) (dbVersion driverType : string)
    (size compressedSize duration : Z) (checksum : string) :
  let md := recordOfRun cfg p startTime stamp dbVersion driverType
              size compressedSize duration checksum in
  let artifact := storagePath cfg (GenerateBackupID startTime) in
  Files md = [artifact]
  /\ Files (RunRecord.recordAfterWrite md) = [artifact; ID md +:+ ".meta.json"]
  /\ (forall f, In f (Files md) -> HasSuffix f ".meta.json" = false)
  /\ HasSuffix artifact ".gz" = String.eqb (Config.Compression cfg) "gzip"
  /\ findBackupFile md = artifact /\ dataFile md = artifact
  /\ findBackupFile (RunRecord.recordAfterWrite md) = artifact
  /\ dataFile (RunRecord.recordAfterWrite md) = artifact
  /\ ID md = GenerateBackupID startTime
  /\ Timestamp md = UTC stamp
  /\ Type_ md = BackupTypeName (GetPrimaryType startTime)
  /\ Postgres.Compression (Postgres.Backup md) = Config.Compression cfg.
Proof.
  intros md artifact.
  destruct (recordOfRun_fields cfg p startTime stamp dbVersion driverType
              size compressedSize duration checksum)
    as (Hid & Hts & Hfiles & Hty & _ & _ & Hcomp & _ & _).
  fold md in Hid, Hts, Hfiles, Hty, Hcomp. fold artifact in Hfiles.
  destruct (storagePath_suffixes cfg (GenerateBackupID startTime)) as [Hmeta Hgz].
  fold artifact in Hmeta, Hgz.
  assert (Hkey : HasSuffix (ID md +:+ ".meta.json") ".meta.json" = true)
    by apply HasSuffix_append.
  assert (Hne : artifact <> ID md +:+ ".meta.json") by congruence.
  assert (Hafter : Files (RunRecord.recordAfterWrite md)
                   = [artifact; ID md +:+ ".meta.json"]).
  { unfold RunRecord.recordAfterWrite, AddFile. cbn [Files]. by rewrite Hfiles. }
  split_and!; try done.
  - intros f Hf. rewrite Hfiles in Hf. by destruct Hf as [<-|[]].
  - unfold findBackupFile. rewrite Hfiles. cbn [firstDataFile]. by rewrite Hmeta.
  - unfold dataFile, metaKey. rewrite Hfiles. cbn [findDataFile].
    by destruct (String.eqb_spec artifact (ID md +:+ ".meta.json")).
  - unfold findBackupFile. rewrite Hafter. cbn [firstDataFile]. by rewrite Hmeta.
  - unfold dataFile, metaKey. rewrite Hafter.
    assert (ID (RunRecord.recordAfterWrite md) = ID md) as -> by done.
    cbn [findDataFile].
    by destruct (String.eqb_spec artifact (ID md +:+ ".meta.json")).
Qed.

End ConfigFacts.

(* --------------------------------------------------------------------- *)
(** ** When two backup ids are equal *)
(* --------------------------------------------------------------------- *)

Lemma digitChar_inj x y :
  0 <= x < 10 -> 0 <= y < 10 -> digitChar x = digitChar y -> x = y.
Proof.
  intros Hx Hy H. unfold digitChar in H.
  apply (f_equal nat_of_ascii) in H.
  rewrite !nat_ascii_embedding in H by lia. lia.
Qed.

Lemma fixedDigits_inj w x y :
  0 <= x < 10 ^ Z.of_nat w -> 0 <= y < 10 ^ Z.of_nat w ->
  fixedDigits w x = fixedDigits w y -> x = y.
Proof.
  revert x y. induction w as [|w IH]; intros x y Hx Hy H.
  - cbn in Hx, Hy. lia.
  - rewrite Nat2Z.inj_succ, Z.pow_succ_r in Hx, Hy by lia.
    cbn [fixedDigits] in H.
    apply append_split_length_r in H as [H1 H2]; [|done].
    injection H2 as H2.
    apply digitChar_inj in H2; [|apply Z.mod_pos_bound; lia..].
    apply IH in H1; [|split; [apply Z.div_pos; lia|apply Z.div_lt_upper_bound; lia]..].
    rewrite (Z.div_mod x 10), (Z.div_mod y 10) by lia. lia.
Qed.

Lemma Format_fixed t :
  0 <= Year t <= 9999 ->
  Format_20060102_150405 t
  = fixedDigits 4 (Year t) +:+ fixedDigits 2 (Month t) +:+ fixedDigits 2 (Day t)
    +:+ "_" +:+ fixedDigits 2 (HourOf t) +:+ fixedDigits 2 (MinuteOf t)
    +:+ fixedDigits 2 (SecondOf t).
Proof.
  intros Hy.
  pose proof (month_day_range t) as [Hm Hd].
  pose proof (clock_range t) as (Hh & Hmi & Hs).
  unfold Format_20060102_150405.
  rewrite appendInt_4 by lia. by rewrite !appendInt_2 by lia.
Qed.

Lemma civil_inj d1 d2 : civil d1 = civil d2 -> d1 = d2.
Proof.
  intros H. pose proof (daysFromCivil_civil d1) as H1.
  pose proof (daysFromCivil_civil d2) as H2. rewrite H in H1.
  destruct (civil d2) as [[y m] d]. congruence.
Qed.

(** X25.  Two backup ids are equal exactly when the clocks of the two
    locations show the same second (years 0 to 9999): runs that start in
    different wall-clock seconds get different ids, and runs that start
    within one wall-clock second share their id whatever their instants and
    locations are. *)
Theorem backup_ids_equal_iff_same_wall_second (t u : Time) :
  0 <= Year t <= 9999 -> 0 <= Year u <= 9999 ->
  GenerateBackupID t = GenerateBackupID u <-> wallSeconds t = wallSeconds u.
Proof.
  intros Ht Hu. split.
  - unfold GenerateBackupID. intros H.
    apply append_split_length in H as [_ H]; [|done].
    rewrite !Format_fixed in H by done.
    pose proof (month_day_range t) as [Hm Hd].
    pose proof (month_day_range u) as [Hm' Hd'].
    pose proof (clock_range t) as (Hh & Hmi & Hs).
    pose proof (clock_range u) as (Hh' & Hmi' & Hs').
    apply append_split_length in H as [HY H]; [|by rewrite !fixedDigits_length].
    apply append_split_length in H as [HM H]; [|by rewrite !fixedDigits_length].
    apply append_split_length in H as [HD H]; [|by rewrite !fixedDigits_length].
    apply append_split_length in H as [_ H]; [|done].
    apply append_split_length in H as [Hh2 H]; [|by rewrite !fixedDigits_length].
    apply append_split_length in H as [Hmi2 Hs2]; [|by rewrite !fixedDigits_length].
    apply fixedDigits_inj in HY, HM, HD, Hh2, Hmi2, Hs2;
      try (change (10 ^ Z.of_nat 4) with 10000);
      try (change (10 ^ Z.of_nat 2) with 100); try lia.
    assert (wallDays t = wallDays u) as Hdays.
    { apply civil_inj. unfold Year, Month, Day in HY, HM, HD.
      destruct (civil (wallDays t)) as [[y m] d], (civil (wallDays u)) as [[y' m'] d'].
      cbn [fst snd] in HY, HM, HD. congruence. }
    assert (secondOfDay t = secondOfDay u) as Hsod.
    { rewrite <- (clock_secondOfDay t), <- (clock_secondOfDay u). congruence. }
    unfold wallDays, secondOfDay in Hdays, Hsod.
    rewrite (Z.div_mod (wallSeconds t) 86400), (Z.div_mod (wallSeconds u) 86400) by lia.
    congruence.
  - intros H. unfold GenerateBackupID. f_equal. by apply Format_wall_clock.
Qed.

(* --------------------------------------------------------------------- *)
(** ** More tests of the repository, run on the model *)
(* --------------------------------------------------------------------- *)

Example test_CalculateRetentionDate :
  CalculateRetentionDate testPolicy (noon 2024 1 15) BackupTypeDaily = noon 2024 1 22
  /\ CalculateRetentionDate testPolicy (noon 2024 1 15) BackupTypeWeekly = noon 2024 2 12
  /\ CalculateRetentionDate testPolicy (noon 2024 1 15) BackupTypeMonthly = noon 2025 1 9.
Proof. by vm_compute. Qed.

Example test_CalculateRetentionDate_MaxAgeLimit :
  CalculateRetentionDate (NewPolicy 7 4 12 30) (noon 2024 1 15) BackupTypeMonthly
  = noon 2024 2 14
  /\ CalculateRetentionDate (NewPolicy 7 4 12 0) (noon 2024 1 15) BackupTypeMonthly
     = noon 2025 1 9.
Proof. by vm_compute. Qed.

Example test_GetRetentionInfo :
  snd (GetRetentionInfo testPolicy (noon 2024 1 15)) = "daily"
  /\ snd (GetRetentionInfo testPolicy (noon 2024 1 14)) = "weekly"
  /\ snd (GetRetentionInfo testPolicy (noon 2024 2 1)) = "monthly".
Proof. by vm_compute. Qed.

Example test_Config_IsSQLite :
  map (fun type => Config.IsSQLite asciiToLower (configOfType type))
    ["sqlite"; "sqlite3"; "SQLITE"; "SQLite3"; "postgres"; "postgresql"; EmptyString]
  = [true; true; true; true; false; false; false].
Proof. by vm_compute. Qed.

Example test_Config_IsPostgres :
  map (fun type => Config.IsPostgres asciiToLower (configOfType type))
    ["postgres"; "postgresql"; "pg"; "POSTGRES"; "PostgreSQL"; EmptyString;
     "sqlite"; "mysql"]
  = [true; true; true; true; true; true; false; false].
Proof. by vm_compute. Qed.

Example test_Load_Validation_UnsupportedDBType :
  Config.validate asciiToLower (configOfType "mysql")
  = Some (New "unsupported database type: mysql (supported: postgres, sqlite)").
Proof. by vm_compute. Qed.

Example test_ListBackups :
  Catalog.ListBackups mockList mockRead decodeSample twoBackups
  = Ok [mondayRecord; tuesdayRecord]
  /\ Catalog.GetBackup mockRead decodeSample twoBackups "tuesday" = Ok tuesdayRecord
  /\ Catalog.GetBackup mockRead decodeSample twoBackups "sunday"
     = Fail (New "backup not found: sunday").
Proof. by vm_compute. Qed.

(* --------------------------------------------------------------------- *)
(** ** The further properties at concrete inputs *)
(* --------------------------------------------------------------------- *)

(** Quotas of zero on the four week days: all four are returned. *)
Lemma zero_quotas_delete_everything_witness :
  DetermineBackupsToDelete (NewPolicy 0 0 0 0) feb1 weekdays = sortSlice weekdays
  /\ DetermineBackupsToDelete (NewPolicy 0 0 0 0) feb1 weekdays ≡ₚ weekdays.
Proof.
  apply (zero_quotas_delete_everything (NewPolicy 0 0 0 0) feb1 weekdays);
    cbn; lia.
Defined.

(** keepDaily = 2 and the newest of the four week days. *)
Lemma newest_records_are_kept_witness :
  lookupKeep (keptIDs (NewPolicy 2 0 0 0) weekdays) "thu" = true
  /\ ~ In (sample "thu" (noon 2024 1 18))
         (DetermineBackupsToDelete (NewPolicy 2 0 0 0) feb1 weekdays).
Proof.
  destruct (newest_records_are_kept (NewPolicy 2 0 0 0) feb1 weekdays
              (sample "thu" (noon 2024 1 18))) as [Hkept Hstay].
  - right. right. by left.
  - vm_compute. discriminate.
  - split; [exact Hkept|]. apply Hstay. left. cbn. lia.
Defined.

(** The policy of the tests on Monday 2024-01-15: kept for seven days. *)
Lemma retention_date_is_whole_days_witness :
  unixNano (fst (GetRetentionInfo testPolicy (noon 2024 1 15)))
  = unixNano (noon 2024 1 15) + 7 * dayNanos
  /\ After (noon 2024 1 15) (fst (GetRetentionInfo testPolicy (noon 2024 1 15))) = false
  /\ snd (GetRetentionInfo testPolicy (noon 2024 1 15)) = "daily".
Proof.
  destruct (retention_date_is_whole_days testPolicy (noon 2024 1 15))
    as (Hinst & _ & _ & _ & Hafter & Hlabel).
  - unfold policyWithin. cbn. lia.
  - split; [exact Hinst|]. split; [exact Hafter|exact Hlabel].
Defined.

(** Max-age of three days: on the 20th the record of the 16th, whose
    keep-until date was the 19th, is returned although keepDaily = 7. *)
Lemma past_keep_until_is_deleted_witness :
  In (sample "tue" (noon 2024 1 16))
     (DetermineBackupsToDelete shortMaxAge (noon 2024 1 20) weekdays).
Proof.
  apply (past_keep_until_is_deleted shortMaxAge (noon 2024 1 20) weekdays
           (sample "tue" (noon 2024 1 16))).
  - unfold policyWithin. cbn. lia.
  - reflexivity.
  - vm_compute. discriminate.
  - right. right. right. by left.
  - vm_compute. reflexivity.
Defined.

(** The valid record of the tests. *)
Lemma validate_result_invariants_witness :
  (Valid {| BackupID := "backup-001"; Valid := true; FileExists := true;
            SizeMatch := true; ChecksumOK := true; Errors := [] |} = true
   <-> Errors {| BackupID := "backup-001"; Valid := true; FileExists := true;
                 SizeMatch := true; ChecksumOK := true; Errors := [] |} = [])
  /\ [CallExists "backup-001.dump.gz"; CallSize "backup-001.dump.gz";
      CallRead "backup-001.dump.gz"]
     `prefix_of` [CallExists (dataFile goodRecord); CallSize (dataFile goodRecord);
                  CallRead (dataFile goodRecord)].
Proof.
  destruct (validate_result_invariants storeWithArtifact goodRecord
              [CallExists "backup-001.dump.gz"; CallSize "backup-001.dump.gz";
               CallRead "backup-001.dump.gz"]
              {| BackupID := "backup-001"; Valid := true; FileExists := true;
                 SizeMatch := true; ChecksumOK := true; Errors := [] |})
    as (_ & Hvalid & _ & _ & _ & Hcalls).
  - by vm_compute.
  - split; [exact Hvalid|exact Hcalls].
Defined.

(** The storage of the test ExistsError. *)
Lemma validate_error_paths_witness :
  Validate {| storage := {| Exists := fun _ => Fail (New "storage error");
                            Size := fun _ => Ok 0; Read := fun _ => Ok [] |};
              tempFault := NoFault |} noChecksum
  = ([CallExists "backup-001.dump.gz"],
     Fail (Wrap "failed to check file existence: " (New "storage error"))).
Proof.
  apply (proj2 (validate_error_paths _ noChecksum _ _)).
  split; [vm_compute; discriminate|].
  left. exists (New "storage error"). repeat split.
Defined.

(** The record of the tests, and the record that lists its metadata key
    only. *)
Lemma restore_check_picks_validated_file_witness :
  findBackupFile goodRecord = dataFile goodRecord
  /\ findBackupFile onlyMeta = EmptyString.
Proof.
  destruct (restore_check_picks_validated_file goodRecord) as (Hsame & _ & _).
  destruct (restore_check_picks_validated_file onlyMeta) as (_ & Hnone & _).
  split.
  - apply Hsame. intros f Hf Hsuffix.
    each_record Hf; [vm_compute in Hsuffix; discriminate|reflexivity].
  - apply Hnone. intros f Hf. each_record Hf. by vm_compute.
Defined.

(** A validator of type "mysql" on the record of the tests: the artifact is
    read before the type is refused. *)
Lemma restore_check_storage_use_witness :
  VerifyRestoreIntegrity asciiToLower restoreSucceeds restoreSucceeds
    storeWithArtifact "mysql" goodRecord
  = ([CallRead (findBackupFile goodRecord)],
     Some (New ("unsupported database type: " +:+ "mysql"))).
Proof.
  destruct (restore_check_storage_use asciiToLower restoreSucceeds restoreSucceeds
              storeWithArtifact "mysql" goodRecord) as (_ & _ & Htype).
  apply (Htype content (Readable content)).
  - vm_compute. discriminate.
  - reflexivity.
  - reflexivity.
  - vm_compute. intros H.
    repeat (destruct H as [H|H]; [discriminate H|]). exact H.
Defined.

(** Three failing attempts: the second wait is 20, not above maxWait. *)
Lemma retry_waits_capped_witness :
  (1 < calls (events (snd (WithRetry exactScale EmptyString Background testConfig
                             alwaysFails 0%nat))))%nat
  /\ 20 <= MaxWait testConfig.
Proof.
  destruct (retry_waits_capped exactScale EmptyString Background testConfig
              alwaysFails 0%nat 1%nat 20) as (Hcalls & _ & Hcap).
  - reflexivity.
  - split; [exact Hcalls|]. apply Hcap. discriminate.
Defined.

(** The mock storage keeps what [Delete] does not name. *)
Lemma mockLookup_filter m k k' :
  k' <> k ->
  mockLookup (List.filter (fun entry => negb (String.eqb (fst entry) k)) m) k'
  = mockLookup m k'.
Proof.
  intros Hne. induction m as [|[key data] m IH]; [done|].
  cbn [List.filter fst]. destruct (String.eqb_spec key k) as [->|Hk]; cbn [negb].
  - cbn [mockLookup]. by destruct (String.eqb_spec k k').
  - cbn [mockLookup]. by rewrite IH.
Qed.

Lemma mock_deleteTouchesOneKey :
  Catalog.deleteTouchesOneKey mockList mockRead mockDelete.
Proof.
  split.
  - intros st k k' Hne. unfold mockRead, mockDelete. cbn [snd].
    by rewrite mockLookup_filter.
  - intros st k. unfold mockList, mockDelete. cbn [snd Catalog.withoutKey]. f_equal.
    induction st as [|[key data] st IH]; [done|].
    cbn [List.filter fst map]. destruct (String.eqb_spec key k) as [->|Hk]; cbn [negb].
    + cbn [List.filter Catalog.Path]. rewrite String.eqb_refl. cbn [negb]. exact IH.
    + cbn [map List.filter Catalog.Path fst].
      destruct (String.eqb_spec key k); [done|]. cbn [negb]. by rewrite IH.
Qed.

(** The storage with two backups: both are listed and each can be
    fetched. *)
Lemma listed_backups_can_be_fetched_witness :
  exists files,
    mockList twoBackups EmptyString = Ok files
    /\ (length [mondayRecord; tuesdayRecord] <= length files)%nat
    /\ forall m, In m [mondayRecord; tuesdayRecord] ->
         exists id file,
           In file files
           /\ Catalog.Path file = id +:+ ".meta.json"
           /\ Catalog.GetBackup mockRead decodeSample twoBackups id = Ok m.
Proof.
  apply (proj2 (listed_backups_can_be_fetched mockList mockRead decodeSample
                  twoBackups)).
  by vm_compute.
Defined.

(** keepDaily = 1 on a storage whose [Delete] always fails: one record is
    reported as deleted, after a [Delete] of its artifact. *)
Lemma cleanup_counts_selected_records_witness :
  fst (Catalog.Cleanup mockList mockRead failingDelete decodeSample
         (NewPolicy 1 0 0 0) feb1 twoBackups)
  = (Z.of_nat (length (DetermineBackupsToDelete (NewPolicy 1 0 0 0) feb1
                         [mondayRecord; tuesdayRecord])), None)
  /\ map fst (Catalog.deletes
                (snd (Catalog.Cleanup mockList mockRead failingDelete decodeSample
                        (NewPolicy 1 0 0 0) feb1 twoBackups)))
     = concat (map Files (DetermineBackupsToDelete (NewPolicy 1 0 0 0) feb1
                            [mondayRecord; tuesdayRecord])).
Proof.
  apply (proj2 (cleanup_counts_selected_records mockList mockRead failingDelete
                  decodeSample (NewPolicy 1 0 0 0) feb1 twoBackups)
           [mondayRecord; tuesdayRecord]).
  - by vm_compute.
  - vm_compute. discriminate.
Defined.

(** keepDaily = 1 on the mock storage: the record of Monday is selected and
    its artifact removed, and both records are still listed afterwards. *)
Lemma cleanup_keeps_metadata_objects_witness :
  let st' := Catalog.backend
               (snd (Catalog.Cleanup mockList mockRead mockDelete decodeSample
                       (NewPolicy 1 0 0 0) feb1 twoBackups)) in
  Catalog.ListBackups mockList mockRead decodeSample st'
  = Ok [mondayRecord; tuesdayRecord]
  /\ fst (Catalog.Cleanup mockList mockRead mockDelete decodeSample
            (NewPolicy 1 0 0 0) feb1 st')
     = fst (Catalog.Cleanup mockList mockRead mockDelete decodeSample
              (NewPolicy 1 0 0 0) feb1 twoBackups)
  /\ map fst (Catalog.deletes
                (snd (Catalog.Cleanup mockList mockRead mockDelete decodeSample
                        (NewPolicy 1 0 0 0) feb1 st')))
     = map fst (Catalog.deletes
                  (snd (Catalog.Cleanup mockList mockRead mockDelete decodeSample
                          (NewPolicy 1 0 0 0) feb1 twoBackups))).
Proof.
  apply (cleanup_keeps_metadata_objects mockList mockRead mockDelete decodeSample
           mock_deleteTouchesOneKey (NewPolicy 1 0 0 0) feb1 twoBackups
           [mondayRecord; tuesdayRecord]).
  - by vm_compute.
  - intros b f Hb Hf.
    assert (DetermineBackupsToDelete (NewPolicy 1 0 0 0) feb1
              [mondayRecord; tuesdayRecord] = [mondayRecord]) as Hdel
      by (by vm_compute).
    rewrite Hdel in Hb. each_record Hb. each_record Hf. by vm_compute.
Defined.

(** The type "SQLite": accepted by [validate], refused by [NewDriver]. *)
Lemma validated_type_without_driver_witness :
  NewDriver "SQLite" = Unsupported (New ("unsupported database type: " +:+ "SQLite"))
  /\ asciiToLower "SQLite" <> "SQLite"
  /\ (Config.IsSQLite asciiToLower (configOfType "SQLite") = true
      \/ Config.IsPostgres asciiToLower (configOfType "SQLite") = true).
Proof.
  apply (validated_type_without_driver asciiToLower (configOfType "SQLite")).
  - by vm_compute.
  - vm_compute. intros H.
    repeat (destruct H as [H|H]; [discriminate H|]). exact H.
Defined.

(** The type "sqlite". *)
Lemma driver_follows_config_witness :
  NewDriver "sqlite"
  = (if Config.IsSQLite asciiToLower (configOfType "sqlite")
     then SQLiteDriver else PostgresDriver).
Proof.
  apply (driver_follows_config asciiToLower (configOfType "sqlite")); by vm_compute.
Defined.

(** A validator of type "sqlite" on the record of the tests. *)
Lemma restore_check_follows_config_witness :
  VerifyRestoreIntegrity asciiToLower restoreSucceeds restoreSucceeds
    storeWithArtifact "sqlite" goodRecord
  = ([CallRead (findBackupFile goodRecord)],
     if Config.IsSQLite asciiToLower (configOfType "sqlite")
     then restoreSucceeds (Readable content) (HasSuffix (findBackupFile goodRecord) ".gz")
     else restoreSucceeds (Readable content) (HasSuffix (findBackupFile goodRecord) ".gz")).
Proof.
  apply (restore_check_follows_config asciiToLower restoreSucceeds restoreSucceeds
           (configOfType "sqlite") storeWithArtifact goodRecord content
           (Readable content)).
  - by vm_compute.
  - vm_compute. discriminate.
  - reflexivity.
  - reflexivity.
Defined.

(** The same wall clock in two locations: 14:30:45 in UTC and 15:30:45 one
    hour east name different seconds, so the ids differ. *)
Lemma backup_ids_equal_iff_same_wall_second_witness :
  GenerateBackupID utcStart = GenerateBackupID localStart
  <-> wallSeconds utcStart = wallSeconds localStart.
Proof.
  apply (backup_ids_equal_iff_same_wall_second utcStart localStart);
    vm_compute; split; discriminate.
Defined.
